(** * qtl.pileup: a shallow embedding of src/qtl/pileup.py

    The module extracts per-position read depth with [samtools depth] for
    many samples in a worker pool, normalises the depths to reads per
    million, averages them by genotype and plots the result.

    Conventions of the embedding:
    - numbers of pandas dtype float64 are Rocq's primitive binary64 floats,
      so [x / l * 1e6] below is the very IEEE operation numpy performs;
      int32 depths are [Z];
    - a [pd.DataFrame] is its row index plus its columns in order, every
      column a label and its cells (labels may repeat, as in pandas);
    - a Python exception is a value of [PyExc]; code that may raise returns
      [result]; code that also touches the process (working directory,
      external programs, the collaborating modules [stats] and [genotype])
      runs in the monad [M] over a [World] that records those calls. *)

From Stdlib Require Import Floats ZArith List String Ascii Lia Sorted.
From stdpp Require Import gmap strings pretty.
Import ListNotations.

Set Warnings "-inexact-float".

Local Open Scope string_scope.
Local Open Scope list_scope.

(** ** Python exceptions and results *)

Inductive PyExc : Type :=
| KeyError (labels : list string)
| ValueError (msg : string)
| TypeError (msg : string)
| NameError (name : string)
| IndexError (msg : string)
| OverflowError (msg : string)
| FileNotFoundError (path : string)
| CalledProcessError (returncode : Z) (output : string)
| CollaboratorError (msg : string).

Inductive result (A : Type) : Type :=
| Ok (a : A)
| Raise (e : PyExc).
Arguments Ok {A} a.
Arguments Raise {A} e.

Definition rbind {A B} (r : result A) (k : A -> result B) : result B :=
  match r with
  | Ok a => k a
  | Raise e => Raise e
  end.

Notation "'let?' x ':=' c 'in' k" := (rbind c (fun x => k))
  (at level 10, x pattern, c at level 100, k at level 200).

(** ** The process: working directory and the calls that leave it *)

(** A path handed to [os.chdir] is absolute or relative to the working
    directory. The working directory itself is always absolute and is kept
    as the list of its components from the root. *)
Inductive Path : Type :=
| Abs (components : list string)
| Rel (components : list string).

(** What a run leaves outside the Python values: the calls of [os.chdir]
    that succeeded, the shell commands with the directory they ran in, and
    the calls into the collaborating modules. *)
Inductive Event : Type :=
| EvChdir (target : list string)
| EvShell (cmd : string) (cwd : list string)
| EvResidualize
| EvGetGenotype (variant_id path : string).

Record World : Type := mkWorld { cwd : list string; trace : list Event }.

Definition M (A : Type) : Type := World -> World * result A.

Definition ret {A} (a : A) : M A := fun w => (w, Ok a).
Definition raise {A} (e : PyExc) : M A := fun w => (w, Raise e).
Definition bind {A B} (m : M A) (k : A -> M B) : M B :=
  fun w => match m w with
           | (w', Ok a) => k a w'
           | (w', Raise e) => (w', Raise e)
           end.
Definition lift {A} (r : result A) : M A := fun w => (w, r).
Definition emit (e : Event) : M unit :=
  fun w => (mkWorld (cwd w) (trace w ++ [e]), Ok tt).

Notation "'let*' x ':=' c 'in' k" := (bind c (fun x => k))
  (at level 10, x pattern, c at level 100, k at level 200).

(** ** Strings: the few [str] methods the module calls *)

(** [s.split(sep)] for a one-character separator. *)
Fixpoint split_on (sep : ascii) (s : string) : list string :=
  match s with
  | EmptyString => [EmptyString]
  | String c rest =>
      if Ascii.eqb c sep then EmptyString :: split_on sep rest
      else match split_on sep rest with
           | [] => [String c EmptyString]
           | w :: ws => String c w :: ws
           end
  end.

(** [sep.join(parts)]. *)
Definition join (sep : string) (parts : list string) : string :=
  String.concat sep parts.

(** [s.endswith(suffix)]. *)
Definition endswith (s suffix : string) : bool :=
  let n := String.length s in
  let k := String.length suffix in
  if Nat.leb k n then String.eqb (String.substring (n - k) k s) suffix else false.

(** The default [id_map], [lambda x: '-'.join(x.split('-')[:2])]. *)
Definition default_id_map (x : string) : string :=
  join "-" (firstn 2 (split_on "-"%char x)).

(** ** Frames *)

Record DataFrame (L V : Type) : Type := mkDataFrame {
  df_index : list string;
  df_columns : list (L * list V)
}.
Arguments mkDataFrame {L V} df_index df_columns.
Arguments df_index {L V} d.
Arguments df_columns {L V} d.

(** [df.columns] and [df.shape[1]]. *)
Definition columns {L V} (df : DataFrame L V) : list L := map fst (df_columns df).
Definition shape1 {L V} (df : DataFrame L V) : nat := List.length (df_columns df).

(** [df[s]] for one label [s] of a frame whose labels are distinct. *)
Fixpoint getitem {V} (cols : list (string * list V)) (s : string) : option (list V) :=
  match cols with
  | [] => None
  | (l, vs) :: rest => if String.eqb l s then Some vs else getitem rest s
  end.

(** [df.rename(columns=id_map)]. *)
Definition rename_columns {V} (id_map : string -> string) (df : DataFrame string V)
  : DataFrame string V :=
  mkDataFrame (df_index df) (map (fun c => (id_map (fst c), snd c)) (df_columns df)).

(** Looking up a list of labels, as [series[labels]] and [df[labels]] do.
    [hits l] is what carries the label [l]. Every label is looked up before
    anything is raised: when some label is carried by nothing the lookup
    raises one [KeyError], which names the whole key if none of its labels was
    found and otherwise the labels not found, each once, in the order of the
    key. *)
Fixpoint unique_labels (seen labels : list string) : list string :=
  match labels with
  | [] => []
  | l :: ls =>
      if existsb (String.eqb l) seen then unique_labels seen ls
      else l :: unique_labels (l :: seen) ls
  end.

Definition not_in_index (labels missing : list string) : list string :=
  if Nat.eqb (List.length missing) (List.length labels) then labels
  else unique_labels [] missing.

Definition is_nil {A} (l : list A) : bool :=
  match l with
  | [] => true
  | _ :: _ => false
  end.

Definition loc_labels {A} (hits : string -> list A) (labels : list string)
  : result (list A) :=
  match List.filter (fun l => is_nil (hits l)) labels with
  | [] => Ok (flat_map hits labels)
  | missing => Raise (KeyError (not_in_index labels missing))
  end.

(** [libsize_s[labels]]: label lookup in a Series whose labels are
    distinct. *)
Definition loc_list (s : gmap string float) (labels : list string) : result (list float) :=
  loc_labels (fun l => match s !! l with Some v => [v] | None => [] end) labels.

(** [df / sel * 1e6] where [sel] is indexed by [df.columns]: pandas aligns
    the Series with the columns, so column [j] is divided by [sel[j]], then
    every cell is multiplied by the scalar. *)
Fixpoint div_mul (cols : list (string * list float)) (sel : list float) (k : float)
  : list (string * list float) :=
  match cols, sel with
  | (l, vs) :: cols', d :: sel' =>
      (l, map (fun x => (x / d * k)%float) vs) :: div_mul cols' sel' k
  | _, _ => []
  end.

(** ** The collaborators and [norm_pileups], [group_pileups] *)

(** A genotype Series: sample label and dosage in index order; [None] is a
    missing dosage (NaN). *)
Definition Dosages : Type := list (string * option Z).

(** The values [genotypes] may have: a [str], a [pd.Series], or any other
    Python object (a dict, a list, [None], ...). *)
Inductive Genotypes : Type :=
| GStr (s : string)
| GSeries (g : Dosages)
| GOther.

(** [np.unique] on integers: ascending, without repetition. *)
Fixpoint insert_unique (x : Z) (l : list Z) : list Z :=
  match l with
  | [] => [x]
  | y :: l' =>
      if (x <? y)%Z then x :: y :: l'
      else if (x =? y)%Z then y :: l'
      else y :: insert_unique x l'
  end.

Definition np_unique (l : list Z) : list Z := fold_right insert_unique [] l.

(** [g[g.notnull()]], the values only. *)
Definition notnull_values (g : Dosages) : list Z :=
  flat_map (fun e => match snd e with Some v => [v] | None => [] end) g.

(** [g[g == i].index]. *)
Definition index_where_eq (g : Dosages) (i : Z) : list string :=
  map fst (List.filter (fun e => match snd e with Some v => (v =? i)%Z | None => false end) g).

(** The columns that carry the label [l]. *)
Definition columns_labelled {V} (cols : list (string * list V)) (l : string)
  : list (string * list V) :=
  List.filter (fun c => String.eqb (fst c) l) cols.

(** [df[labels]] for a list of labels: [KeyError] if a label is no column;
    otherwise, label by label, every column that carries it. *)
Definition select_columns {V} (cols : list (string * list V)) (labels : list string)
  : result (list (string * list V)) :=
  loc_labels (columns_labelled cols) labels.

Definition nan : float := (0 / 0)%float.

Definition float_of_nat (n : nat) : float :=
  PrimFloat.of_uint63 (Uint63.of_Z (Z.of_nat n)).

(** *** Sums of floats

    [df.mean(axis=1)] and [df.sum()] leave the additions to pandas and numpy.
    Which cells are added first depends on the library and on the layout of
    the array in memory: one after the other along an axis that is not
    contiguous, in blocks of eight partial sums and pairwise along one that
    is; NaN cells are replaced by zeros or skipped. The embedding therefore
    takes the sum as a parameter [np_sum lanes cells], the sum of one lane
    [cells] of an array of [lanes] lanes reduced side by side, and records
    what every such sum has in common: it is reached from the cells that are
    not NaN, each used once, and from zeros by float64 additions. *)
Definition not_nan (xs : list float) : list float :=
  List.filter (fun x => negb (PrimFloat.is_nan x)) xs.

Inductive float_sum : list float -> float -> Prop :=
| float_sum_nil : float_sum [] 0%float
| float_sum_one x : float_sum [x] x
| float_sum_add l l1 l2 a b :
    Permutation l (l1 ++ l2) -> float_sum l1 a -> float_sum l2 b ->
    float_sum l (a + b)%float.

Definition sums_cells (np_sum : nat -> list float -> float) : Prop :=
  forall lanes cells, float_sum (not_nan cells) (np_sum lanes cells).

(** One such sum: the cells added one after the other, starting from zero. *)
Definition sequential_sum (lanes : nat) (xs : list float) : float :=
  fold_left (fun acc x => if PrimFloat.is_nan x then acc else (acc + x)%float) xs 0%float.

(** The number of cells that are not NaN. *)
Definition nancount (xs : list float) : nat := List.length (not_nan xs).

(** Row [r] of a list of columns. *)
Definition row_at (cols : list (string * list float)) (r : nat) : list float :=
  map (fun c => nth r (snd c) nan) cols.

(** [pd.concat(series, axis=1)] of Series that share the frame's index. *)
Definition concat_axis1 {L} (index : list string) (series : list (L * list float))
  : result (DataFrame L float) :=
  match series with
  | [] => Raise (ValueError "No objects to concatenate")
  | _ => Ok (mkDataFrame index series)
  end.

Section Reduction.

Variable np_sum : nat -> list float -> float.

(** [mean] with pandas' default [skipna=True]: the sum of the cells that
    are not NaN over their number; a row without such a cell has mean NaN. *)
Definition nanmean (lanes : nat) (xs : list float) : float :=
  if Nat.eqb (nancount xs) 0 then nan
  else (np_sum lanes xs / float_of_nat (nancount xs))%float.

(** [df.mean(axis=1)]. *)
Definition mean_axis1 (nrows : nat) (cols : list (string * list float)) : list float :=
  map (fun r => nanmean nrows (row_at cols r)) (seq 0 nrows).

(** Lines 97-100: average the normalised columns by dosage. *)
Fixpoint group_means (rpm : DataFrame string float) (g : Dosages) (cols : list Z)
  : result (list (Z * list float)) :=
  match cols with
  | [] => Ok []
  | i :: cols' =>
      let? members := select_columns (df_columns rpm) (index_where_eq g i) in
      let? rest := group_means rpm g cols' in
      Ok ((i, mean_axis1 (List.length (df_index rpm)) members) :: rest)
  end.

Definition average_by_genotype (rpm : DataFrame string float) (g : Dosages)
  : result (DataFrame Z float) :=
  let cols := np_unique (notnull_values g) in
  let? series := group_means rpm g cols in
  concat_axis1 (df_index rpm) series.

End Reduction.

(** [gt.get_genotype(...)[labels]]: label lookup in the Series the
    collaborator returned. *)
Definition loc_dosages (g : Dosages) (labels : list string) : result Dosages :=
  loc_labels (fun l => List.filter (fun e => String.eqb (fst e) l) g) labels.

Section Collaborators.

(** [stats.Residualizer(covariates_df).transform(df)] and
    [gt.get_genotype(variant_id, path)], outside this module. *)
Variable Residualizer_transform :
  DataFrame string float -> DataFrame string float -> result (DataFrame string float).
Variable get_genotype : string -> string -> result Dosages.

(** The sum behind [mean(axis=1)]. *)
Variable np_sum : nat -> list float -> float.

Definition norm_pileups (pileups_df : DataFrame string float)
    (libsize_s : gmap string float)
    (covariates_df : option (DataFrame string float))
    (id_map : string -> string) : M (DataFrame string float) :=
  let* sel := lift (loc_list libsize_s (columns pileups_df)) in
  let pileups_rpm_df :=
    rename_columns id_map
      (mkDataFrame (df_index pileups_df) (div_mul (df_columns pileups_df) sel 1e6%float)) in
  match covariates_df with
  | Some c =>
      let* _ := emit EvResidualize in
      lift (Residualizer_transform c pileups_rpm_df)
  | None => ret pileups_rpm_df
  end.

Definition group_pileups (pileups_df : DataFrame string float)
    (libsize_s : gmap string float) (variant_id : string) (genotypes : Genotypes)
    (covariates_df : option (DataFrame string float))
    (id_map : string -> string) : M (DataFrame Z float) :=
  let* pileups_rpm_df := norm_pileups pileups_df libsize_s covariates_df id_map in
  let* g :=
    match genotypes with
    | GStr s =>
        if endswith s ".vcf.gz" then
          let* _ := emit (EvGetGenotype variant_id s) in
          let* all := lift (get_genotype variant_id s) in
          lift (loc_dosages all (columns pileups_rpm_df))
        else raise (ValueError "Unsupported format for genotypes.")
    | GSeries g => ret g
    | GOther => raise (ValueError "Unsupported format for genotypes.")
    end in
  lift (average_by_genotype np_sum pileups_rpm_df g).

End Collaborators.

(** ** The working directory, [cd] and [_samtools_depth_wrapper] *)

(** A generator decorated with [contextlib.contextmanager] whose body is
    "code, one bare [yield], code": the statements before the [yield] run on
    entering the [with] block and those after it when the block ends. *)
Record GeneratorCM (S : Type) : Type := mkGeneratorCM {
  before_yield : M S;
  after_yield : S -> M unit
}.
Arguments mkGeneratorCM {S} before_yield after_yield.
Arguments before_yield {S} g.
Arguments after_yield {S} g s.

(** [with cm: body]. When the block ends normally the generator is resumed
    and runs the statements after its [yield]. When the block raises, the
    exception is thrown into the generator at the [yield]; no [try] statement
    encloses that [yield], so the exception leaves the generator at once, the
    statements after the [yield] are not executed, and the [with] statement
    re-raises it. *)
Definition with_ {S A} (cm : GeneratorCM S) (body : M A) : M A :=
  fun w =>
    match before_yield cm w with
    | (w1, Raise e) => (w1, Raise e)
    | (w1, Ok s) =>
        match body w1 with
        | (w2, Raise e) => (w2, Raise e)
        | (w2, Ok a) =>
            match after_yield cm s w2 with
            | (w3, Raise e) => (w3, Raise e)
            | (w3, Ok _) => (w3, Ok a)
            end
        end
    end.

Definition path_str (p : Path) : string :=
  match p with
  | Abs c => ("/" ++ join "/" c)%string
  | Rel c => join "/" c
  end.

Definition resolve (cur : list string) (p : Path) : list string :=
  match p with
  | Abs c => c
  | Rel c => cur ++ c
  end.

(** One per-sample result: [df[sample_id].astype(np.int32)] with the index
    [chr_pos]. *)
Record Series : Type := mkSeries {
  s_name : string;
  s_index : list string;
  s_values : list Z
}.

(** [str.strip()]. *)
Definition is_space (c : ascii) : bool :=
  let n := nat_of_ascii c in
  (Nat.eqb n 32 || (Nat.leb 9 n && Nat.leb n 13) || (Nat.leb 28 n && Nat.leb n 31))%bool.

Fixpoint lstrip (l : list ascii) : list ascii :=
  match l with
  | c :: l' => if is_space c then lstrip l' else l
  | [] => []
  end.

Definition strip (s : string) : string :=
  string_of_list_ascii (rev (lstrip (rev (lstrip (list_ascii_of_string s))))).

(** Decimal text to an integer, as [int()] reads ASCII text once the
    surrounding white space is gone: an optional sign, then digits, between
    two of which one underscore may stand. [seen] tells whether the
    character before was a digit. *)
Fixpoint digits_value (l : list ascii) (acc : Z) (seen : bool) : option Z :=
  match l with
  | [] => if seen then Some acc else None
  | c :: l' =>
      let n := nat_of_ascii c in
      if (Nat.leb 48 n && Nat.leb n 57)%bool
      then digits_value l' (10 * acc + Z.of_nat (n - 48))%Z true
      else if (Ascii.eqb c "_"%char && seen)%bool
      then digits_value l' acc false
      else None
  end.

Definition parse_int (s : string) : option Z :=
  match list_ascii_of_string s with
  | [] => None
  | c :: l' =>
      if Ascii.eqb c "-"%char
      then option_map Z.opp (digits_value l' 0%Z false)
      else if Ascii.eqb c "+"%char
      then digits_value l' 0%Z false
      else digits_value (c :: l') 0%Z false
  end.

(** [int(text)] on ASCII text: surrounding white space is ignored. *)
Definition py_int (text : string) : result Z :=
  match parse_int (strip text) with
  | Some z => Ok z
  | None => Raise (ValueError ("invalid literal for int() with base 10: " ++ text)%string)
  end.

(** One cell of [astype(np.int32)] on a column of text: [int(text)], which
    must fit 32 bits. *)
Definition to_int32 (s : string) : result Z :=
  let? z := py_int s in
  if ((-2147483648 <=? z) && (z <=? 2147483647))%Z then Ok z
  else Raise (OverflowError "Python int too large to convert to C long").

(** Line 43, [pd.DataFrame(rows, columns=['chr', 'pos', sample_id])]: the
    frame is as wide as the longest row, and shorter rows are filled up with
    [None]; the three column names fit only a width of three. *)
Definition frame_rows (c : list string) : result (list (list string)) :=
  let rows := map (split_on "009"%char) c in
  let width := list_max (map (@List.length string) rows) in
  if Nat.eqb width 3 then Ok rows
  else Raise (ValueError ("3 columns passed, passed data had " ++ pretty width
                          ++ " columns")%string).

(** Line 44, [df.index = df['chr'] + '_' + df['pos']]. If [sample_id] is
    itself [chr] or [pos] the frame has two columns of that name, [df[name]]
    is a frame instead of a column, and aligning it with the other operand
    fails on the repeated label. *)
Definition index_labels (sample_id : string) : result unit :=
  if (String.eqb sample_id "chr" || String.eqb sample_id "pos")%bool
  then Raise (ValueError "cannot reindex on an axis with duplicate labels")
  else Ok tt.

(** Line 45, [df[sample_id].astype(np.int32)], cell by cell with the row's
    label [chr_pos]. A row that was filled up has [None] for its depth. *)
Fixpoint astype_int32 (rows : list (list string)) : result (list (string * Z)) :=
  match rows with
  | [] => Ok []
  | row :: rows' =>
      match row with
      | [chr; pos; depth] =>
          let? v := to_int32 depth in
          let? rest := astype_int32 rows' in
          Ok (((chr ++ "_" ++ pos)%string, v) :: rest)
      | _ => Raise (TypeError "int() argument must be a string, a bytes-like object or a real number, not 'NoneType'")
      end
  end.

(** Lines 43-45. *)
Definition parse_depth_lines (sample_id : string) (c : list string)
  : result (list (string * Z)) :=
  let? rows := frame_rows c in
  let? _ := index_labels sample_id in
  astype_int32 rows.

(** The argument tuple of one task. *)
Record Task : Type := mkTask {
  bam_file : string;
  task_region : string;
  sample_id : string;
  bam_index_dir : option Path;
  depth : Z
}.

Section Process.

(** The file system and the shell, outside this module: which directories
    exist, and what [subprocess.check_output(cmd, shell=True)] gives for a
    command run in a directory (its output, or [CalledProcessError] for a
    nonzero exit status). *)
Variable isdir : list string -> bool.
Variable shell : string -> list string -> result string.

Definition os_getcwd : M (list string) := fun w => (w, Ok (cwd w)).

Definition os_chdir (p : Path) : M unit :=
  fun w =>
    let target := resolve (cwd w) p in
    if isdir target
    then (mkWorld target (trace w ++ [EvChdir target]), Ok tt)
    else (w, Raise (FileNotFoundError (path_str p))).

Definition check_output (cmd : string) : M string :=
  fun w => (mkWorld (cwd w) (trace w ++ [EvShell cmd (cwd w)]), shell cmd (cwd w)).

(** Lines 19-24. *)
Definition cd (cd_path : Path) : GeneratorCM (list string) :=
  mkGeneratorCM
    (let* saved_path := os_getcwd in
     let* _ := os_chdir cd_path in
     ret saved_path)
    (fun saved_path => os_chdir (Abs saved_path)).

Definition samtools_cmd (t : Task) : string :=
  ("export GCS_OAUTH_TOKEN=$GCS_OAUTH_TOKEN; samtools depth -a -a -d "
     ++ pretty (depth t) ++ " -Q 255 -r " ++ task_region t ++ " " ++ bam_file t)%string.

(** Lines 27-45. *)
Definition _samtools_depth_wrapper (args : Task) : M Series :=
  let cmd := samtools_cmd args in
  let* out :=
    match bam_index_dir args with
    | Some d => with_ (cd d) (check_output cmd)
    | None => check_output cmd
    end in
  let c := split_on "010"%char (strip out) in
  let* rows := lift (parse_depth_lines (sample_id args) c) in
  ret (mkSeries (sample_id args) (map fst rows) (map snd rows)).

End Process.

(** ** [samtools_depth]: the worker pool and the merged table *)

(** [pd.concat(series, axis=1)]: one column per Series, in list order, named
    after the Series. Series with one common index keep it; otherwise the
    rows are the labels of all the indexes (outer join, in order of first
    appearance) and a Series has no cell ([None], NaN) at a label it lacks. *)
Fixpoint lookup_cell (index : list string) (values : list Z) (lab : string) : option Z :=
  match index, values with
  | l :: index', v :: values' =>
      if String.eqb l lab then Some v else lookup_cell index' values' lab
  | _, _ => None
  end.

Definition add_labels (acc labs : list string) : list string :=
  fold_left (fun a l => if existsb (String.eqb l) a then a else a ++ [l]) labs acc.

Definition union_index (l : list Series) : list string :=
  fold_left (fun acc s => add_labels acc (s_index s)) l [].

Definition pd_concat (l : list Series) : result (DataFrame string (option Z)) :=
  match l with
  | [] => Raise (ValueError "No objects to concatenate")
  | s0 :: rest =>
      if forallb (fun s => bool_decide (s_index s = s_index s0)) rest
      then Ok (mkDataFrame (s_index s0)
                 (map (fun s => (s_name s, map Some (s_values s))) l))
      else
        let idx := union_index l in
        Ok (mkDataFrame idx
              (map (fun s => (s_name s, map (lookup_cell (s_index s) (s_values s)) idx)) l))
  end.

(** The task list of line 56, one task per item of [bam_s] in its order;
    [bam_s] maps a sample id [j] to a BAM path [i]. *)
Definition tasks_of (region_str : string) (bam_s : list (string * string))
    (index_dir : option Path) (d : Z) : list Task :=
  map (fun ji => mkTask (snd ji) region_str (fst ji) index_dir d) bam_s.

(** A worker process: its own copy of the process state (forked from the
    parent when the pool starts) and the task it is executing, if any. *)
Record Worker : Type := mkWorker {
  w_world : World;
  w_job : option (nat * Task)
}.

(** [mp.Pool(processes=num_threads)] running [pool.imap(f, tasks)] under the
    [for] loop of line 56: the tasks not yet handed to a worker, in
    submission order with their sequence numbers; the workers; the results
    that have come back and wait in the iterator; the sequence number the
    iterator hands out next; and the list the loop has appended so far. *)
Record Pool : Type := mkPool {
  queue : list (nat * Task);
  workers : list Worker;
  cache : list (nat * result Series);
  next : nat;
  pileups_df : list Series
}.

Definition pool_init (w : World) (num_threads : nat) (tasks : list Task) : Pool :=
  mkPool (combine (seq 0 (List.length tasks)) tasks)
         (repeat (mkWorker w None) num_threads) [] 0 [].

Section Pool.

Variable isdir : list string -> bool.
Variable shell : string -> list string -> result string.

(** What can happen next, in any interleaving: an idle worker takes the
    first queued task; a busy worker finishes its task, leaving the result
    with the iterator and keeping whatever the task did to its process
    state; the loop receives the result with the next sequence number. *)
Inductive pool_step : Pool -> Pool -> Prop :=
| step_take i t q ws1 w ws2 c n out :
    pool_step (mkPool ((i, t) :: q) (ws1 ++ mkWorker w None :: ws2) c n out)
              (mkPool q (ws1 ++ mkWorker w (Some (i, t)) :: ws2) c n out)
| step_finish i t q ws1 w ws2 c n out :
    pool_step (mkPool q (ws1 ++ mkWorker w (Some (i, t)) :: ws2) c n out)
              (mkPool q
                 (ws1 ++ mkWorker (fst (_samtools_depth_wrapper isdir shell t w)) None :: ws2)
                 (c ++ [(i, snd (_samtools_depth_wrapper isdir shell t w))]) n out)
| step_yield q ws c1 c2 n r out :
    pool_step (mkPool q ws (c1 ++ (n, Ok r) :: c2) n out)
              (mkPool q ws (c1 ++ c2) (S n) (out ++ [r])).

(** How the loop over [pool.imap] ends: with the appended list once the
    iterator has handed out all [total] results, or with the exception of
    the task whose turn it is. *)
Inductive imap_outcome (total : nat) : Pool -> result (list Series) -> Prop :=
| outcome_done p :
    next p = total -> imap_outcome total p (Ok (pileups_df p))
| outcome_raise p e :
    In (next p, Raise e) (cache p) -> imap_outcome total p (Raise e)
| outcome_step p p' o :
    pool_step p p' -> imap_outcome total p' o -> imap_outcome total p o.

(** Lines 48-62, from the parent's process state [w]: the pool is created
    (which needs at least one process), the loop runs, and its list is
    concatenated. The progress line printed per result is left out. *)
Definition samtools_depth_outcome (w : World) (region_str : string)
    (bam_s : list (string * string)) (index_dir : option Path) (d : Z)
    (num_threads : Z) (o : result (DataFrame string (option Z))) : Prop :=
  if (num_threads <? 1)%Z
  then o = Raise (ValueError "Number of processes must be at least 1")
  else
    let tasks := tasks_of region_str bam_s index_dir d in
    exists r,
      imap_outcome (List.length tasks) (pool_init w (Z.to_nat num_threads) tasks) r
      /\ o = (let? l := r in pd_concat l).

(** The same extraction with the tasks run one after the other in the
    calling process, each from the state [w]. *)
Fixpoint collect {A} (l : list (result A)) : result (list A) :=
  match l with
  | [] => Ok []
  | r :: l' =>
      let? a := r in
      let? rest := collect l' in
      Ok (a :: rest)
  end.

Definition run_from (w : World) (t : Task) : result Series :=
  snd (_samtools_depth_wrapper isdir shell t w).

Definition samtools_depth_seq (w : World) (region_str : string)
    (bam_s : list (string * string)) (index_dir : option Path) (d : Z)
  : result (DataFrame string (option Z)) :=
  let? l := collect (map (run_from w) (tasks_of region_str bam_s index_dir d)) in
  pd_concat l.

End Pool.

(** *** The invariant of the pool

    A worker process keeps its working directory from one task to the next.
    A task that returns has restored it, so a worker is in the parent's
    directory until it has finished a task that raised; from then on it may
    be elsewhere, but the tasks it takes afterwards all come later in the
    submission order than that failed task. *)
Section PoolInvariant.

Variable isdir : list string -> bool.
Variable shell : string -> list string -> result string.
Variable w0 : World.
Variable tasks : list Task.

(** Task [j], run in the parent's directory, raises. *)
Definition fails_from_start (j : nat) : Prop :=
  exists t e, tasks !! j = Some t /\ run_from isdir shell w0 t = Raise e.

Definition worker_ok (taken : nat) (wk : Worker) : Prop :=
  (cwd (w_world wk) = cwd w0
   \/ exists j, fails_from_start j /\ j < taken
                /\ forall i t, w_job wk = Some (i, t) -> j < i)
  /\ forall i t, w_job wk = Some (i, t) -> i < taken /\ tasks !! i = Some t.

Definition pool_inv (p : Pool) : Prop :=
  exists taken,
    queue p = combine (seq taken (List.length tasks - taken)) (drop taken tasks)
    /\ taken <= List.length tasks
    /\ Forall (worker_ok taken) (workers p)
    /\ (forall i r, In (i, r) (cache p) ->
          exists t, tasks !! i = Some t
                    /\ (r = run_from isdir shell w0 t
                        \/ exists j, j < i /\ fails_from_start j))
    /\ map (run_from isdir shell w0) (take (next p) tasks) = map Ok (pileups_df p)
    /\ next p <= List.length tasks.

End PoolInvariant.

(** [astype(float)] of the merged table, as the division of [norm_pileups]
    converts it. *)
Definition float_of_int32 (z : Z) : float :=
  if (z <? 0)%Z then (- PrimFloat.of_uint63 (Uint63.of_Z (- z)))%float
  else PrimFloat.of_uint63 (Uint63.of_Z z).

Definition to_float64 (df : DataFrame string (option Z)) : DataFrame string float :=
  mkDataFrame (df_index df)
    (map (fun c => (fst c, map (fun v => match v with Some z => float_of_int32 z | None => nan end)
                            (snd c)))
         (df_columns df)).

(** ** [plot]: colour cycle, trace order, drawing loop, shading *)

(** A column label of a plotted table: a Python [int] (a dosage, or a
    position) or a [str] (a sample id). An [int] never equals a [str]. *)
Inductive Label : Type :=
| LInt (z : Z)
| LStr (s : string).

Definition label_eqb (a b : Label) : bool :=
  match a, b with
  | LInt x, LInt y => (x =? y)%Z
  | LStr x, LStr y => String.eqb x y
  | _, _ => false
  end.

Definition Table : Type := DataFrame Label float.

(** The argument of [hsv_to_rgb]: hue, saturation, value. *)
Definition Color : Type := (float * float * float)%type.

(** Lines 141-145: blue, orange, green. *)
Definition custom_cycler_colors : list Color :=
  [ (0.55, 0.75, 0.8); (0.08, 1, 1); (0.3, 0.7, 0.7) ]%float.

(** Lines 140-147; [None] is matplotlib's default cycle. *)
Definition custom_cycler (pileup_dfs : list Table) : result (option (list Color)) :=
  match pileup_dfs with
  | [] => Raise (IndexError "list index out of range")
  | first :: _ => Ok (if Nat.leb (shape1 first) 3 then Some custom_cycler_colors else None)
  end.

(** Lines 149-156: the cycle set on each panel of [axv], panel 0 first. *)
Definition panel_cycles (pileup_dfs : list Table) : result (list (option (list Color))) :=
  let? c := custom_cycler pileup_dfs in
  Ok (c :: map (fun _ => c) (seq 1 (List.length pileup_dfs - 1))).

(** [np.argsort] on an array: the positions in ascending order of value.
    The order among equal values is the sorting routine's; here they keep
    their order. *)
Fixpoint insert_by_value (x : nat * float) (l : list (nat * float)) : list (nat * float) :=
  match l with
  | [] => [x]
  | y :: l' =>
      if (snd x <=? snd y)%float then x :: y :: l' else y :: insert_by_value x l'
  end.

Definition np_argsort (vals : list float) : list nat :=
  map fst (fold_right insert_by_value [] (combine (seq 0 (List.length vals)) vals)).

(** [result = np.full(len(s), -1)] then [result[notmask] = ranks]: the
    ranks, as many as there are places whose value is not NaN, go to these
    places in order. *)
Fixpoint mark_nan (vals : list float) (ranks : list nat) : list Z :=
  match vals with
  | [] => []
  | v :: vs =>
      if PrimFloat.is_nan v then (-1)%Z :: mark_nan vs ranks
      else match ranks with
           | r :: rs => Z.of_nat r :: mark_nan vs rs
           | [] => (-1)%Z :: mark_nan vs []
           end
  end.

(** [np.argsort(s)] on a Series is [Series.argsort]. Without a NaN it is
    [np.argsort] of the values. With a NaN among them the result is not a
    list of positions: the places of the NaN hold -1 and the other places
    hold [np.argsort] of the values that are left, numbered among
    themselves. *)
Definition argsort (vals : list float) : list Z :=
  if existsb PrimFloat.is_nan vals
  then mark_nan vals (np_argsort (not_nan vals))
  else map Z.of_nat (np_argsort vals).

(** The values [order] may have. *)
Inductive Order : Type :=
| OList (l : list Label)
| OStr (s : string).

(** A label as a message shows it. *)
Definition label_str (l : Label) : string :=
  match l with
  | LInt z => pretty z
  | LStr s => s
  end.

(** [s[label]] on a Series: the values under that label. One value is a
    number; several, under a repeated label, are a Series again. *)
Definition sum_at (s : list (Label * float)) (l : Label) : list float :=
  map snd (List.filter (fun c => label_eqb (fst c) l) s).

(** [if s[a] < s[b]]. Two numbers compare to a bool. As soon as a side is a
    Series the comparison is a Series of several bools, which has no truth
    value; two Series under different labels cannot be compared at all. *)
Definition first_lt_last (s : list (Label * float)) (a b : Label) : result bool :=
  match sum_at s a, sum_at s b with
  | [], _ => Raise (KeyError [label_str a])
  | _, [] => Raise (KeyError [label_str b])
  | [x], [y] => Ok (x <? y)%float
  | _ :: _ :: _, _ :: _ :: _ =>
      if label_eqb a b
      then Raise (ValueError "The truth value of a Series is ambiguous. Use a.empty, a.bool(), a.item(), a.any() or a.all().")
      else Raise (ValueError "Can only compare identically-labeled Series objects")
  | _, _ =>
      Raise (ValueError "The truth value of a Series is ambiguous. Use a.empty, a.bool(), a.item(), a.any() or a.all().")
  end.

(** One call of [ax.plot] or [ax.fill_between]: the panel, the label and
    the column drawn. *)
Record Trace : Type := mkTrace {
  tr_panel : nat;
  tr_label : Label;
  tr_outline : bool;
  tr_y : list float
}.

(** [i in df]: is [i] a column label. *)
Definition has_column (d : Table) (i : Label) : bool :=
  existsb (label_eqb i) (columns d).

(** The first column that carries the label [i]. *)
Fixpoint column_of (cols : list (Label * list float)) (i : Label) : list float :=
  match cols with
  | [] => []
  | (l, vs) :: rest => if label_eqb l i then vs else column_of rest i
  end.

(** [df[i]]: the columns that carry the label [i]. One column is a Series;
    several, under a repeated label, are a frame. *)
Definition columns_of (cols : list (Label * list float)) (i : Label) : list (list float) :=
  map snd (List.filter (fun c => label_eqb (fst c) i) cols).

(** Lines 175-179 for one label: nothing for a label the table lacks; for a
    Series one trace; for a frame [ax.plot] draws one line per column, all
    under the label, and [ax.fill_between] refuses data that are not
    one-dimensional. *)
Definition draw_label (outline : bool) (k : nat) (d : Table) (i : Label)
  : result (list Trace) :=
  if has_column d i then
    match columns_of (df_columns d) i with
    | [y] => Ok [mkTrace k i outline y]
    | ys =>
        if outline then Ok (map (mkTrace k i outline) ys)
        else Raise (ValueError "'y1' is not 1-dimensional")
    end
  else Ok [].

(** Lines 173-179: the calls in the order they are made. *)
Definition draw_panel (outline : bool) (k : nat) (d : Table) (sorder : list Label)
  : result (list Trace) :=
  let? drawn := collect (map (draw_label outline k d) sorder) in
  Ok (concat drawn).

Definition draw_traces (outline : bool) (pileup_dfs : list Table) (sorder : list Label)
  : result (list Trace) :=
  let? drawn :=
    collect (map (fun kd => draw_panel outline (fst kd) (snd kd) sorder)
                 (combine (seq 0 (List.length pileup_dfs)) pileup_dfs)) in
  Ok (concat drawn).

Section TraceOrder.

(** The sum behind [df.sum()]. *)
Variable np_sum : nat -> list float -> float.

(** [df.sum()]: the sum of every column, NaN cells skipped. *)
Definition column_sums (d : Table) : list (Label * float) :=
  map (fun c => (fst c, np_sum (shape1 d) (snd c))) (df_columns d).

(** Lines 158-168. Under ['sorted'] the elements of [sorder] are the
    integers [np.argsort] returns, positions in [s] when no total is NaN;
    under the other modes they are labels. With any other string [sorder] is never bound. *)
Definition sorder_of (order : Order) (pileup_dfs : list Table) : result (list Label) :=
  match pileup_dfs with
  | [] => Raise (IndexError "list index out of range")
  | first :: _ =>
      let s := column_sums first in
      match order with
      | OList l => Ok l
      | OStr o =>
          if String.eqb o "additive" then
            match map fst s, rev (map fst s) with
            | l0 :: _, l1 :: _ =>
                let? lt := first_lt_last s l0 l1 in
                Ok (if lt then rev (map fst s) else map fst s)
            | _, _ => Raise (IndexError "index 0 is out of bounds for axis 0 with size 0")
            end
          else if String.eqb o "sorted" then
            Ok (map LInt (rev (argsort (map snd s))))
          else if String.eqb o "none" then Ok (map fst s)
          else Raise (NameError "sorder")
      end
  end.

Definition plot_traces (order : Order) (outline : bool) (pileup_dfs : list Table)
  : result (list Trace) :=
  let? sorder := sorder_of order pileup_dfs in
  draw_traces outline pileup_dfs sorder.

End TraceOrder.

(** The names visible inside [plot]: its parameters and the names it
    assigns (its locals), the names the module binds at top level (its
    imports and its six definitions), and Python's builtins. *)
Definition plot_locals : list string :=
  [ "pileup_dfs"; "gene"; "mappability_bigwig"; "variant_id"; "order"; "title";
    "show_variant_pos"; "max_intron"; "alpha"; "lw"; "highlight_introns";
    "highlight_introns2"; "shade_range"; "ymax"; "xlim"; "rasterized"; "outline";
    "labels"; "dl"; "aw"; "dr"; "db"; "ah"; "dt"; "ds"; "num_pileups"; "nt"; "da";
    "da2"; "fw"; "fh"; "chrom"; "pos"; "ref"; "alt"; "gtlabels"; "custom_cycler";
    "fig"; "ax"; "axv"; "i"; "s"; "sorder"; "xi"; "k"; "leg"; "line"; "x"; "ylim";
    "h"; "b"; "v"; "gax"; "c"; "mpax" ].

Definition module_globals : list string :=
  [ "pd"; "np"; "glob"; "os"; "subprocess"; "contextlib"; "mp"; "plt"; "patches";
    "hsv_to_rgb"; "sns"; "cycler"; "stats"; "annotation"; "qtl_plot"; "gt";
    "cd"; "_samtools_depth_wrapper"; "samtools_depth"; "norm_pileups";
    "group_pileups"; "plot";
    "__name__"; "__doc__"; "__package__"; "__loader__"; "__spec__"; "__file__";
    "__cached__"; "__builtins__" ].

Definition python_builtins : list string :=
  [ "abs"; "aiter"; "all"; "anext"; "any"; "ascii"; "bin"; "bool"; "breakpoint";
    "bytearray"; "bytes"; "callable"; "chr"; "classmethod"; "compile"; "complex";
    "copyright"; "credits"; "delattr"; "dict"; "dir"; "divmod"; "enumerate";
    "eval"; "exec"; "exit"; "filter"; "float"; "format"; "frozenset"; "getattr";
    "globals"; "hasattr"; "hash"; "help"; "hex"; "id"; "input"; "int";
    "isinstance"; "issubclass"; "iter"; "len"; "license"; "list"; "locals"; "map";
    "max"; "memoryview"; "min"; "next"; "object"; "oct"; "open"; "ord"; "pow";
    "print"; "property"; "quit"; "range"; "repr"; "reversed"; "round"; "set";
    "setattr"; "slice"; "sorted"; "staticmethod"; "str"; "sum"; "super"; "tuple";
    "type"; "vars"; "zip"; "__import__"; "__build_class__"; "__debug__";
    "None"; "True"; "False"; "Ellipsis"; "NotImplemented";
    "BaseException"; "BaseExceptionGroup"; "Exception"; "ExceptionGroup";
    "ArithmeticError"; "AssertionError"; "AttributeError"; "BlockingIOError";
    "BrokenPipeError"; "BufferError"; "BytesWarning"; "ChildProcessError";
    "ConnectionAbortedError"; "ConnectionError"; "ConnectionRefusedError";
    "ConnectionResetError"; "DeprecationWarning"; "EOFError"; "EncodingWarning";
    "EnvironmentError"; "FileExistsError"; "FileNotFoundError";
    "FloatingPointError"; "FutureWarning"; "GeneratorExit"; "IOError";
    "ImportError"; "ImportWarning"; "IndentationError"; "IndexError";
    "InterruptedError"; "IsADirectoryError"; "KeyError"; "KeyboardInterrupt";
    "LookupError"; "MemoryError"; "ModuleNotFoundError"; "NameError";
    "NotADirectoryError"; "NotImplementedError"; "OSError"; "OverflowError";
    "PendingDeprecationWarning"; "PermissionError"; "ProcessLookupError";
    "RecursionError"; "ReferenceError"; "ResourceWarning"; "RuntimeError";
    "RuntimeWarning"; "StopAsyncIteration"; "StopIteration"; "SyntaxError";
    "SyntaxWarning"; "SystemError"; "SystemExit"; "TabError"; "TimeoutError";
    "TypeError"; "UnboundLocalError"; "UnicodeDecodeError"; "UnicodeEncodeError";
    "UnicodeError"; "UnicodeTranslateError"; "UnicodeWarning"; "UserWarning";
    "ValueError"; "Warning"; "ZeroDivisionError" ].

(** Loading a name inside [plot]: a local, else a global of the module, else
    a builtin, else [NameError]. *)
Definition load_name (name : string) : result string :=
  if existsb (String.eqb name) (plot_locals ++ module_globals ++ python_builtins)
  then Ok name
  else Raise (NameError name).

(** The values [shade_range] may have when it is not [None]. *)
Inductive ShadeRange : Type :=
| SRList (l : list Z)
| SRStr (s : string).

(** [l[-1]]. *)
Definition last_item (l : list string) : string := List.last l "".

(** [np.array(texts).astype(int)], text by text. *)
Fixpoint astype_int (l : list string) : result (list Z) :=
  match l with
  | [] => Ok []
  | s :: l' =>
      let? z := py_int s in
      let? rest := astype_int l' in
      Ok (z :: rest)
  end.

(** One [patches.Rectangle((x, 0), width, height, facecolor=[gray]*3,
    zorder=-10)]. *)
Record Rectangle : Type := mkRectangle {
  rect_x : float;
  rect_width : float;
  rect_height : float;
  rect_gray : float
}.

(** Lines 229-231. *)
Fixpoint shade_rectangles (k : nat) (xs : list float) (height : float) : list Rectangle :=
  match xs with
  | a :: ((b :: _) as rest) =>
      mkRectangle a (b - a)%float height (if Nat.even k then 0.8%float else 0.9%float)
        :: shade_rectangles (S k) rest height
  | _ => []
  end.

Section Shade.

(** Calling the object a loaded name denotes with the array of breakpoints
    as its argument. *)
Variable call_loaded : string -> list Z -> result (list float).

(** Lines 222-231: the rectangles added to the last pileup panel. *)
Definition plot_shade (shade_range : option ShadeRange) (gene_start_pos : Z)
    (ylim1 : float) : result (list Rectangle) :=
  match shade_range with
  | None => Ok []
  | Some sr =>
      let? a :=
        match sr with
        | SRStr s => astype_int (split_on "-"%char (last_item (split_on ":"%char s)))
        | SRList l => Ok l
        end in
      let a := map (fun x => (x - gene_start_pos)%Z) a in
      let? f := load_name "ifct" in
      let? xs := call_loaded f a in
      Ok (shade_rectangles 0 xs ylim1)
  end.

End Shade.

(** ** Classification of [genotypes], and a small world for examples *)

(** [genotypes] is neither a [pd.Series] nor a [str] ending in [.vcf.gz]. *)
Definition unsupported (genotypes : Genotypes) : bool :=
  match genotypes with
  | GStr s => negb (endswith s ".vcf.gz")
  | GSeries _ => false
  | GOther => true
  end.

Definition tab : string := String "009"%char EmptyString.
Definition nl : string := String "010"%char EmptyString.

(** A shell in which [samtools depth] prints two positions for [a.bam] and
    for [b.bam] and fails for any other file. *)
Definition example_shell (cmd : string) (dir : list string) : result string :=
  if endswith cmd " a.bam"
  then Ok ("chr1" ++ tab ++ "100" ++ tab ++ "5" ++ nl
           ++ "chr1" ++ tab ++ "101" ++ tab ++ "7" ++ nl)%string
  else if endswith cmd " b.bam"
  then Ok ("chr1" ++ tab ++ "100" ++ tab ++ "0" ++ nl
           ++ "chr1" ++ tab ++ "101" ++ tab ++ "12" ++ nl)%string
  else Raise (CalledProcessError 1 "samtools depth: could not open").

(** ** The text [samtools depth] prints *)

(** One line per position: chromosome, position and depth separated by
    tabs, every line ended by a newline. *)
Definition depth_line (row : string * string * string) : string :=
  (fst (fst row) ++ tab ++ snd (fst row) ++ tab ++ snd row)%string.

Definition depth_output (rows : list (string * string * string)) : string :=
  String.concat "" (map (fun row => (depth_line row ++ nl)%string) rows).

(** Text without white space. *)
Definition no_space (s : string) : Prop :=
  Forall (fun c => is_space c = false) (list_ascii_of_string s).

(** ** More of [plot]: the variant identifier and the panel labels *)

(** Lines 126-127: [chrom, pos, ref, alt = variant_id.split('_')[:4]], then
    [pos = int(pos)]. Unpacking fewer than four fields raises. *)
Definition parse_variant_id (variant_id : string) : result (string * Z * string * string) :=
  match firstn 4 (split_on "_"%char variant_id) with
  | [chrom; pos; ref; alt] =>
      let? p := py_int pos in
      Ok (chrom, p, ref, alt)
  | _ => Raise (ValueError "not enough values to unpack (expected 4)")
  end.

(** [l[k]] for a non-negative [k]. *)
Definition list_item {A} (l : list A) (k : nat) : result A :=
  match nth_error l k with
  | Some x => Ok x
  | None => Raise (IndexError "list index out of range")
  end.

(** Lines 181-185: the y label of every pileup panel, [labels[k]] for panel
    [k]; without [labels] every panel is labelled [Mean RPM]. *)
Definition panel_labels (labels : option (list string)) (num_pileups : nat)
  : result (list string) :=
  let labels :=
    match labels with
    | None => repeat "Mean RPM" num_pileups
    | Some l => l
    end in
  collect (map (list_item labels) (seq 0 num_pileups)).

(** The sample [l] has a non-missing dosage in [g]. *)
Definition has_dosage (g : Dosages) (l : string) : bool :=
  existsb (fun e => String.eqb (fst e) l && match snd e with Some _ => true | None => false end)%bool g.

(** ** Progress of the pool *)

Definition busy (wk : Worker) : bool :=
  match w_job wk with
  | Some _ => true
  | None => false
  end.

(** What is left to do: every step of the pool makes it smaller. *)
Definition pool_measure (total : nat) (p : Pool) : nat :=
  3 * List.length (queue p) + 2 * List.length (List.filter busy (workers p))
  + (total - next p).

(** No result is lost: every task that has left the queue and has not been
    handed to the loop is being executed or waits in the iterator. *)
Definition pool_accounted (tasks : list Task) (p : Pool) : Prop :=
  exists taken,
    queue p = combine (seq taken (List.length tasks - taken)) (drop taken tasks)
    /\ taken <= List.length tasks
    /\ next p <= taken
    /\ (forall i r, In (i, r) (cache p) -> i < taken)
    /\ (forall i t, In (Some (i, t)) (map w_job (workers p)) -> i < taken)
    /\ (forall i, next p <= i < taken ->
          (exists r, In (i, r) (cache p))
          \/ exists t, In (Some (i, t)) (map w_job (workers p))).

(** * Properties *)

(** ** Normalisation *)

(** *** Looking up a list of labels *)

Lemma filter_all {A} (f : A -> bool) (l : list A) :
  List.length (List.filter f l) = List.length l -> List.filter f l = l.
Proof.
  induction l as [|x l IH]; simpl; [reflexivity|].
  pose proof (List.filter_length_le f l) as Hle.
  destruct (f x); simpl; intros Hlen.
  - f_equal. apply IH. lia.
  - lia.
Qed.

Lemma unique_labels_In (seen labels : list string) l :
  In l (unique_labels seen labels) <-> In l labels /\ ~ In l seen.
Proof.
  revert seen. induction labels as [|x xs IH]; intros seen; simpl; [tauto|].
  destruct (existsb (String.eqb x) seen) eqn:Hx.
  - apply existsb_exists in Hx as (y & Hy & Hxy). apply String.eqb_eq in Hxy. subst y.
    rewrite IH. split.
    + intros [H1 H2]. auto.
    + intros [[->|H1] H2]; [contradiction|auto].
  - assert (Hnot : ~ In x seen).
    { intros Hin. apply not_true_iff_false in Hx. apply Hx.
      apply existsb_exists. exists x. split; [exact Hin|apply String.eqb_refl]. }
    simpl. rewrite IH. simpl. split.
    + intros [<-|[H1 H2]]; [auto|]. split; [now right|]. intros H3. apply H2. now right.
    + intros [[->|H1] H2]; [now left|].
      destruct (String.eqb_spec x l) as [->|Hne]; [now left|].
      right. split; [exact H1|]. intros [H3|H3]; [contradiction|contradiction].
Qed.

Lemma unique_labels_sublist (seen labels : list string) :
  sublist (unique_labels seen labels) labels.
Proof.
  revert seen. induction labels as [|x xs IH]; intros seen; simpl; [constructor|].
  destruct (existsb (String.eqb x) seen).
  - apply sublist_cons, IH.
  - apply sublist_skip, IH.
Qed.

Lemma filter_sublist {A} (f : A -> bool) (l : list A) : sublist (List.filter f l) l.
Proof.
  induction l as [|x l IH]; simpl; [constructor|].
  destruct (f x); [now apply sublist_skip|now apply sublist_cons].
Qed.

Lemma not_in_index_sublist (labels : list string) (f : string -> bool) :
  sublist (not_in_index labels (List.filter f labels)) labels.
Proof.
  unfold not_in_index. destruct (Nat.eqb _ _); [reflexivity|].
  etransitivity; [apply unique_labels_sublist|apply filter_sublist].
Qed.

Lemma not_in_index_In (labels missing : list string) (f : string -> bool) l :
  missing = List.filter f labels ->
  In l (not_in_index labels missing) <-> In l missing.
Proof.
  intros ->. unfold not_in_index.
  destruct (Nat.eqb_spec (List.length (List.filter f labels)) (List.length labels)) as [E|_].
  - now rewrite (filter_all _ _ E).
  - rewrite unique_labels_In. simpl. tauto.
Qed.

Lemma is_nil_true {A} (l : list A) : is_nil l = true <-> l = [].
Proof. destruct l; simpl; split; congruence. Qed.

(** A lookup of labels that are all carried gives, label by label, what
    carries them. *)
Lemma loc_labels_ok {A} (hits : string -> list A) (labels : list string) :
  (forall l, In l labels -> hits l <> []) ->
  loc_labels hits labels = Ok (flat_map hits labels).
Proof.
  intros Hall. unfold loc_labels.
  destruct (List.filter (fun l => is_nil (hits l)) labels) as [|m ms] eqn:Hm; [reflexivity|].
  exfalso. assert (Hin : In m (List.filter (fun l => is_nil (hits l)) labels))
    by (rewrite Hm; now left).
  apply filter_In in Hin as [Hin Hnil]. apply is_nil_true in Hnil.
  exact (Hall m Hin Hnil).
Qed.

(** A lookup with a label that nothing carries raises one [KeyError], and
    the labels it names are exactly the labels of the key that nothing
    carries. *)
Lemma loc_labels_raise {A} (hits : string -> list A) (labels : list string) :
  (exists l, In l labels /\ hits l = []) ->
  exists named,
    loc_labels hits labels = Raise (KeyError named)
    /\ named <> []
    /\ sublist named labels
    /\ forall l, In l named <-> In l labels /\ hits l = [].
Proof.
  intros (l0 & Hl0 & Hnil0). unfold loc_labels.
  assert (Hchar : forall l, In l (List.filter (fun l => is_nil (hits l)) labels)
                            <-> In l labels /\ hits l = []).
  { intros l. rewrite filter_In, is_nil_true. reflexivity. }
  destruct (List.filter (fun l => is_nil (hits l)) labels) as [|m ms] eqn:Hm.
  - exfalso. apply (proj2 (Hchar l0)). now split.
  - eexists. split; [reflexivity|].
    assert (Hnamed : forall l, In l (not_in_index labels (m :: ms)) <-> In l (m :: ms))
      by (intros l; apply (not_in_index_In labels (m :: ms) (fun l => is_nil (hits l)));
          now rewrite Hm).
    split; [|split].
    + intros Hnil. assert (H : In m (not_in_index labels (m :: ms)))
        by (apply Hnamed; now left).
      rewrite Hnil in H. exact H.
    + rewrite <- Hm. apply not_in_index_sublist.
    + intros l. rewrite Hnamed. apply Hchar.
Qed.

Lemma loc_labels_Ok_inv {A} (hits : string -> list A) (labels : list string) r :
  loc_labels hits labels = Ok r ->
  r = flat_map hits labels /\ forall l, In l labels -> hits l <> [].
Proof.
  unfold loc_labels.
  destruct (List.filter (fun l => is_nil (hits l)) labels) as [|m ms] eqn:Hm; [|discriminate].
  intros [= <-]. split; [reflexivity|].
  intros l Hin Hnil.
  assert (H : In l (List.filter (fun l => is_nil (hits l)) labels))
    by (apply filter_In; split; [exact Hin|now apply is_nil_true]).
  rewrite Hm in H. exact H.
Qed.

Lemma loc_labels_Raise_inv {A} (hits : string -> list A) (labels : list string) e :
  loc_labels hits labels = Raise e -> exists l, In l labels /\ hits l = [].
Proof.
  unfold loc_labels.
  destruct (List.filter (fun l => is_nil (hits l)) labels) as [|m ms] eqn:Hm; [discriminate|].
  intros _. assert (H : In m (List.filter (fun l => is_nil (hits l)) labels))
    by (rewrite Hm; now left).
  apply filter_In in H as [Hin Hnil]. apply is_nil_true in Hnil. eauto.
Qed.

Lemma loc_list_covered (libsize_s : gmap string float) (labels : list string) :
  (forall s, In s labels -> is_Some (libsize_s !! s)) ->
  exists sel, loc_list libsize_s labels = Ok sel.
Proof.
  intros Hcov. eexists. apply loc_labels_ok.
  intros l Hl. destruct (Hcov l Hl) as [v Hv]. rewrite Hv. discriminate.
Qed.

Lemma loc_list_cons_inv (libsize_s : gmap string float) l ls sel :
  loc_list libsize_s (l :: ls) = Ok sel ->
  exists v sel', libsize_s !! l = Some v /\ sel = v :: sel'
                 /\ loc_list libsize_s ls = Ok sel'.
Proof.
  intros H. apply loc_labels_Ok_inv in H as [-> Hall].
  destruct (libsize_s !! l) as [v|] eqn:Hv.
  - exists v. eexists. split; [reflexivity|]. split.
    + simpl. rewrite Hv. reflexivity.
    + apply loc_labels_ok. intros l' Hl'. apply Hall. now right.
  - exfalso. apply (Hall l); [now left|]. now rewrite Hv.
Qed.

(** Column by column, [div_mul] keeps the label and maps the cells. *)
Lemma div_mul_columns (libsize_s : gmap string float) (k : float) :
  forall cols sel,
    loc_list libsize_s (map fst cols) = Ok sel ->
    Forall2 (fun c c' => fst c' = fst c /\
                         exists l, libsize_s !! fst c = Some l /\
                                   snd c' = map (fun x => (x / l * k)%float) (snd c))
            cols (div_mul cols sel k).
Proof.
  induction cols as [|[s col] cols IH]; intros sel Hsel.
  - constructor.
  - change (map fst ((s, col) :: cols)) with (s :: map fst cols) in Hsel.
    apply loc_list_cons_inv in Hsel as (l & sel' & Hl & -> & Hsel').
    simpl. constructor; [|now apply IH]. simpl. eauto.
Qed.

Lemma getitem_Forall2 {V W} (P : string -> list V -> list W -> Prop) :
  forall (cols : list (string * list V)) (cols' : list (string * list W)),
    Forall2 (fun c c' => fst c' = fst c /\ P (fst c) (snd c) (snd c')) cols cols' ->
    forall s col, getitem cols s = Some col ->
                  exists col', getitem cols' s = Some col' /\ P s col col'.
Proof.
  induction 1 as [|[s1 c1] [s2 c2] cols cols' [Hl HP] _ IH]; intros s col Hget; simpl in *.
  - discriminate.
  - subst s2. destruct (String.eqb_spec s1 s) as [->|Hne].
    + injection Hget as <-. eauto.
    + now apply IH.
Qed.

(** With no covariates [norm_pileups] touches nothing outside its values. *)
Lemma norm_pileups_unfold Res pileups_df libsize_s id_map w sel :
  loc_list libsize_s (columns pileups_df) = Ok sel ->
  norm_pileups Res pileups_df libsize_s None id_map w =
    (w, Ok (rename_columns id_map
              (mkDataFrame (df_index pileups_df)
                           (div_mul (df_columns pileups_df) sel 1e6%float)))).
Proof.
  intros Hsel. unfold norm_pileups, bind, lift, ret. now rewrite Hsel.
Qed.

Lemma rename_id {V} (df : DataFrame string V) : rename_columns id df = df.
Proof.
  destruct df as [ix cols]. unfold rename_columns. simpl. f_equal.
  induction cols as [|[l c] cols IH]; simpl; [reflexivity|]. now rewrite IH.
Qed.

Lemma norm_pileups_identity Res pileups_df libsize_s w :
  (forall s, In s (columns pileups_df) -> is_Some (libsize_s !! s)) ->
  exists out,
    norm_pileups Res pileups_df libsize_s None id w = (w, Ok out)
    /\ df_index out = df_index pileups_df
    /\ Forall2 (fun c c' => fst c' = fst c /\
                            exists l, libsize_s !! fst c = Some l /\
                                      snd c' = map (fun x => (x / l * 1e6)%float) (snd c))
               (df_columns pileups_df) (df_columns out).
Proof.
  intros Hcov. destruct (loc_list_covered _ _ Hcov) as [sel Hsel].
  eexists. split; [|split].
  - rewrite (norm_pileups_unfold _ _ _ _ _ _ Hsel), rename_id. reflexivity.
  - reflexivity.
  - simpl. now apply div_mul_columns.
Qed.

Lemma Forall2_same_labels {V W} (Q : string * list V -> string * list W -> Prop) cols cols' :
  Forall2 (fun c c' => fst c' = fst c /\ Q c c') cols cols' ->
  map fst cols' = map fst cols.
Proof.
  induction 1 as [|c c' l l' [Hc _] _ IH]; simpl; [reflexivity|]. now rewrite Hc, IH.
Qed.

(** C1. For every table and every library-size Series that covers its
    columns, [norm_pileups] with the identity [id_map] and no covariates
    returns a table with the same index and columns in which the cell of
    sample [s] at position [p] is [table[s][p] / libsizes[s] * 1e6]; and the
    raw depths A=[10,20], B=[30,40] with library sizes A=1e6, B=2e6 become
    A=[10,20], B=[15,20]. *)
Theorem norm_pileups_rpm :
  (forall Res (pileups_df : DataFrame string float) (libsize_s : gmap string float) w,
      (forall s, In s (columns pileups_df) -> is_Some (libsize_s !! s)) ->
      exists out,
        norm_pileups Res pileups_df libsize_s None id w = (w, Ok out)
        /\ df_index out = df_index pileups_df
        /\ columns out = columns pileups_df
        /\ forall s col (p : nat) x,
             getitem (df_columns pileups_df) s = Some col -> col !! p = Some x ->
             exists l col',
               libsize_s !! s = Some l
               /\ getitem (df_columns out) s = Some col'
               /\ List.length col' = List.length col
               /\ col' !! p = Some (x / l * 1e6)%float)
  /\ (forall Res w,
        norm_pileups Res
          (mkDataFrame ["1"; "2"] [("A", [10; 20]%float); ("B", [30; 40]%float)])
          (<["A" := 1e6%float]> (<["B" := 2e6%float]> ∅)) None id w
        = (w, Ok (mkDataFrame ["1"; "2"] [("A", [10; 20]%float); ("B", [15; 20]%float)]))).
Proof.
  split.
  - intros Res pileups_df libsize_s w Hcov.
    destruct (norm_pileups_identity Res pileups_df libsize_s w Hcov)
      as (out & Hrun & Hix & Hcols).
    exists out. split; [exact Hrun|]. split; [exact Hix|]. split.
    + unfold columns. eapply Forall2_same_labels. exact Hcols.
    + intros s col p x Hget Hp.
      destruct (getitem_Forall2
                  (fun s v v' => exists l, libsize_s !! s = Some l
                                 /\ v' = map (fun x => (x / l * 1e6)%float) v)
                  _ _ Hcols s col Hget) as (col' & Hget' & l & Hl & Hcol').
      exists l, col'. subst col'. repeat split; try assumption.
      * now rewrite length_map.
      * rewrite list_lookup_fmap, Hp. reflexivity.
  - intros Res w. rewrite (norm_pileups_unfold _ _ _ _ _ [1e6; 2e6]%float).
    + rewrite rename_id. vm_compute. reflexivity.
    + vm_compute. reflexivity.
Qed.

Lemma norm_pileups_rpm_witness :
  exists out,
    norm_pileups (fun _ d => Ok d)
      (mkDataFrame ["1"] [("A", [7]%float)]) (<["A" := 2e6%float]> ∅) None id
      (mkWorld ["home"] [])
    = (mkWorld ["home"] [], Ok out)
    /\ df_index out = ["1"]
    /\ columns out = ["A"]
    /\ forall s col (p : nat) x,
         getitem [("A", [7]%float)] s = Some col -> col !! p = Some x ->
         exists l col',
           (<["A" := 2e6%float]> ∅ : gmap string float) !! s = Some l
           /\ getitem (df_columns out) s = Some col'
           /\ List.length col' = List.length col
           /\ col' !! p = Some (x / l * 1e6)%float.
Proof.
  apply (proj1 norm_pileups_rpm (fun _ d => Ok d)
           (mkDataFrame ["1"] [("A", [7]%float)]) (<["A" := 2e6%float]> ∅)
           (mkWorld ["home"] [])).
  intros s [<-|[]]. exists 2e6%float. vm_compute. reflexivity.
Defined.

(** A second run of [norm_pileups] on its own output divides by the library
    size and multiplies by a million once more. *)
Lemma Forall2_compose_scale (libsize_s : gmap string float) cols cols1 cols2 :
  Forall2 (fun c c' => fst c' = fst c /\
                       exists l, libsize_s !! fst c = Some l /\
                                 snd c' = map (fun x => (x / l * 1e6)%float) (snd c))
          cols cols1 ->
  Forall2 (fun c c' => fst c' = fst c /\
                       exists l, libsize_s !! fst c = Some l /\
                                 snd c' = map (fun x => (x / l * 1e6)%float) (snd c))
          cols1 cols2 ->
  Forall2 (fun c c' => fst c' = fst c /\
                       exists l, libsize_s !! fst c = Some l /\
                                 snd c' = map (fun x => (x / l * 1e6 / l * 1e6)%float) (snd c))
          cols cols2.
Proof.
  intros H1. revert cols2.
  induction H1 as [|c c1 l l1 [Hl (v & Hv & Hs)] _ IH]; intros cols2 H2.
  - inversion H2. constructor.
  - inversion H2 as [|? c2 ? l2 [Hl2 (v2 & Hv2 & Hs2)] Hrest]; subst.
    constructor; [|now apply IH].
    split; [congruence|]. exists v. split; [exact Hv|].
    rewrite Hl, Hv in Hv2. injection Hv2 as <-.
    rewrite Hs2, Hs, map_map. reflexivity.
Qed.

(** C7, as the code has it. For every table and every library-size Series
    that covers its columns, normalising the output of [norm_pileups] again
    (identity [id_map], no covariates) succeeds and rescales each column a
    second time: the cell of sample [s] at position [p] becomes
    [table[s][p] / libsizes[s] * 1e6 / libsizes[s] * 1e6]. *)
Theorem norm_pileups_twice Res (pileups_df : DataFrame string float)
    (libsize_s : gmap string float) w :
  (forall s, In s (columns pileups_df) -> is_Some (libsize_s !! s)) ->
  exists once twice,
    norm_pileups Res pileups_df libsize_s None id w = (w, Ok once)
    /\ norm_pileups Res once libsize_s None id w = (w, Ok twice)
    /\ df_index twice = df_index pileups_df
    /\ columns twice = columns pileups_df
    /\ forall s col (p : nat) x,
         getitem (df_columns pileups_df) s = Some col -> col !! p = Some x ->
         exists l col',
           libsize_s !! s = Some l
           /\ getitem (df_columns twice) s = Some col'
           /\ col' !! p = Some (x / l * 1e6 / l * 1e6)%float.
Proof.
  intros Hcov.
  destruct (norm_pileups_identity Res pileups_df libsize_s w Hcov)
    as (once & Hrun1 & Hix1 & Hcols1).
  assert (Hlab : columns once = columns pileups_df)
    by (unfold columns; eapply Forall2_same_labels; exact Hcols1).
  assert (Hcov1 : forall s, In s (columns once) -> is_Some (libsize_s !! s))
    by (rewrite Hlab; exact Hcov).
  destruct (norm_pileups_identity Res once libsize_s w Hcov1)
    as (twice & Hrun2 & Hix2 & Hcols2).
  pose proof (Forall2_compose_scale _ _ _ _ Hcols1 Hcols2) as Hcols.
  exists once, twice. split; [exact Hrun1|]. split; [exact Hrun2|].
  split; [congruence|]. split.
  - unfold columns. eapply Forall2_same_labels. exact Hcols.
  - intros s col p x Hget Hp.
    destruct (getitem_Forall2
                (fun s v v' => exists l, libsize_s !! s = Some l
                               /\ v' = map (fun x => (x / l * 1e6 / l * 1e6)%float) v)
                _ _ Hcols s col Hget) as (col' & Hget' & l & Hl & Hcol').
    exists l, col'. subst col'. repeat split; try assumption.
    rewrite list_lookup_fmap, Hp. reflexivity.
Qed.

Lemma norm_pileups_twice_witness :
  exists once twice,
    norm_pileups (fun _ d => Ok d)
      (mkDataFrame ["1"] [("A", [10]%float)]) (<["A" := 2e6%float]> ∅) None id
      (mkWorld ["home"] []) = (mkWorld ["home"] [], Ok once)
    /\ norm_pileups (fun _ d => Ok d) once (<["A" := 2e6%float]> ∅) None id
         (mkWorld ["home"] []) = (mkWorld ["home"] [], Ok twice)
    /\ df_index twice = ["1"]
    /\ columns twice = ["A"]
    /\ forall s col (p : nat) x,
         getitem [("A", [10]%float)] s = Some col -> col !! p = Some x ->
         exists l col',
           (<["A" := 2e6%float]> ∅ : gmap string float) !! s = Some l
           /\ getitem (df_columns twice) s = Some col'
           /\ col' !! p = Some (x / l * 1e6 / l * 1e6)%float.
Proof.
  apply (norm_pileups_twice (fun _ d => Ok d)
           (mkDataFrame ["1"] [("A", [10]%float)]) (<["A" := 2e6%float]> ∅)
           (mkWorld ["home"] [])).
  intros s [<-|[]]. exists 2e6%float. vm_compute. reflexivity.
Defined.

(** C7 as stated fails: with one sample of depth 10 and library size 2e6
    the first run gives 5 and the second run, on that output, gives 2.5. *)
Lemma norm_pileups_not_idempotent :
  norm_pileups (fun _ d => Ok d)
    (mkDataFrame ["1"] [("A", [10]%float)]) (<["A" := 2e6%float]> ∅) None id
    (mkWorld ["home"] [])
  = (mkWorld ["home"] [], Ok (mkDataFrame ["1"] [("A", [5]%float)]))
  /\ norm_pileups (fun _ d => Ok d)
       (mkDataFrame ["1"] [("A", [5]%float)]) (<["A" := 2e6%float]> ∅) None id
       (mkWorld ["home"] [])
     = (mkWorld ["home"] [], Ok (mkDataFrame ["1"] [("A", [2.5]%float)]))
  /\ mkDataFrame ["1"] [("A", [2.5]%float)] <> mkDataFrame ["1"] [("A", [5]%float)].
Proof.
  split; [|split].
  - rewrite (norm_pileups_unfold _ _ _ _ _ [2e6]%float); [|vm_compute; reflexivity].
    rewrite rename_id. vm_compute. reflexivity.
  - rewrite (norm_pileups_unfold _ _ _ _ _ [2e6]%float); [|vm_compute; reflexivity].
    rewrite rename_id. vm_compute. reflexivity.
  - intros H.
    apply (f_equal (fun d => match df_columns d with
                             | (_, x :: _) :: _ => (x =? 5)%float
                             | _ => true
                             end)) in H.
    vm_compute in H. discriminate H.
Qed.

(** ** Grouping by dosage *)

Lemma insert_unique_In x l y : In y (insert_unique x l) <-> y = x \/ In y l.
Proof.
  induction l as [|z l IH]; simpl.
  - intuition.
  - destruct (Z.ltb_spec x z); [simpl; intuition|].
    destruct (Z.eqb_spec x z); simpl; [subst; intuition|].
    rewrite IH. intuition.
Qed.

Lemma insert_unique_sorted x l :
  StronglySorted Z.lt l -> StronglySorted Z.lt (insert_unique x l).
Proof.
  induction 1 as [|z l Hs IH Hz]; simpl.
  - repeat constructor.
  - destruct (Z.ltb_spec x z) as [Hlt|Hge].
    + constructor; [constructor; assumption|].
      constructor; [exact Hlt|].
      eapply Forall_impl; [exact Hz|]. intros a Ha. simpl in Ha. lia.
    + destruct (Z.eqb_spec x z) as [Heq|Hne].
      * constructor; assumption.
      * constructor; [exact IH|].
        apply List.Forall_forall. intros a Ha. apply insert_unique_In in Ha.
        destruct Ha as [->|Ha]; [lia|].
        rewrite List.Forall_forall in Hz. now apply Hz.
Qed.

Lemma np_unique_In l y : In y (np_unique l) <-> In y l.
Proof.
  induction l as [|x l IH]; simpl; [reflexivity|].
  rewrite insert_unique_In, IH. intuition.
Qed.

Lemma np_unique_sorted l : StronglySorted Z.lt (np_unique l).
Proof.
  induction l as [|x l IH]; simpl; [constructor|]. now apply insert_unique_sorted.
Qed.

Lemma notnull_values_In (g : Dosages) i :
  In i (notnull_values g) <-> exists s, In (s, Some i) g.
Proof.
  unfold notnull_values. rewrite in_flat_map. split.
  - intros ([s [v|]] & Hin & Hv); simpl in Hv; [|contradiction].
    destruct Hv as [->|[]]. eauto.
  - intros (s & Hin). exists (s, Some i). split; [exact Hin|]. simpl. now left.
Qed.

Lemma index_where_eq_In (g : Dosages) i s :
  In s (index_where_eq g i) <-> In (s, Some i) g.
Proof.
  unfold index_where_eq. rewrite in_map_iff. split.
  - intros ([s' [v|]] & <- & Hin); apply filter_In in Hin as [Hin Hv]; simpl in *.
    + apply Z.eqb_eq in Hv. now subst.
    + discriminate.
  - intros Hin. exists (s, Some i). split; [reflexivity|].
    apply filter_In. split; [exact Hin|]. simpl. apply Z.eqb_refl.
Qed.

Lemma columns_labelled_In {V} (cols : list (string * list V)) l c :
  In c (columns_labelled cols l) <-> In c cols /\ fst c = l.
Proof.
  unfold columns_labelled. rewrite filter_In, String.eqb_eq. reflexivity.
Qed.

(** Selecting labels that are all columns succeeds and takes, label by
    label, the columns that carry it. *)
Lemma select_columns_ok {V} (cols : list (string * list V)) labels :
  (forall l, In l labels -> In l (map fst cols)) ->
  select_columns cols labels = Ok (flat_map (columns_labelled cols) labels).
Proof.
  intros Hin. apply loc_labels_ok. intros l Hl Hnil.
  destruct (proj1 (in_map_iff _ _ _) (Hin l Hl)) as (c & Hc & Hcin).
  assert (H : In c (columns_labelled cols l)) by now apply columns_labelled_In.
  rewrite Hnil in H. exact H.
Qed.

(** A dosage Series whose non-missing samples are all columns of the table
    is averaged without error, one Series per requested dosage. *)
Lemma group_means_ok Sum (rpm : DataFrame string float) (g : Dosages) cols :
  (forall s i, In (s, Some i) g -> In s (columns rpm)) ->
  group_means Sum rpm g cols =
    Ok (map (fun i => (i, mean_axis1 Sum (List.length (df_index rpm))
                            (flat_map (columns_labelled (df_columns rpm))
                                      (index_where_eq g i)))) cols).
Proof.
  intros Hsub. induction cols as [|i cols IH]; simpl; [reflexivity|].
  rewrite select_columns_ok.
  - simpl. rewrite IH. reflexivity.
  - intros l Hl. apply index_where_eq_In in Hl. eapply Hsub. exact Hl.
Qed.

Lemma mean_axis1_lookup Sum n cols (p : nat) :
  p < n -> mean_axis1 Sum n cols !! p = Some (nanmean Sum n (row_at cols p)).
Proof.
  intros Hp. unfold mean_axis1. rewrite list_lookup_fmap.
  rewrite lookup_seq_lt by exact Hp. reflexivity.
Qed.

Lemma group_pileups_series Res Gt Sum pileups_df libsize_s variant_id g cov id_map w w' rpm :
  norm_pileups Res pileups_df libsize_s cov id_map w = (w', Ok rpm) ->
  group_pileups Res Gt Sum pileups_df libsize_s variant_id (GSeries g) cov id_map w
  = (w', average_by_genotype Sum rpm g).
Proof.
  intros Hnorm. unfold group_pileups, bind. rewrite Hnorm. reflexivity.
Qed.

Lemma average_by_genotype_ok Sum (rpm : DataFrame string float) (g : Dosages) :
  (forall s i, In (s, Some i) g -> In s (columns rpm)) ->
  (exists s i, In (s, Some i) g) ->
  average_by_genotype Sum rpm g =
    Ok (mkDataFrame (df_index rpm)
          (map (fun i => (i, mean_axis1 Sum (List.length (df_index rpm))
                                (flat_map (columns_labelled (df_columns rpm))
                                          (index_where_eq g i))))
               (np_unique (notnull_values g)))).
Proof.
  intros Hsub (s & i & Hin). unfold average_by_genotype.
  rewrite group_means_ok by exact Hsub. simpl.
  assert (Hi : In i (np_unique (notnull_values g)))
    by (apply np_unique_In, notnull_values_In; eauto).
  destruct (np_unique (notnull_values g)); [contradiction|]. reflexivity.
Qed.

(** The member columns of a dosage, entry by entry of the Series. *)
Lemma members_by_entry {V} (cols : list (string * list V)) (g : Dosages) i :
  flat_map (columns_labelled cols) (index_where_eq g i)
  = flat_map (fun e => match snd e with
                       | Some j =>
                           if (j =? i)%Z
                           then List.filter (fun c => String.eqb (fst c) (fst e)) cols
                           else []
                       | None => []
                       end) g.
Proof.
  unfold index_where_eq, columns_labelled.
  induction g as [|[s [j|]] g IH]; simpl; [reflexivity| |exact IH].
  destruct (j =? i)%Z; simpl; [now rewrite IH|exact IH].
Qed.

(** In a frame, where every column has one cell per row, row [p] holds
    cell [p] of every column. *)
Lemma row_at_cells (cols : list (string * list float)) n (p : nat) :
  Forall (fun c => List.length (snd c) = n) cols -> p < n ->
  Forall2 (fun c x => snd c !! p = Some x) cols (row_at cols p).
Proof.
  intros Hlen Hp. unfold row_at.
  induction Hlen as [|c cols Hc _ IH]; simpl; constructor; [|exact IH].
  destruct (lookup_lt_is_Some_2 (snd c) p) as [x Hx]; [lia|].
  rewrite (nth_lookup_Some _ _ nan _ Hx). exact Hx.
Qed.

(** *** Sums whatever the order of the additions *)

Lemma float_sum_nil_inv s : float_sum [] s -> s = 0%float.
Proof.
  intros H. remember [] as l eqn:El.
  induction H as [|x|l l1 l2 a b Hp _ IH1 _ IH2]; [reflexivity|discriminate|].
  subst l. apply Permutation_nil in Hp. apply app_eq_nil in Hp as [-> ->].
  rewrite IH1, IH2 by reflexivity. reflexivity.
Qed.

(** A single number that is its own sum with zero: every sum of it is the
    number. *)
Lemma float_sum_one_inv x s :
  (x + 0 = x)%float -> (0 + x = x)%float -> float_sum [x] s -> s = x.
Proof.
  intros Hr Hl H. remember [x] as l eqn:El.
  induction H as [|y|l l1 l2 a b Hp H1 IH1 H2 IH2]; [discriminate|congruence|].
  subst l. apply Permutation_length_1_inv in Hp.
  destruct l1 as [|u l1]; simpl in Hp.
  - subst l2. apply float_sum_nil_inv in H1. subst a. rewrite IH2 by reflexivity. exact Hl.
  - injection Hp as -> Hp. apply app_eq_nil in Hp as [-> ->].
    apply float_sum_nil_inv in H2. subst b. rewrite IH1 by reflexivity. exact Hr.
Qed.

(** Two numbers: every sum of them is [x + y], once adding zero changes
    neither them nor their sum and the two orders give the same. *)
Lemma float_sum_two_inv x y s :
  (x + 0 = x)%float -> (0 + x = x)%float ->
  (y + 0 = y)%float -> (0 + y = y)%float ->
  (x + y + 0 = x + y)%float -> (0 + (x + y) = x + y)%float ->
  (y + x = x + y)%float ->
  float_sum [x; y] s -> s = (x + y)%float.
Proof.
  intros Hx0 H0x Hy0 H0y Hs0 H0s Hc H.
  assert (Hgen : forall l, float_sum l s -> Permutation l [x; y] -> s = (x + y)%float).
  { clear H. intros l H. induction H as [|z|l l1 l2 a b Hp H1 IH1 H2 IH2]; intros Hl.
    - apply Permutation_nil in Hl. discriminate.
    - apply Permutation_length in Hl. discriminate.
    - assert (Hp' : Permutation (l1 ++ l2) [x; y])
        by (etransitivity; [symmetry; exact Hp|exact Hl]).
      destruct l1 as [|u [|v l1]]; simpl in Hp'.
      + apply float_sum_nil_inv in H1. subst a. rewrite (IH2 Hp'). exact H0s.
      + destruct l2 as [|v [|? ?]];
          try (apply Permutation_length in Hp'; simpl in Hp'; discriminate).
        apply Permutation_length_2_inv in Hp' as [Hp'|Hp']; injection Hp' as -> ->.
        * apply (float_sum_one_inv _ _ Hx0 H0x) in H1.
          apply (float_sum_one_inv _ _ Hy0 H0y) in H2. now subst.
        * apply (float_sum_one_inv _ _ Hy0 H0y) in H1.
          apply (float_sum_one_inv _ _ Hx0 H0x) in H2. subst. exact Hc.
      + destruct l1 as [|? ?]; [|apply Permutation_length in Hp'; simpl in Hp';
                                  rewrite length_app in Hp'; simpl in Hp'; lia].
        destruct l2 as [|? ?]; [|apply Permutation_length in Hp'; simpl in Hp'; lia].
        apply float_sum_nil_inv in H2. subst b.
        rewrite (IH1 Hp'). exact Hs0. }
  apply (Hgen _ H). reflexivity.
Qed.

(** The cells added one after the other are one of the sums. *)
Lemma sequential_sum_sums_cells : sums_cells sequential_sum.
Proof.
  intros lanes cells. unfold sequential_sum.
  assert (Hgen : forall xs pre acc,
            float_sum pre acc ->
            float_sum (pre ++ not_nan xs)
              (fold_left (fun acc x => if PrimFloat.is_nan x then acc else (acc + x)%float)
                         xs acc)).
  { induction xs as [|x xs IH]; intros pre acc Hacc; simpl.
    - now rewrite app_nil_r.
    - unfold not_nan. simpl. destruct (PrimFloat.is_nan x); simpl.
      + apply IH. exact Hacc.
      + change (pre ++ x :: List.filter (fun x0 => negb (PrimFloat.is_nan x0)) xs)
          with (pre ++ [x] ++ not_nan xs).
        rewrite app_assoc. apply IH.
        eapply float_sum_add; [reflexivity|exact Hacc|constructor]. }
  apply (Hgen cells [] 0%float). constructor.
Qed.

(** Cells that have one sum only: that is what the library computes. *)
Lemma np_sum_exact Sum lanes (xs : list float) (s : float) :
  sums_cells Sum ->
  (forall s', float_sum (not_nan xs) s' -> s' = s) ->
  Sum lanes xs = s.
Proof. intros HSum Huniq. apply Huniq, HSum. Qed.

Ltac known_sum HSum :=
  match goal with
  | |- ?Sum ?n [?x] = ?v =>
      apply (np_sum_exact Sum n [x] v HSum); intros s' Hs';
      apply (float_sum_one_inv x); [reflexivity|reflexivity|exact Hs']
  | |- ?Sum ?n [?x; ?y] = ?v =>
      apply (np_sum_exact Sum n [x; y] v HSum); intros s' Hs';
      apply (float_sum_two_inv x y); try reflexivity; exact Hs'
  end.

(** C2, as the code has it. When the dosage Series has a non-missing
    dosage and each of its samples with one is a column of the normalised
    table, [group_pileups] returns a table with one column per distinct
    non-missing dosage, the labels strictly ascending. The members of the
    column of dosage [i] are the columns of the samples whose dosage is [i];
    a sample whose dosage is missing is a member of no group. At every
    position the column holds pandas' mean of the members' cells: a float64
    sum of the cells that are not NaN, in the order the library adds them,
    over their number, and NaN when there is no such cell. Whatever that
    order, the dosages A:0, B:1, C:1 with normalised profiles A=[2,2],
    B=[4,4], C=[6,6] give 0:[2,2], 1:[5,5]. *)
Theorem group_pileups_by_dosage :
  (forall Res Gt Sum (pileups_df : DataFrame string float) libsize_s variant_id
          (g : Dosages) cov id_map w w' rpm,
      sums_cells Sum ->
      norm_pileups Res pileups_df libsize_s cov id_map w = (w', Ok rpm) ->
      Forall (fun c => List.length (snd c) = List.length (df_index rpm)) (df_columns rpm) ->
      (forall s i, In (s, Some i) g -> In s (columns rpm)) ->
      (exists s i, In (s, Some i) g) ->
      exists out,
        group_pileups Res Gt Sum pileups_df libsize_s variant_id (GSeries g) cov id_map w
        = (w', Ok out)
        /\ df_index out = df_index rpm
        /\ StronglySorted Z.lt (columns out)
        /\ (forall i, In i (columns out) <-> exists s, In (s, Some i) g)
        /\ forall i vals, In (i, vals) (df_columns out) ->
             exists members,
               members
               = flat_map (fun e => match snd e with
                                    | Some j =>
                                        if (j =? i)%Z
                                        then List.filter (fun c => String.eqb (fst c) (fst e))
                                                         (df_columns rpm)
                                        else []
                                    | None => []
                                    end) g
               /\ (forall c, In c members <-> In c (df_columns rpm) /\ In (fst c, Some i) g)
               /\ (forall s, (forall j, ~ In (s, Some j) g) -> ~ In s (map fst members))
               /\ List.length vals = List.length (df_index rpm)
               /\ forall p : nat, p < List.length (df_index rpm) ->
                    exists cells,
                      Forall2 (fun c x => snd c !! p = Some x) members cells
                      /\ float_sum (List.filter (fun x => negb (PrimFloat.is_nan x)) cells)
                                   (Sum (List.length (df_index rpm)) cells)
                      /\ vals !! p
                         = Some
                             (if Nat.eqb
                                   (List.length
                                      (List.filter (fun x => negb (PrimFloat.is_nan x)) cells))
                                   0
                              then nan
                              else (Sum (List.length (df_index rpm)) cells
                                    / float_of_nat
                                        (List.length
                                           (List.filter (fun x => negb (PrimFloat.is_nan x))
                                                        cells)))%float))
  /\ (forall Res Gt Sum w,
        sums_cells Sum ->
        group_pileups Res Gt Sum
          (mkDataFrame ["1"; "2"]
             [("A", [2; 2]%float); ("B", [4; 4]%float); ("C", [6; 6]%float)])
          (<["A" := 1e6%float]> (<["B" := 1e6%float]> (<["C" := 1e6%float]> ∅)))
          "chr1_100_A_G_b38"
          (GSeries [("A", Some 0%Z); ("B", Some 1%Z); ("C", Some 1%Z)]) None id w
        = (w, Ok (mkDataFrame ["1"; "2"] [(0%Z, [2; 2]%float); (1%Z, [5; 5]%float)]))).
Proof.
  split.
  - intros Res Gt Sum pileups_df libsize_s variant_id g cov id_map w w' rpm
           HSum Hnorm Hframe Hsub Hne.
    eexists. split.
    { rewrite (group_pileups_series _ _ _ _ _ _ _ _ _ _ _ _ Hnorm).
      rewrite (average_by_genotype_ok _ _ _ Hsub Hne). reflexivity. }
    unfold columns. simpl. rewrite map_map. simpl. rewrite map_id.
    split; [reflexivity|]. split; [apply np_unique_sorted|]. split.
    { intros i. rewrite np_unique_In. apply notnull_values_In. }
    intros i vals Hin. apply in_map_iff in Hin as (i' & [= -> <-] & _).
    rewrite members_by_entry.
    eexists. split; [reflexivity|].
    rewrite <- members_by_entry.
    assert (Hmem : forall c, In c (flat_map (columns_labelled (df_columns rpm))
                                            (index_where_eq g i))
                             <-> In c (df_columns rpm) /\ In (fst c, Some i) g).
    { intros c. rewrite in_flat_map. split.
      - intros (l & Hl & Hc). apply columns_labelled_In in Hc as [Hc <-].
        apply index_where_eq_In in Hl. now split.
      - intros [Hc Hg]. exists (fst c). split; [now apply index_where_eq_In|].
        now apply columns_labelled_In. }
    split; [exact Hmem|]. split; [|split].
    + intros s Hmiss Hs. apply in_map_iff in Hs as (c & <- & Hc).
      apply Hmem in Hc as [_ Hc]. exact (Hmiss _ Hc).
    + unfold mean_axis1. now rewrite length_map, length_seq.
    + intros p Hp. exists (row_at (flat_map (columns_labelled (df_columns rpm))
                                            (index_where_eq g i)) p).
      split; [|split].
      * apply (row_at_cells _ (List.length (df_index rpm))); [|exact Hp].
        apply List.Forall_forall. intros c Hc. apply Hmem in Hc as [Hc _].
        exact (proj1 (List.Forall_forall _ _) Hframe c Hc).
      * apply HSum.
      * rewrite mean_axis1_lookup by exact Hp. reflexivity.
  - intros Res Gt Sum w HSum.
    rewrite (group_pileups_series _ _ _ _ _ _ _ _ _ w w
               (mkDataFrame ["1"; "2"]
                  [("A", [2; 2]%float); ("B", [4; 4]%float); ("C", [6; 6]%float)])).
    + assert (HA : Sum 2 [2%float] = 2%float).
      { apply (np_sum_exact Sum 2 [2%float] 2%float HSum). intros s' Hs'.
        apply (float_sum_one_inv 2%float); [reflexivity|reflexivity|exact Hs']. }
      assert (HB : Sum 2 [4%float; 6%float] = 10%float).
      { apply (np_sum_exact Sum 2 [4%float; 6%float] 10%float HSum). intros s' Hs'.
        apply (float_sum_two_inv 4%float 6%float); try reflexivity. exact Hs'. }
      unfold average_by_genotype, group_means, np_unique, notnull_values, select_columns,
        loc_labels, index_where_eq, columns_labelled, mean_axis1, nanmean, nancount,
        not_nan, row_at, concat_axis1.
      cbn -[PrimFloat.div PrimFloat.is_nan float_of_nat].
      rewrite HA, HB. vm_compute. reflexivity.
    + rewrite (norm_pileups_unfold _ _ _ _ _ [1e6; 1e6; 1e6]%float); [|vm_compute; reflexivity].
      rewrite rename_id. vm_compute. reflexivity.
Qed.

Lemma group_pileups_by_dosage_witness :
  exists out,
    group_pileups (fun _ d => Ok d) (fun _ _ => Ok []) sequential_sum
      (mkDataFrame ["1"] [("A", [3]%float); ("B", [5]%float); ("C", [9]%float)])
      (<["A" := 1e6%float]> (<["B" := 1e6%float]> (<["C" := 1e6%float]> ∅)))
      "chr1_100_A_G_b38" (GSeries [("A", Some 0%Z); ("B", None); ("C", Some 0%Z)])
      None id (mkWorld ["home"] [])
    = (mkWorld ["home"] [], Ok out)
    /\ df_index out = ["1"].
Proof.
  destruct (proj1 group_pileups_by_dosage (fun _ d => Ok d) (fun _ _ => Ok []) sequential_sum
              (mkDataFrame ["1"] [("A", [3]%float); ("B", [5]%float); ("C", [9]%float)])
              (<["A" := 1e6%float]> (<["B" := 1e6%float]> (<["C" := 1e6%float]> ∅)))
              "chr1_100_A_G_b38" [("A", Some 0%Z); ("B", None); ("C", Some 0%Z)]
              None id (mkWorld ["home"] []) (mkWorld ["home"] [])
              (mkDataFrame ["1"] [("A", [3]%float); ("B", [5]%float); ("C", [9]%float)]))
    as (out & Hrun & Hix & _).
  - exact sequential_sum_sums_cells.
  - rewrite (norm_pileups_unfold _ _ _ _ _ [1e6; 1e6; 1e6]%float); [|vm_compute; reflexivity].
    rewrite rename_id. vm_compute. reflexivity.
  - repeat constructor.
  - intros s i [[= <- <-]|[[=]|[[= <- <-]|[]]]]; simpl; auto.
  - exists "A", 0%Z. now left.
  - exists out. split; [exact Hrun|exact Hix].
Defined.

(** C2 as stated fails: not every dosage mapping is grouped. A Series in
    which every dosage is missing has no distinct dosage, and the call
    raises [ValueError] instead of returning a table without columns; a
    Series that gives a dosage to a sample the table does not have raises
    [KeyError], although its distinct dosages are 0 and 1. *)
Lemma group_pileups_not_every_dosage_mapping :
  group_pileups (fun _ d => Ok d) (fun _ _ => Ok []) sequential_sum
    (mkDataFrame ["1"; "2"] [("A", [2; 2]%float); ("B", [4; 4]%float)])
    (<["A" := 1e6%float]> (<["B" := 1e6%float]> ∅))
    "chr1_100_A_G_b38" (GSeries [("A", None); ("B", None)]) None id (mkWorld ["home"] [])
  = (mkWorld ["home"] [], Raise (ValueError "No objects to concatenate"))
  /\ group_pileups (fun _ d => Ok d) (fun _ _ => Ok []) sequential_sum
       (mkDataFrame ["1"; "2"] [("A", [2; 2]%float); ("B", [4; 4]%float)])
       (<["A" := 1e6%float]> (<["B" := 1e6%float]> ∅))
       "chr1_100_A_G_b38" (GSeries [("A", Some 0%Z); ("Z", Some 1%Z)]) None id
       (mkWorld ["home"] [])
     = (mkWorld ["home"] [], Raise (KeyError ["Z"])).
Proof.
  split.
  - rewrite (group_pileups_series _ _ _ _ _ _ _ _ _ _ (mkWorld ["home"] [])
               (mkDataFrame ["1"; "2"] [("A", [2; 2]%float); ("B", [4; 4]%float)])).
    + reflexivity.
    + rewrite (norm_pileups_unfold _ _ _ _ _ [1e6; 1e6]%float); [|vm_compute; reflexivity].
      rewrite rename_id. vm_compute. reflexivity.
  - rewrite (group_pileups_series _ _ _ _ _ _ _ _ _ _ (mkWorld ["home"] [])
               (mkDataFrame ["1"; "2"] [("A", [2; 2]%float); ("B", [4; 4]%float)])).
    + vm_compute. reflexivity.
    + rewrite (norm_pileups_unfold _ _ _ _ _ [1e6; 1e6]%float); [|vm_compute; reflexivity].
      rewrite rename_id. vm_compute. reflexivity.
Qed.

(** With an all-missing dosage Series there is nothing to concatenate. *)
Lemma average_by_genotype_all_missing Sum (rpm : DataFrame string float) (g : Dosages) :
  (forall s i, ~ In (s, Some i) g) ->
  average_by_genotype Sum rpm g = Raise (ValueError "No objects to concatenate").
Proof.
  intros Hmiss. unfold average_by_genotype.
  destruct (np_unique (notnull_values g)) as [|i cols] eqn:Hcols; [reflexivity|].
  exfalso. assert (Hi : In i (np_unique (notnull_values g))) by (rewrite Hcols; now left).
  apply np_unique_In, notnull_values_In in Hi as (s & Hs). exact (Hmiss _ _ Hs).
Qed.

(** ** The working directory around the external call *)

Section WorkingDirectory.

Variable isdir : list string -> bool.
Variable shell : string -> list string -> result string.

(** The rest of the wrapper after the external call: parsing touches
    nothing outside its values. *)
Lemma wrapper_unfold (t : Task) (w : World) :
  _samtools_depth_wrapper isdir shell t w =
    match (match bam_index_dir t with
           | Some d => with_ (cd isdir d) (check_output shell (samtools_cmd t))
           | None => check_output shell (samtools_cmd t)
           end) w with
    | (w', Ok out) =>
        (w', let? rows := parse_depth_lines (sample_id t) (split_on "010"%char (strip out)) in
             Ok (mkSeries (sample_id t) (map fst rows) (map snd rows)))
    | (w', Raise e) => (w', Raise e)
    end.
Proof.
  unfold _samtools_depth_wrapper, bind, lift, ret.
  set (call := match bam_index_dir t with
               | Some d => with_ (cd isdir d) (check_output shell (samtools_cmd t))
               | None => check_output shell (samtools_cmd t)
               end).
  destruct (call w) as [w' [out|e]]; [|reflexivity].
  destruct (parse_depth_lines _ _); reflexivity.
Qed.

(** Without an index directory the wrapper calls [os.chdir] not once: the
    only thing it leaves behind is the shell command, run where the process
    already was. *)
Lemma wrapper_no_index_dir (t : Task) (w : World) :
  bam_index_dir t = None ->
  fst (_samtools_depth_wrapper isdir shell t w)
  = mkWorld (cwd w) (trace w ++ [EvShell (samtools_cmd t) (cwd w)]).
Proof.
  intros Hnone. rewrite wrapper_unfold, Hnone. unfold check_output.
  destruct (shell _ _); reflexivity.
Qed.

(** With an index directory, when the external call succeeds: the call ran
    in that directory and the previous directory is the working directory
    again afterwards. *)
Lemma wrapper_index_dir_success (t : Task) (w : World) d out :
  bam_index_dir t = Some d ->
  isdir (resolve (cwd w) d) = true ->
  isdir (cwd w) = true ->
  shell (samtools_cmd t) (resolve (cwd w) d) = Ok out ->
  fst (_samtools_depth_wrapper isdir shell t w)
  = mkWorld (cwd w)
      (trace w ++ [EvChdir (resolve (cwd w) d)]
               ++ [EvShell (samtools_cmd t) (resolve (cwd w) d)]
               ++ [EvChdir (cwd w)]).
Proof.
  intros Hd Hdir Hback Hout. rewrite wrapper_unfold, Hd.
  unfold with_, cd, before_yield, after_yield, bind, ret, os_getcwd, os_chdir, check_output.
  simpl. rewrite Hdir. simpl. rewrite Hout, Hback. simpl.
  rewrite <- !app_assoc. reflexivity.
Qed.

(** With an index directory, when the external call fails: the exception
    leaves [cd] at its [yield], and the working directory stays the index
    directory. *)
Lemma wrapper_index_dir_failure (t : Task) (w : World) d e :
  bam_index_dir t = Some d ->
  isdir (resolve (cwd w) d) = true ->
  shell (samtools_cmd t) (resolve (cwd w) d) = Raise e ->
  _samtools_depth_wrapper isdir shell t w
  = (mkWorld (resolve (cwd w) d)
       (trace w ++ [EvChdir (resolve (cwd w) d)]
                ++ [EvShell (samtools_cmd t) (resolve (cwd w) d)]),
     Raise e).
Proof.
  intros Hd Hdir Hout. rewrite wrapper_unfold, Hd.
  unfold with_, cd, before_yield, after_yield, bind, ret, os_getcwd, os_chdir, check_output.
  simpl. rewrite Hdir. simpl. rewrite Hout.
  rewrite <- !app_assoc. reflexivity.
Qed.

(** Whenever the wrapper returns, the working directory is the one it
    started from. *)
Lemma wrapper_ok_restores (t : Task) (w : World) r :
  snd (_samtools_depth_wrapper isdir shell t w) = Ok r ->
  cwd (fst (_samtools_depth_wrapper isdir shell t w)) = cwd w.
Proof.
  rewrite wrapper_unfold. destruct (bam_index_dir t) as [d|].
  - unfold with_, cd, before_yield, after_yield, bind, ret, os_getcwd, os_chdir, check_output.
    simpl. destruct (isdir (resolve (cwd w) d)); simpl; [|discriminate].
    destruct (shell _ _); simpl; [|discriminate].
    destruct (isdir (cwd w)); simpl; [reflexivity|discriminate].
  - unfold check_output. destruct (shell _ _); simpl; [reflexivity|discriminate].
Qed.

(** What the wrapper returns depends on the process state only through the
    working directory. *)
Lemma wrapper_result_cwd (t : Task) (w1 w2 : World) :
  cwd w1 = cwd w2 ->
  snd (_samtools_depth_wrapper isdir shell t w1)
  = snd (_samtools_depth_wrapper isdir shell t w2).
Proof.
  intros Hcwd. rewrite !wrapper_unfold. destruct (bam_index_dir t) as [d|].
  - unfold with_, cd, before_yield, after_yield, bind, ret, os_getcwd, os_chdir, check_output.
    simpl. rewrite Hcwd. destruct (isdir (resolve (cwd w2) d)); simpl; [|reflexivity].
    destruct (shell _ _); simpl; [|reflexivity].
    destruct (isdir (cwd w2)); simpl; reflexivity.
  - unfold check_output. rewrite Hcwd. destruct (shell _ _); reflexivity.
Qed.

End WorkingDirectory.

(** C3, at a failing call. The index directory [/data/idx] exists, the
    process is in [/home/u] and [samtools] exits with status 1: the wrapper
    raises [CalledProcessError] and leaves the process in [/data/idx]; the
    only [os.chdir] of the run is the one into the index directory. *)
Theorem wrapper_failure_keeps_index_dir :
  _samtools_depth_wrapper (fun _ => true)
    (fun _ _ => Raise (CalledProcessError 1 "samtools depth: could not open"))
    (mkTask "s1.bam" "chr1:100-200" "S1" (Some (Abs ["data"; "idx"])) 100000)
    (mkWorld ["home"; "u"] [])
  = (mkWorld ["data"; "idx"]
       [EvChdir ["data"; "idx"];
        EvShell "export GCS_OAUTH_TOKEN=$GCS_OAUTH_TOKEN; samtools depth -a -a -d 100000 -Q 255 -r chr1:100-200 s1.bam"
                ["data"; "idx"]],
     Raise (CalledProcessError 1 "samtools depth: could not open")).
Proof.
  rewrite (wrapper_index_dir_failure _ _ _ _ (Abs ["data"; "idx"])
             (CalledProcessError 1 "samtools depth: could not open"));
    reflexivity.
Qed.

(** ** The worker pool *)

Lemma collect_all_ok {A B} (f : A -> result B) (l : list A) (out : list B) :
  map f l = map Ok out -> collect (map f l) = Ok out.
Proof.
  revert out. induction l as [|a l IH]; intros [|b out] H; simpl in *; try discriminate.
  - reflexivity.
  - injection H as Ha Hl. rewrite Ha. simpl. now rewrite (IH out Hl).
Qed.

Lemma collect_first_raise {A B} (f : A -> result B) (pre : list A) a post out e :
  map f pre = map Ok out -> f a = Raise e ->
  collect (map f (pre ++ a :: post)) = Raise e.
Proof.
  revert out. induction pre as [|x pre IH]; intros [|b out] H Ha; simpl in *;
    try discriminate.
  - now rewrite Ha.
  - injection H as Hx Hl. rewrite Hx. simpl. now rewrite (IH out Hl Ha).
Qed.

Lemma collect_ok_Forall2 {A B} (f : A -> result B) (l : list A) (out : list B) :
  collect (map f l) = Ok out -> Forall2 (fun a b => f a = Ok b) l out.
Proof.
  revert out. induction l as [|a l IH]; intros out H; simpl in *.
  - injection H as <-. constructor.
  - destruct (f a) as [b|] eqn:Ha; [|discriminate]. simpl in H.
    destruct (collect (map f l)) as [rest|]; [|discriminate]. simpl in H.
    injection H as <-. constructor; [exact Ha|]. now apply IH.
Qed.

Section PoolProofs.

Variable isdir : list string -> bool.
Variable shell : string -> list string -> result string.
Variable w0 : World.
Variable tasks : list Task.

Local Abbreviation run0 := (run_from isdir shell w0).
Local Abbreviation inv := (pool_inv isdir shell w0 tasks).
Local Abbreviation wok := (worker_ok isdir shell w0 tasks).

Lemma queue_head taken i t q :
  combine (seq taken (List.length tasks - taken)) (drop taken tasks) = (i, t) :: q ->
  i = taken /\ tasks !! taken = Some t /\ taken < List.length tasks
  /\ q = combine (seq (S taken) (List.length tasks - S taken)) (drop (S taken) tasks).
Proof.
  intros H.
  destruct (tasks !! taken) as [t'|] eqn:Ht.
  - pose proof (lookup_lt_Some _ _ _ Ht) as Hlt.
    rewrite (drop_S _ _ _ Ht) in H.
    replace (List.length tasks - taken) with (S (List.length tasks - S taken)) in H by lia.
    simpl in H. injection H as <- <- <-. auto.
  - apply lookup_ge_None in Ht.
    replace (List.length tasks - taken) with 0 in H by lia. discriminate.
Qed.

Lemma worker_ok_mono taken wk : wok taken wk -> wok (S taken) wk.
Proof.
  intros [Hw Hj]. split.
  - destruct Hw as [Hc|(j & Hf & Hlt & Hi)]; [now left|].
    right. exists j. repeat split; [exact Hf|lia|exact Hi].
  - intros i t Hjob. destruct (Hj i t Hjob). split; [lia|assumption].
Qed.

Lemma pool_init_inv n : inv (pool_init w0 n tasks).
Proof.
  exists 0. simpl. rewrite Nat.sub_0_r. repeat split; try lia.
  apply Forall_forall. intros wk Hwk. apply list_elem_of_In, repeat_spec in Hwk. subst wk.
  split; [now left|]. intros i t [=].
Qed.

(** A cached result whose turn has come was computed in the parent's
    directory: every task before it has returned. *)
Lemma cache_next_genuine p r :
  inv p -> In (next p, r) (cache p) ->
  exists t, tasks !! next p = Some t /\ r = run0 t.
Proof.
  intros (taken & _ & _ & _ & Hc & Hn & _) Hin.
  destruct (Hc _ _ Hin) as (t & Ht & [Hr|(j & Hj & t' & e & Ht' & He)]); [eauto|].
  exfalso.
  assert (Hjt : take (next p) tasks !! j = Some t') by (rewrite lookup_take_lt; assumption).
  apply (f_equal (fun l => l !! j)) in Hn.
  rewrite !list_lookup_fmap, Hjt in Hn. simpl in Hn. rewrite He in Hn.
  destruct (pileups_df p !! j); discriminate.
Qed.

Lemma pool_step_inv p p' : inv p -> pool_step isdir shell p p' -> inv p'.
Proof.
  intros Hinv Hstep. destruct Hstep as [i t q ws1 w ws2 c n out
                                       |i t q ws1 w ws2 c n out
                                       |q ws c1 c2 n r out].
  - (* an idle worker takes the first queued task *)
    destruct Hinv as (taken & Hq & Hle & Hws & Hc & Hn & Hnl). simpl in *.
    symmetry in Hq. apply queue_head in Hq as (-> & Ht & Hlt & ->).
    exists (S taken). simpl. repeat split; try assumption; try lia.
    apply Forall_app in Hws as [H1 H2]. apply Forall_cons in H2 as [[Hw _] H2].
    apply Forall_app. split; [eapply Forall_impl; [exact H1|apply worker_ok_mono]|].
    apply Forall_cons. split; [|eapply Forall_impl; [exact H2|apply worker_ok_mono]].
    split; simpl.
    + destruct Hw as [Hcw|(j & Hf & Hj & _)]; [now left|].
      right. exists j. repeat split; [exact Hf|lia|]. intros i' t' [= <- <-]. exact Hj.
    + intros i' t' [= <- <-]. split; [lia|exact Ht].
  - (* a worker finishes its task *)
    destruct Hinv as (taken & Hq & Hle & Hws & Hc & Hn & Hnl). simpl in *.
    apply Forall_app in Hws as [H1 H2]. apply Forall_cons in H2 as [[Hw Hjob] H2].
    simpl in *. destruct (Hjob i t eq_refl) as [Hit Ht].
    exists taken. simpl. repeat split; try assumption.
    + apply Forall_app. split; [exact H1|]. apply Forall_cons. split; [|exact H2].
      split; simpl; [|intros ? ? [=]].
      destruct Hw as [Hcw|(j & Hf & Hj & Hji)].
      * destruct (snd (_samtools_depth_wrapper isdir shell t w)) as [r|e] eqn:Hr.
        -- left. rewrite (wrapper_ok_restores _ _ _ _ _ Hr). exact Hcw.
        -- right. exists i. repeat split; [|exact Hit|intros ? ? [=]].
           exists t, e. split; [exact Ht|].
           unfold run_from. rewrite <- (wrapper_result_cwd isdir shell t w w0 Hcw). exact Hr.
      * right. exists j. repeat split; [exact Hf|exact Hj|intros ? ? [=]].
    + intros i' r' Hin. apply in_app_or in Hin as [Hin|[[= <- <-]|[]]]; [now apply Hc|].
      exists t. split; [exact Ht|].
      destruct Hw as [Hcw|(j & Hf & Hj & Hji)].
      * left. unfold run_from. apply wrapper_result_cwd. exact Hcw.
      * right. exists j. split; [exact (Hji i t eq_refl)|exact Hf].
  - (* the loop receives the next result *)
    assert (Hin : In (next (mkPool q ws (c1 ++ (n, Ok r) :: c2) n out), Ok r)
                     (cache (mkPool q ws (c1 ++ (n, Ok r) :: c2) n out)))
      by (simpl; apply in_or_app; right; now left).
    destruct (cache_next_genuine _ _ Hinv Hin) as (t & Ht & Hr). simpl in Ht.
    destruct Hinv as (taken & Hq & Hle & Hws & Hc & Hn & Hnl). simpl in *.
    exists taken. simpl. repeat split; try assumption.
    + intros i' r' Hin'. apply Hc. apply in_app_or in Hin' as [H|H]; apply in_or_app;
        [now left|right; now right].
    + rewrite (take_S_r _ _ _ Ht), !map_app, Hn. simpl. now rewrite <- Hr.
    + apply lookup_lt_Some in Ht. lia.
Qed.

(** However the tasks interleave, the loop ends as the same tasks run one
    after the other would: with their results in submission order, or with
    the exception of the first task, in that order, that raises. *)
Lemma imap_outcome_unique p o :
  inv p -> imap_outcome isdir shell (List.length tasks) p o ->
  o = collect (map run0 tasks).
Proof.
  intros Hinv Hout. induction Hout as [p Hdone|p e Hin|p p' o Hstep _ IH].
  - destruct Hinv as (taken & _ & _ & _ & _ & Hn & _).
    rewrite Hdone, firstn_all in Hn. symmetry. now apply collect_all_ok.
  - destruct (cache_next_genuine _ _ Hinv Hin) as (t & Ht & Hr).
    destruct Hinv as (taken & _ & _ & _ & _ & Hn & _).
    rewrite <- (take_drop (next p) tasks) at 1. rewrite (drop_S _ _ _ Ht).
    symmetry. eapply collect_first_raise; [exact Hn|]. now rewrite <- Hr.
  - apply IH. eapply pool_step_inv; eassumption.
Qed.

(** With at least one worker the loop does end: one worker alone can take,
    finish and hand over the tasks in turn. *)
Lemma imap_outcome_sequential ws m : forall k w out,
  List.length tasks - k = m -> k <= List.length tasks ->
  cwd w = cwd w0 ->
  map run0 (take k tasks) = map Ok out ->
  imap_outcome isdir shell (List.length tasks)
    (mkPool (combine (seq k (List.length tasks - k)) (drop k tasks))
            (mkWorker w None :: ws) [] k out)
    (collect (map run0 tasks)).
Proof.
  induction m as [|m IH]; intros k w out Hm Hk Hcw Hout.
  - assert (k = List.length tasks) as -> by lia.
    rewrite firstn_all in Hout. rewrite (collect_all_ok _ _ _ Hout).
    now apply (outcome_done isdir shell (List.length tasks)
                 (mkPool _ _ _ (List.length tasks) out)).
  - destruct (tasks !! k) as [t|] eqn:Ht; [|apply lookup_ge_None in Ht; lia].
    rewrite (drop_S _ _ _ Ht).
    replace (List.length tasks - k) with (S (List.length tasks - S k)) by lia. simpl.
    eapply outcome_step; [apply (step_take isdir shell k t _ [] w ws [] k out)|].
    eapply outcome_step; [apply (step_finish isdir shell k t _ [] w ws [] k out)|].
    simpl. pose proof (wrapper_result_cwd isdir shell t w w0 Hcw) as Hres.
    destruct (snd (_samtools_depth_wrapper isdir shell t w)) as [r|e] eqn:Hr.
    + eapply outcome_step; [apply (step_yield isdir shell _ _ [] [] k r out)|]. simpl.
      apply IH; try lia.
      * rewrite (wrapper_ok_restores _ _ _ _ _ Hr). exact Hcw.
      * rewrite (take_S_r _ _ _ Ht), !map_app, Hout. simpl. unfold run_from. now rewrite <- Hres.
    + assert (Hcol : collect (map run0 tasks) = Raise e).
      { rewrite <- (take_drop k tasks), (drop_S _ _ _ Ht).
        eapply collect_first_raise; [exact Hout|]. unfold run_from. now rewrite <- Hres. }
      rewrite Hcol. apply outcome_raise. simpl. now left.
Qed.

Lemma imap_outcome_exists n :
  0 < n ->
  imap_outcome isdir shell (List.length tasks) (pool_init w0 n tasks)
    (collect (map run0 tasks)).
Proof.
  intros Hn. destruct n as [|n]; [lia|]. unfold pool_init. simpl repeat.
  replace (seq 0 (List.length tasks)) with (seq 0 (List.length tasks - 0))
    by (now rewrite Nat.sub_0_r).
  change tasks with (drop 0 tasks) at 3.
  eapply imap_outcome_sequential; try reflexivity; lia.
Qed.

End PoolProofs.

Lemma wrapper_ok_name isdir shell (t : Task) (w : World) (r : Series) :
  snd (_samtools_depth_wrapper isdir shell t w) = Ok r -> s_name r = sample_id t.
Proof.
  rewrite wrapper_unfold.
  set (call := match bam_index_dir t with
               | Some d => with_ (cd isdir d) (check_output shell (samtools_cmd t))
               | None => check_output shell (samtools_cmd t)
               end).
  destruct (call w) as [w' [out|e]]; simpl; [|discriminate].
  destruct (parse_depth_lines _ _); simpl; [|discriminate].
  intros [= <-]. reflexivity.
Qed.

Lemma pd_concat_columns (l : list Series) table :
  pd_concat l = Ok table -> columns table = map s_name l.
Proof.
  unfold pd_concat. destruct l as [|s0 rest]; [discriminate|].
  destruct (forallb _ rest); intros [= <-]; unfold columns; simpl;
    rewrite map_map; reflexivity.
Qed.

Lemma collected_names isdir shell w (ts : list Task) (l : list Series) :
  Forall2 (fun t r => run_from isdir shell w t = Ok r) ts l ->
  map s_name l = map sample_id ts.
Proof.
  induction 1 as [|t r ts l Hr _ IH]; simpl; [reflexivity|].
  now rewrite (wrapper_ok_name _ _ _ _ _ Hr), IH.
Qed.

(** The columns of the extraction are the samples of [bam_s], in its order. *)
Lemma samtools_depth_seq_columns isdir shell w region_str bam_s index_dir d table :
  samtools_depth_seq isdir shell w region_str bam_s index_dir d = Ok table ->
  columns table = map fst bam_s.
Proof.
  unfold samtools_depth_seq.
  destruct (collect _) as [l|] eqn:Hl; simpl; [|discriminate].
  intros Hcat. rewrite (pd_concat_columns _ _ Hcat).
  apply collect_ok_Forall2 in Hl. rewrite (collected_names _ _ _ _ _ Hl).
  unfold tasks_of. rewrite map_map. reflexivity.
Qed.

(** C4. For every sample mapping and every two pool sizes, each at least
    one: the extraction ends under either pool size, and however the tasks
    of the two pools interleave and in whatever order they finish, both
    runs end the same way, with the same merged table (columns and cells)
    or the same exception; the columns of the merged table are the samples
    in input order. *)
Theorem samtools_depth_pool_size_independent isdir shell (w : World) region_str
    (bam_s : list (string * string)) index_dir d (n1 n2 : Z) :
  (1 <= n1)%Z -> (1 <= n2)%Z ->
  (exists o, samtools_depth_outcome isdir shell w region_str bam_s index_dir d n1 o)
  /\ forall o1 o2,
       samtools_depth_outcome isdir shell w region_str bam_s index_dir d n1 o1 ->
       samtools_depth_outcome isdir shell w region_str bam_s index_dir d n2 o2 ->
       o1 = o2
       /\ o1 = samtools_depth_seq isdir shell w region_str bam_s index_dir d
       /\ forall table, o1 = Ok table -> columns table = map fst bam_s.
Proof.
  intros H1 H2.
  assert (Huniq : forall n o, (1 <= n)%Z ->
            samtools_depth_outcome isdir shell w region_str bam_s index_dir d n o ->
            o = samtools_depth_seq isdir shell w region_str bam_s index_dir d).
  { intros n o Hn. unfold samtools_depth_outcome.
    destruct (Z.ltb_spec n 1) as [Hlt|_]; [lia|].
    intros (r & Hr & ->).
    now rewrite (imap_outcome_unique isdir shell w _ _ _
                   (pool_init_inv isdir shell w _ _) Hr). }
  split.
  - exists (samtools_depth_seq isdir shell w region_str bam_s index_dir d).
    unfold samtools_depth_outcome. destruct (Z.ltb_spec n1 1) as [Hlt|_]; [lia|].
    eexists. split; [apply imap_outcome_exists; lia|reflexivity].
  - intros o1 o2 Ho1 Ho2.
    pose proof (Huniq _ _ H1 Ho1) as E1. pose proof (Huniq _ _ H2 Ho2) as E2.
    split; [congruence|]. split; [exact E1|].
    intros table Htab. rewrite E1 in Htab.
    eapply samtools_depth_seq_columns. exact Htab.
Qed.

Example samtools_depth_two_samples :
  samtools_depth_seq (fun _ => true) example_shell (mkWorld ["home"; "u"] [])
    "chr1:100-101" [("B", "b.bam"); ("A", "a.bam")] (Some (Abs ["data"; "idx"])) 100000
  = Ok (mkDataFrame ["chr1_100"; "chr1_101"]
          [("B", [Some 0%Z; Some 12%Z]); ("A", [Some 5%Z; Some 7%Z])]).
Proof. vm_compute. reflexivity. Qed.

(** The merged table of the example, normalised with library sizes of one
    and two million reads. *)
Example extraction_then_normalisation :
  norm_pileups (fun _ df => Ok df)
    (to_float64 (mkDataFrame ["chr1_100"; "chr1_101"]
                   [("B", [Some 0%Z; Some 12%Z]); ("A", [Some 5%Z; Some 7%Z])]))
    (<["A" := 1e6%float]> (<["B" := 2e6%float]> ∅)) None id (mkWorld ["home"; "u"] [])
  = (mkWorld ["home"; "u"] [],
     Ok (mkDataFrame ["chr1_100"; "chr1_101"]
           [("B", [0; 6]%float); ("A", [5; 7]%float)])).
Proof.
  rewrite (norm_pileups_unfold _ _ _ _ _ [2e6; 1e6]%float); [|vm_compute; reflexivity].
  rewrite rename_id. vm_compute. reflexivity.
Qed.

Example default_id_map_two_segments :
  default_id_map "GTEX-1117F-0226-SM-5GZZ7" = "GTEX-1117F"
  /\ default_id_map "S1" = "S1".
Proof. split; reflexivity. Qed.

Lemma samtools_depth_pool_size_independent_witness :
  (exists o, samtools_depth_outcome (fun _ => true) example_shell (mkWorld ["home"; "u"] [])
               "chr1:100-101" [("B", "b.bam"); ("A", "a.bam")]
               (Some (Abs ["data"; "idx"])) 100000 1 o)
  /\ forall o1 o2,
       samtools_depth_outcome (fun _ => true) example_shell (mkWorld ["home"; "u"] [])
         "chr1:100-101" [("B", "b.bam"); ("A", "a.bam")]
         (Some (Abs ["data"; "idx"])) 100000 1 o1 ->
       samtools_depth_outcome (fun _ => true) example_shell (mkWorld ["home"; "u"] [])
         "chr1:100-101" [("B", "b.bam"); ("A", "a.bam")]
         (Some (Abs ["data"; "idx"])) 100000 12 o2 ->
       o1 = o2
       /\ o1 = samtools_depth_seq (fun _ => true) example_shell (mkWorld ["home"; "u"] [])
                 "chr1:100-101" [("B", "b.bam"); ("A", "a.bam")]
                 (Some (Abs ["data"; "idx"])) 100000
       /\ forall table, o1 = Ok table -> columns table = map fst [("B", "b.bam"); ("A", "a.bam")].
Proof.
  apply (samtools_depth_pool_size_independent (fun _ => true) example_shell
           (mkWorld ["home"; "u"] []) "chr1:100-101" [("B", "b.bam"); ("A", "a.bam")]
           (Some (Abs ["data"; "idx"])) 100000 1 12); lia.
Defined.

(** ** Rejected genotype arguments *)

Lemma norm_pileups_world Res pileups_df libsize_s cov id_map w :
  fst (norm_pileups Res pileups_df libsize_s cov id_map w) = w
  \/ fst (norm_pileups Res pileups_df libsize_s cov id_map w)
     = mkWorld (cwd w) (trace w ++ [EvResidualize]).
Proof.
  unfold norm_pileups, bind, lift, ret, emit.
  destruct (loc_list _ _) as [sel|]; simpl; [|now left].
  destruct cov as [c|]; simpl; [|now left].
  now right.
Qed.

(** A rejected [genotypes] is rejected after the normalisation. *)
Lemma group_pileups_rejects_after_norm Res Gt Sum (pileups_df : DataFrame string float)
    libsize_s variant_id genotypes cov id_map w :
  unsupported genotypes = true ->
  group_pileups Res Gt Sum pileups_df libsize_s variant_id genotypes cov id_map w
  = match norm_pileups Res pileups_df libsize_s cov id_map w with
    | (w', Ok _) => (w', Raise (ValueError "Unsupported format for genotypes."))
    | (w', Raise e) => (w', Raise e)
    end.
Proof.
  intros Hun. unfold group_pileups, bind.
  destruct (norm_pileups Res pileups_df libsize_s cov id_map w) as [w' [rpm|e]];
    [|reflexivity].
  destruct genotypes as [s|g|]; simpl in Hun.
  - destruct (endswith s ".vcf.gz"); [discriminate|]. reflexivity.
  - discriminate.
  - reflexivity.
Qed.

(** C6, as the code has it. For every [genotypes] that is neither a
    [pd.Series] nor a string ending in [.vcf.gz], [group_pileups] first runs
    [norm_pileups] (the division and, with covariates, the residualisation);
    when that returns it raises
    [ValueError('Unsupported format for genotypes.')]; when normalisation
    itself raises, that exception is the one raised. Either way no table is
    returned and no genotype lookup is made. *)
Theorem group_pileups_unsupported Res Gt Sum (pileups_df : DataFrame string float)
    libsize_s variant_id genotypes cov id_map w :
  unsupported genotypes = true ->
  group_pileups Res Gt Sum pileups_df libsize_s variant_id genotypes cov id_map w
  = match norm_pileups Res pileups_df libsize_s cov id_map w with
    | (w', Ok _) => (w', Raise (ValueError "Unsupported format for genotypes."))
    | (w', Raise e) => (w', Raise e)
    end
  /\ (forall rpm,
        snd (norm_pileups Res pileups_df libsize_s cov id_map w) = Ok rpm ->
        snd (group_pileups Res Gt Sum pileups_df libsize_s variant_id genotypes cov id_map w)
        = Raise (ValueError "Unsupported format for genotypes."))
  /\ (exists e,
        snd (group_pileups Res Gt Sum pileups_df libsize_s variant_id genotypes cov id_map w)
        = Raise e)
  /\ (forall v p,
        In (EvGetGenotype v p)
           (trace (fst (group_pileups Res Gt Sum pileups_df libsize_s variant_id genotypes
                          cov id_map w))) ->
        In (EvGetGenotype v p) (trace w)).
Proof.
  intros Hun. rewrite (group_pileups_rejects_after_norm _ _ _ _ _ _ _ _ _ _ Hun).
  pose proof (norm_pileups_world Res pileups_df libsize_s cov id_map w) as Hw.
  destruct (norm_pileups Res pileups_df libsize_s cov id_map w) as [w' [rpm|e]];
    simpl in *.
  - split; [reflexivity|]. split; [reflexivity|]. split; [eauto|].
    intros v p Hin. destruct Hw as [->| ->]; [exact Hin|]. simpl in Hin.
    apply in_app_or in Hin as [Hin|[Hin|[]]]; [exact Hin|discriminate].
  - split; [reflexivity|]. split; [discriminate|]. split; [eauto|].
    intros v p Hin. destruct Hw as [->| ->]; [exact Hin|]. simpl in Hin.
    apply in_app_or in Hin as [Hin|[Hin|[]]]; [exact Hin|discriminate].
Qed.

Lemma group_pileups_unsupported_witness :
  snd (group_pileups (fun _ d => Ok d) (fun _ _ => Ok []) sequential_sum
         (mkDataFrame ["1"] [("A", [10]%float)]) (<["A" := 2e6%float]> ∅)
         "chr1_100_A_G_b38" (GStr "calls.bcf") None id (mkWorld ["home"] []))
  = Raise (ValueError "Unsupported format for genotypes.").
Proof.
  apply (proj1 (proj2 (group_pileups_unsupported (fun _ d => Ok d) (fun _ _ => Ok [])
           sequential_sum (mkDataFrame ["1"] [("A", [10]%float)]) (<["A" := 2e6%float]> ∅)
           "chr1_100_A_G_b38" (GStr "calls.bcf") None id (mkWorld ["home"] [])
           eq_refl))
           (mkDataFrame ["1"] [("A", [5]%float)])).
  rewrite (norm_pileups_unfold _ _ _ _ _ [2e6]%float); [|vm_compute; reflexivity].
  rewrite rename_id. vm_compute. reflexivity.
Defined.

(** C6 as stated fails: normalisation comes first. With covariates the
    residualiser has been called by the time the [ValueError] is raised; and
    with a sample missing from the library sizes the call raises the
    [KeyError] of the normalisation, not a [ValueError]. *)
Lemma group_pileups_normalises_before_rejecting :
  group_pileups (fun _ d => Ok d) (fun _ _ => Ok []) sequential_sum
    (mkDataFrame ["1"] [("A", [10]%float)]) (<["A" := 2e6%float]> ∅)
    "chr1_100_A_G_b38" GOther (Some (mkDataFrame ["A"] [("PC1", [1]%float)])) id
    (mkWorld ["home"] [])
  = (mkWorld ["home"] [EvResidualize],
     Raise (ValueError "Unsupported format for genotypes."))
  /\ group_pileups (fun _ d => Ok d) (fun _ _ => Ok []) sequential_sum
       (mkDataFrame ["1"] [("A", [10]%float)]) ∅
       "chr1_100_A_G_b38" GOther None id (mkWorld ["home"] [])
     = (mkWorld ["home"] [], Raise (KeyError ["A"])).
Proof.
  split.
  - rewrite group_pileups_rejects_after_norm by reflexivity.
    unfold norm_pileups, bind, lift, ret, emit.
    replace (loc_list _ _) with (Ok [2e6%float]) by (vm_compute; reflexivity).
    reflexivity.
  - rewrite group_pileups_rejects_after_norm by reflexivity.
    unfold norm_pileups, bind, lift, ret, emit.
    replace (loc_list _ _) with (@Raise (list float) (KeyError ["A"]))
      by (vm_compute; reflexivity).
    reflexivity.
Qed.

(** ** Genotypes given as a string *)

Lemma group_pileups_vcf Res Gt Sum pileups_df libsize_s variant_id s cov id_map w w' rpm :
  endswith s ".vcf.gz" = true ->
  norm_pileups Res pileups_df libsize_s cov id_map w = (w', Ok rpm) ->
  group_pileups Res Gt Sum pileups_df libsize_s variant_id (GStr s) cov id_map w
  = (mkWorld (cwd w') (trace w' ++ [EvGetGenotype variant_id s]),
     let? all := Gt variant_id s in
     let? g := loc_dosages all (columns rpm) in
     average_by_genotype Sum rpm g).
Proof.
  intros Hend Hnorm. unfold group_pileups, bind, lift, emit. rewrite Hnorm, Hend.
  destruct (Gt variant_id s) as [all|e]; simpl; [|reflexivity].
  destruct (loc_dosages all (columns rpm)); reflexivity.
Qed.

(** C10. For every string [s] given as [genotypes]: if [s] does not end
    with [.vcf.gz], [group_pileups] does nothing beyond normalising, so the
    genotype collaborator is not called and cannot affect the outcome, and
    once the normalisation has returned the call raises
    [ValueError('Unsupported format for genotypes.')]; if [s] ends with
    [.vcf.gz], the collaborator is called with the variant id and [s] right
    after the normalisation. A run records a genotype lookup only for such a
    string. [calls.vcf] and [calls.bcf] are rejected, [calls.vcf.gz] is
    looked up. *)
Theorem group_pileups_string_dispatch :
  (forall Res Gt Sum (pileups_df : DataFrame string float) libsize_s variant_id s cov id_map w,
      (endswith s ".vcf.gz" = false ->
         fst (group_pileups Res Gt Sum pileups_df libsize_s variant_id (GStr s) cov id_map w)
         = fst (norm_pileups Res pileups_df libsize_s cov id_map w)
         /\ (forall rpm,
               snd (norm_pileups Res pileups_df libsize_s cov id_map w) = Ok rpm ->
               snd (group_pileups Res Gt Sum pileups_df libsize_s variant_id (GStr s) cov id_map w)
               = Raise (ValueError "Unsupported format for genotypes."))
         /\ (forall Gt',
               group_pileups Res Gt' Sum pileups_df libsize_s variant_id (GStr s) cov id_map w
               = group_pileups Res Gt Sum pileups_df libsize_s variant_id (GStr s) cov id_map w))
      /\ (endswith s ".vcf.gz" = true ->
            forall rpm,
              snd (norm_pileups Res pileups_df libsize_s cov id_map w) = Ok rpm ->
              trace (fst (group_pileups Res Gt Sum pileups_df libsize_s variant_id (GStr s)
                            cov id_map w))
              = trace (fst (norm_pileups Res pileups_df libsize_s cov id_map w))
                  ++ [EvGetGenotype variant_id s])
      /\ (forall v p,
            In (EvGetGenotype v p)
               (trace (fst (group_pileups Res Gt Sum pileups_df libsize_s variant_id (GStr s)
                              cov id_map w))) ->
            In (EvGetGenotype v p) (trace w) \/ endswith s ".vcf.gz" = true))
  /\ (forall Res Gt Sum w,
        group_pileups Res Gt Sum (mkDataFrame ["1"] [("A", [10]%float)])
          (<["A" := 2e6%float]> ∅) "chr1_100_A_G_b38" (GStr "calls.vcf") None id w
        = (w, Raise (ValueError "Unsupported format for genotypes."))
        /\ group_pileups Res Gt Sum (mkDataFrame ["1"] [("A", [10]%float)])
             (<["A" := 2e6%float]> ∅) "chr1_100_A_G_b38" (GStr "calls.bcf") None id w
           = (w, Raise (ValueError "Unsupported format for genotypes.")))
  /\ (forall Res Sum w,
        sums_cells Sum ->
        group_pileups Res (fun _ _ => Ok [("A", Some 1%Z)]) Sum
          (mkDataFrame ["1"] [("A", [10]%float)])
          (<["A" := 2e6%float]> ∅) "chr1_100_A_G_b38" (GStr "calls.vcf.gz") None id w
        = (mkWorld (cwd w) (trace w ++ [EvGetGenotype "chr1_100_A_G_b38" "calls.vcf.gz"]),
           Ok (mkDataFrame ["1"] [(1%Z, [5]%float)]))).
Proof.
  split; [|split].
  - intros Res Gt Sum pileups_df libsize_s variant_id s cov id_map w.
    assert (Hrej : endswith s ".vcf.gz" = false ->
              forall Gt0,
                group_pileups Res Gt0 Sum pileups_df libsize_s variant_id (GStr s) cov id_map w
                = match norm_pileups Res pileups_df libsize_s cov id_map w with
                  | (w', Ok _) => (w', Raise (ValueError "Unsupported format for genotypes."))
                  | (w', Raise e) => (w', Raise e)
                  end).
    { intros Hend Gt0. apply group_pileups_rejects_after_norm. simpl. now rewrite Hend. }
    split; [|split].
    + intros Hend. split; [|split].
      * rewrite (Hrej Hend Gt).
        now destruct (norm_pileups Res pileups_df libsize_s cov id_map w) as [w' [rpm|e]].
      * intros rpm. rewrite (Hrej Hend Gt).
        destruct (norm_pileups Res pileups_df libsize_s cov id_map w) as [w' [rpm'|e]];
          simpl; [reflexivity|discriminate].
      * intros Gt'. now rewrite (Hrej Hend Gt), (Hrej Hend Gt').
    + intros Hend rpm Hnorm.
      destruct (norm_pileups Res pileups_df libsize_s cov id_map w) as [w' r] eqn:E.
      simpl in Hnorm. subst r. now rewrite (group_pileups_vcf _ _ _ _ _ _ _ _ _ _ _ _ Hend E).
    + intros v p Hin. destruct (endswith s ".vcf.gz") eqn:Hend; [now right|left].
      rewrite (Hrej eq_refl Gt) in Hin.
      assert (Hfst : fst (match norm_pileups Res pileups_df libsize_s cov id_map w with
                          | (w', Ok _) =>
                              (w', @Raise (DataFrame Z float)
                                     (ValueError "Unsupported format for genotypes."))
                          | (w', Raise e) => (w', Raise e)
                          end)
                     = fst (norm_pileups Res pileups_df libsize_s cov id_map w))
        by now destruct (norm_pileups Res pileups_df libsize_s cov id_map w) as [w' [rpm|e]].
      rewrite Hfst in Hin.
      destruct (norm_pileups_world Res pileups_df libsize_s cov id_map w) as [Hw|Hw];
        rewrite Hw in Hin; [exact Hin|].
      simpl in Hin. apply in_app_or in Hin as [Hin|[Hin|[]]]; [exact Hin|discriminate].
  - intros Res Gt Sum w. split.
    + rewrite group_pileups_rejects_after_norm by reflexivity.
      rewrite (norm_pileups_unfold _ _ _ _ _ [2e6]%float); [reflexivity|vm_compute; reflexivity].
    + rewrite group_pileups_rejects_after_norm by reflexivity.
      rewrite (norm_pileups_unfold _ _ _ _ _ [2e6]%float); [reflexivity|vm_compute; reflexivity].
  - intros Res Sum w HSum.
    rewrite (group_pileups_vcf _ _ _ _ _ _ _ _ _ w w
               (mkDataFrame ["1"] [("A", [5]%float)])); [|reflexivity|].
    + assert (HA : Sum 1 [5%float] = 5%float).
      { apply (np_sum_exact Sum 1 [5%float] 5%float HSum). intros s' Hs'.
        apply (float_sum_one_inv 5%float); [reflexivity|reflexivity|exact Hs']. }
      unfold average_by_genotype, group_means, np_unique, notnull_values, select_columns,
        loc_dosages, loc_labels, index_where_eq, columns_labelled, mean_axis1, nanmean,
        nancount, not_nan, row_at, concat_axis1, lift, bind.
      cbn -[PrimFloat.div PrimFloat.is_nan float_of_nat].
      rewrite HA. vm_compute. reflexivity.
    + rewrite (norm_pileups_unfold _ _ _ _ _ [2e6]%float); [|vm_compute; reflexivity].
      rewrite rename_id. vm_compute. reflexivity.
Qed.

Lemma group_pileups_string_dispatch_witness :
  fst (group_pileups (fun _ d => Ok d) (fun _ _ => Ok [("A", Some 1%Z)]) sequential_sum
         (mkDataFrame ["1"] [("A", [10]%float)]) (<["A" := 2e6%float]> ∅)
         "chr1_100_A_G_b38" (GStr "calls.vcf") None id (mkWorld ["home"] []))
  = fst (norm_pileups (fun _ d => Ok d)
           (mkDataFrame ["1"] [("A", [10]%float)]) (<["A" := 2e6%float]> ∅) None id
           (mkWorld ["home"] []))
  /\ (forall rpm,
        snd (norm_pileups (fun _ d => Ok d)
               (mkDataFrame ["1"] [("A", [10]%float)]) (<["A" := 2e6%float]> ∅) None id
               (mkWorld ["home"] [])) = Ok rpm ->
        snd (group_pileups (fun _ d => Ok d) (fun _ _ => Ok [("A", Some 1%Z)]) sequential_sum
               (mkDataFrame ["1"] [("A", [10]%float)]) (<["A" := 2e6%float]> ∅)
               "chr1_100_A_G_b38" (GStr "calls.vcf") None id (mkWorld ["home"] []))
        = Raise (ValueError "Unsupported format for genotypes."))
  /\ (forall Gt',
        group_pileups (fun _ d => Ok d) Gt' sequential_sum
          (mkDataFrame ["1"] [("A", [10]%float)]) (<["A" := 2e6%float]> ∅)
          "chr1_100_A_G_b38" (GStr "calls.vcf") None id (mkWorld ["home"] [])
        = group_pileups (fun _ d => Ok d) (fun _ _ => Ok [("A", Some 1%Z)]) sequential_sum
            (mkDataFrame ["1"] [("A", [10]%float)]) (<["A" := 2e6%float]> ∅)
            "chr1_100_A_G_b38" (GStr "calls.vcf") None id (mkWorld ["home"] [])).
Proof.
  apply (proj1 (proj1 group_pileups_string_dispatch (fun _ d => Ok d)
                  (fun _ _ => Ok [("A", Some 1%Z)]) sequential_sum
                  (mkDataFrame ["1"] [("A", [10]%float)]) (<["A" := 2e6%float]> ∅)
                  "chr1_100_A_G_b38" "calls.vcf" None id (mkWorld ["home"] []))).
  reflexivity.
Defined.

(** ** Shading *)

Lemma ifct_unbound : load_name "ifct" = Raise (NameError "ifct").
Proof. vm_compute. reflexivity. Qed.

(** C5, on the code. Whatever breakpoints are passed as [shade_range], the
    branch never completes: a list of positions, and the region string
    [chr1:100-200], get as far as the call of [ifct] on line 228, a name that
    neither [plot] nor the module nor the builtins bind, and raise
    [NameError]; no rectangle is added. *)
Theorem plot_shade_raises :
  forall call_loaded shade_range gene_start_pos ylim1,
    (exists e, plot_shade call_loaded (Some shade_range) gene_start_pos ylim1 = Raise e)
    /\ (forall l, plot_shade call_loaded (Some (SRList l)) gene_start_pos ylim1
                  = Raise (NameError "ifct"))
    /\ plot_shade call_loaded (Some (SRList [1100; 1200; 1350]%Z)) 1000%Z 3%float
       = Raise (NameError "ifct")
    /\ plot_shade call_loaded (Some (SRStr "chr1:1100-1200")) 1000%Z 3%float
       = Raise (NameError "ifct").
Proof.
  intros call_loaded shade_range gene_start_pos ylim1.
  assert (Hlist : forall l start y, plot_shade call_loaded (Some (SRList l)) start y
                                    = Raise (NameError "ifct")).
  { intros l start y. unfold plot_shade. cbn [rbind]. now rewrite ifct_unbound. }
  split; [|split; [intros l; apply Hlist|split]].
  - destruct shade_range as [l|s]; [exists (NameError "ifct"); apply Hlist|].
    unfold plot_shade.
    destruct (astype_int _) as [a|e]; cbn [rbind]; [|now exists e].
    rewrite ifct_unbound. cbn [rbind]. now exists (NameError "ifct").
  - apply Hlist.
  - unfold plot_shade.
    replace (astype_int _) with (Ok [1100; 1200]%Z) by (vm_compute; reflexivity).
    cbn [rbind]. now rewrite ifct_unbound.
Qed.

(** ** Colour cycles *)

(** C9, as the code has it. For every non-empty list of tables, every panel
    gets the same cycle, chosen by the first table alone: the three-colour
    cycle if and only if the first table has at most three columns, the
    default cycle otherwise. *)
Theorem panel_cycles_first_table (first : Table) (rest : list Table) :
  exists cycles,
    panel_cycles (first :: rest) = Ok cycles
    /\ List.length cycles = List.length (first :: rest)
    /\ forall (k : nat) c, cycles !! k = Some c ->
         (c = Some custom_cycler_colors <-> shape1 first <= 3)
         /\ (c = None <-> 3 < shape1 first).
Proof.
  unfold panel_cycles. simpl. rewrite Nat.sub_0_r. eexists. split; [reflexivity|]. split.
  - simpl. now rewrite length_map, length_seq.
  - intros k c Hk.
    assert (Hc : c = if Nat.leb (shape1 first) 3 then Some custom_cycler_colors else None).
    { destruct k as [|k]; simpl in Hk; [congruence|].
      rewrite list_lookup_fmap in Hk. destruct (seq 1 (List.length rest) !! k); simpl in Hk;
        congruence. }
    subst c. destruct (Nat.leb_spec (shape1 first) 3); split; split; intros H';
      try reflexivity; try discriminate; try lia.
Qed.

(** C9 as stated fails: behind a first table of two columns, a panel whose
    own table has five columns gets the three-colour cycle; behind a first
    table of five columns, a panel of two columns gets the default cycle. *)
Lemma panel_cycles_ignore_own_table :
  panel_cycles
    [ mkDataFrame ["1"] [(LInt 0, [1]%float); (LInt 1, [2]%float)];
      mkDataFrame ["1"] [(LStr "A", [1]%float); (LStr "B", [2]%float); (LStr "C", [3]%float);
                         (LStr "D", [4]%float); (LStr "E", [5]%float)] ]
  = Ok [Some custom_cycler_colors; Some custom_cycler_colors]
  /\ panel_cycles
       [ mkDataFrame ["1"] [(LStr "A", [1]%float); (LStr "B", [2]%float); (LStr "C", [3]%float);
                            (LStr "D", [4]%float); (LStr "E", [5]%float)];
         mkDataFrame ["1"] [(LInt 0, [1]%float); (LInt 1, [2]%float)] ]
     = Ok [None; None].
Proof. split; reflexivity. Qed.

(** ** Trace order *)

(** With the labels 0, 1, 2 in that order, positions and labels agree and
    ['sorted'] draws by descending sum. *)
Example sorted_order_on_dosage_labels Sum :
  sums_cells Sum ->
  plot_traces Sum (OStr "sorted") false
    [ mkDataFrame ["1"; "2"]
        [(LInt 0, [1; 1]%float); (LInt 1, [3; 3]%float); (LInt 2, [2; 2]%float)] ]
  = Ok [ mkTrace 0 (LInt 1) false [3; 3]%float;
         mkTrace 0 (LInt 2) false [2; 2]%float;
         mkTrace 0 (LInt 0) false [1; 1]%float ].
Proof.
  intros HSum.
  assert (H1 : Sum 3 [1; 1]%float = 2%float) by known_sum HSum.
  assert (H2 : Sum 3 [3; 3]%float = 6%float) by known_sum HSum.
  assert (H3 : Sum 3 [2; 2]%float = 4%float) by known_sum HSum.
  unfold plot_traces, sorder_of, column_sums, shape1. cbn [df_columns map List.length fst snd].
  rewrite H1, H2, H3. vm_compute. reflexivity.
Qed.

(** The ['additive'] mode orders by label: sums X:100, Y:50 in the column
    order Y, X are drawn X first. *)
Example additive_order_flips Sum :
  sums_cells Sum ->
  sorder_of Sum (OStr "additive")
    [ mkDataFrame ["1"] [(LStr "Y", [50]%float); (LStr "X", [100]%float)] ]
  = Ok [LStr "X"; LStr "Y"].
Proof.
  intros HSum.
  assert (H1 : Sum 2 [50%float] = 50%float) by known_sum HSum.
  assert (H2 : Sum 2 [100%float] = 100%float) by known_sum HSum.
  unfold sorder_of, column_sums, shape1. cbn [df_columns map List.length fst snd].
  rewrite H1, H2. vm_compute. reflexivity.
Qed.

Lemma draw_label_no_int_label outline k (d : Table) (p : Z) :
  (forall l, In l (columns d) -> exists s, l = LStr s) ->
  draw_label outline k d (LInt p) = Ok [].
Proof.
  intros Hstr. unfold draw_label.
  assert (Hno : has_column d (LInt p) = false).
  { unfold has_column. apply not_true_is_false. intros Hex.
    apply existsb_exists in Hex as (l & Hl & Heq).
    destruct (Hstr l Hl) as (s & ->). discriminate. }
  now rewrite Hno.
Qed.

Lemma draw_panel_no_int_label outline k (d : Table) (positions : list Z) :
  (forall l, In l (columns d) -> exists s, l = LStr s) ->
  draw_panel outline k d (map LInt positions) = Ok [].
Proof.
  intros Hstr. unfold draw_panel.
  assert (Hcol : collect (map (draw_label outline k d) (map LInt positions))
                 = Ok (map (fun _ => []) positions)).
  { induction positions as [|p ps IH]; simpl; [reflexivity|].
    rewrite (draw_label_no_int_label _ _ _ _ Hstr). simpl. rewrite IH. reflexivity. }
  rewrite Hcol. simpl. f_equal. clear Hcol.
  induction positions as [|p ps IH]; simpl; [reflexivity|exact IH].
Qed.

(** Under ['sorted'] a first table whose columns are all labelled by
    strings has no trace drawn at all. *)
Lemma sorted_order_draws_nothing_for_string_labels Sum outline (d : Table) :
  (forall l, In l (columns d) -> exists s, l = LStr s) ->
  plot_traces Sum (OStr "sorted") outline [d] = Ok [].
Proof.
  intros Hstr. unfold plot_traces, sorder_of. simpl. unfold draw_traces. simpl.
  rewrite draw_panel_no_int_label by exact Hstr. reflexivity.
Qed.

(** C8, on the code. Under ['sorted'] the loop iterates over positions and
    looks them up as labels. Sample-id columns A (sum 2) and B (sum 4):
    nothing is drawn. Integer columns 1 (sum 60) and 0 (sum 20), in that
    order: label 0, the smaller sum, is drawn first. Dosage columns 1
    (sum 20) and 2 (sum 60): only label 1 is drawn, the column with the
    largest sum never. Under ['none'] the same tables are drawn by label.
    This holds in whatever order [df.sum()] adds the cells. *)
Theorem sorted_order_uses_positions_as_labels Sum :
  sums_cells Sum ->
  plot_traces Sum (OStr "sorted") false
    [ mkDataFrame ["1"; "2"] [(LStr "A", [1; 1]%float); (LStr "B", [2; 2]%float)] ]
  = Ok []
  /\ plot_traces Sum (OStr "sorted") false
       [ mkDataFrame ["1"; "2"] [(LInt 1, [30; 30]%float); (LInt 0, [10; 10]%float)] ]
     = Ok [ mkTrace 0 (LInt 0) false [10; 10]%float;
            mkTrace 0 (LInt 1) false [30; 30]%float ]
  /\ plot_traces Sum (OStr "sorted") false
       [ mkDataFrame ["1"; "2"] [(LInt 1, [10; 10]%float); (LInt 2, [30; 30]%float)] ]
     = Ok [ mkTrace 0 (LInt 1) false [10; 10]%float ]
  /\ plot_traces Sum (OStr "none") false
       [ mkDataFrame ["1"; "2"] [(LStr "A", [1; 1]%float); (LStr "B", [2; 2]%float)] ]
     = Ok [ mkTrace 0 (LStr "A") false [1; 1]%float;
            mkTrace 0 (LStr "B") false [2; 2]%float ].
Proof.
  intros HSum.
  assert (H1 : Sum 2 [1; 1]%float = 2%float) by known_sum HSum.
  assert (H2 : Sum 2 [2; 2]%float = 4%float) by known_sum HSum.
  assert (H3 : Sum 2 [30; 30]%float = 60%float) by known_sum HSum.
  assert (H4 : Sum 2 [10; 10]%float = 20%float) by known_sum HSum.
  repeat split;
    unfold plot_traces, sorder_of, column_sums, shape1;
    cbn [df_columns map List.length fst snd];
    rewrite ?H1, ?H2, ?H3, ?H4; vm_compute; reflexivity.
Qed.

Lemma sorted_order_uses_positions_as_labels_witness :
  plot_traces sequential_sum (OStr "sorted") false
    [ mkDataFrame ["1"; "2"] [(LInt 1, [30; 30]%float); (LInt 0, [10; 10]%float)] ]
  = Ok [ mkTrace 0 (LInt 0) false [10; 10]%float;
         mkTrace 0 (LInt 1) false [30; 30]%float ].
Proof.
  apply (proj1 (proj2 (sorted_order_uses_positions_as_labels sequential_sum
                         sequential_sum_sums_cells))).
Defined.



(** * Further properties *)

(** ** Sample identifiers *)

Lemma split_on_not_nil sep s : split_on sep s <> [].
Proof.
  destruct s as [|c s]; simpl; [discriminate|].
  destruct (Ascii.eqb c sep); [discriminate|]. destruct (split_on sep s); discriminate.
Qed.

(** Joining what [split] gave returns the string. *)
Lemma join_split sep s : join (String sep EmptyString) (split_on sep s) = s.
Proof.
  unfold join. induction s as [|c s IH]; simpl; [reflexivity|].
  destruct (Ascii.eqb_spec c sep) as [->|Hne].
  - pose proof (split_on_not_nil sep s) as Hnil.
    destruct (split_on sep s) as [|p ps]; [contradiction|].
    simpl in *. now rewrite IH.
  - pose proof (split_on_not_nil sep s) as Hnil.
    destruct (split_on sep s) as [|p ps]; [contradiction|].
    destruct ps as [|q ps]; simpl in *; now rewrite <- IH.
Qed.

(** A string without the separator is one field. *)
Lemma split_on_clean sep s :
  ~ In sep (list_ascii_of_string s) -> split_on sep s = [s].
Proof.
  induction s as [|c s IH]; simpl; intros Hclean; [reflexivity|].
  destruct (Ascii.eqb_spec c sep) as [->|Hne]; [elim Hclean; now left|].
  rewrite IH; [reflexivity|]. intros Hin. apply Hclean. now right.
Qed.

Lemma split_on_app sep p rest :
  ~ In sep (list_ascii_of_string p) ->
  split_on sep (p ++ String sep rest)%string = p :: split_on sep rest.
Proof.
  induction p as [|c p IH]; simpl; intros Hclean.
  - now rewrite Ascii.eqb_refl.
  - destruct (Ascii.eqb_spec c sep) as [->|Hne]; [elim Hclean; now left|].
    rewrite IH; [reflexivity|]. intros Hin. apply Hclean. now right.
Qed.

(** Splitting what [join] glued returns the fields, when no field holds the
    separator. *)
Lemma split_join sep parts :
  parts <> [] ->
  Forall (fun p => ~ In sep (list_ascii_of_string p)) parts ->
  split_on sep (join (String sep EmptyString) parts) = parts.
Proof.
  unfold join. induction parts as [|p ps IH]; intros Hnil Hclean; [contradiction|].
  apply Forall_cons in Hclean as [Hp Hps].
  destruct ps as [|q ps].
  - simpl. now apply split_on_clean.
  - change (String.concat (String sep EmptyString) (p :: q :: ps))
      with (p ++ String sep (String.concat (String sep EmptyString) (q :: ps)))%string.
    rewrite split_on_app by exact Hp. f_equal. apply IH; [discriminate|exact Hps].
Qed.

Lemma split_on_fields_clean sep s :
  Forall (fun p => ~ In sep (list_ascii_of_string p)) (split_on sep s).
Proof.
  induction s as [|c s IH]; simpl.
  - constructor; [intros []|constructor].
  - destruct (Ascii.eqb_spec c sep) as [->|Hne].
    + constructor; [intros []|exact IH].
    + pose proof (split_on_not_nil sep s) as Hnil.
      destruct (split_on sep s) as [|p ps]; [contradiction|].
      apply Forall_cons in IH as [Hp Hps]. constructor; [|exact Hps].
      simpl. intros [Heq|Hin]; [now apply Hne|now apply Hp].
Qed.

(** X1. The default [id_map] is idempotent: applied to its own result it
    changes nothing. Its result has at most two hyphen-separated segments,
    and an identifier that already has at most two segments is returned
    unchanged. *)
Theorem default_id_map_idempotent (x : string) :
  default_id_map (default_id_map x) = default_id_map x
  /\ List.length (split_on "-"%char (default_id_map x)) <= 2
  /\ (List.length (split_on "-"%char x) <= 2 -> default_id_map x = x).
Proof.
  unfold default_id_map.
  assert (Hsplit : split_on "-"%char (join "-" (firstn 2 (split_on "-"%char x)))
                   = firstn 2 (split_on "-"%char x)).
  { apply (split_join "-"%char).
    - pose proof (split_on_not_nil "-"%char x).
      destruct (split_on "-"%char x); [contradiction|discriminate].
    - apply Forall_take, split_on_fields_clean. }
  split; [|split].
  - rewrite Hsplit. now rewrite take_take, Nat.min_id.
  - rewrite Hsplit. rewrite length_take. lia.
  - intros Hlen. rewrite firstn_all2 by exact Hlen. apply (join_split "-"%char).
Qed.

(** ** Normalisation: errors, relabelling, covariates *)

Lemma loc_list_missing (libsize_s : gmap string float) (labels : list string) :
  (exists l, In l labels /\ libsize_s !! l = None) ->
  exists named,
    loc_list libsize_s labels = Raise (KeyError named)
    /\ sublist named labels
    /\ forall l, In l named <-> In l labels /\ libsize_s !! l = None.
Proof.
  intros (l0 & Hin & Hnone).
  destruct (loc_labels_raise
              (fun l => match libsize_s !! l with Some v => [v] | None => [] end) labels)
    as (named & Hrun & _ & Hsub & Hchar).
  { exists l0. split; [exact Hin|]. now rewrite Hnone. }
  exists named. split; [exact Hrun|]. split; [exact Hsub|].
  intros l. rewrite Hchar. destruct (libsize_s !! l); split; intros [H1 H2];
    (split; [exact H1|]); congruence.
Qed.

(** X2. Columns without a library size stop [norm_pileups] with one
    [KeyError], whatever the covariates and [id_map]: the labels it names
    are exactly the columns that have no library size, in column order;
    nothing is computed, and the residualiser is not called. *)
Theorem norm_pileups_missing_library_size Res (pileups_df : DataFrame string float)
    (libsize_s : gmap string float) cov id_map w l0 :
  In l0 (columns pileups_df) ->
  libsize_s !! l0 = None ->
  exists named,
    norm_pileups Res pileups_df libsize_s cov id_map w = (w, Raise (KeyError named))
    /\ sublist named (columns pileups_df)
    /\ forall l, In l named <-> In l (columns pileups_df) /\ libsize_s !! l = None.
Proof.
  intros Hin Hnone.
  destruct (loc_list_missing libsize_s (columns pileups_df)) as (named & Hrun & Hsub & Hchar);
    [eauto|].
  exists named. split; [|split; [exact Hsub|exact Hchar]].
  unfold norm_pileups, bind, lift. now rewrite Hrun.
Qed.

Lemma norm_pileups_missing_library_size_witness :
  exists named,
    norm_pileups (fun _ d => Ok d)
      (mkDataFrame ["1"]
         [("A", [10]%float); ("B", [4]%float); ("C", [1]%float); ("D", [2]%float)])
      (<["A" := 2e6%float]> (<["C" := 1e6%float]> ∅))
      (Some (mkDataFrame ["A"] [("PC1", [1]%float)])) default_id_map (mkWorld ["home"] [])
    = (mkWorld ["home"] [], Raise (KeyError named))
    /\ sublist named ["A"; "B"; "C"; "D"]
    /\ forall l, In l named
                 <-> In l ["A"; "B"; "C"; "D"]
                     /\ (<["A" := 2e6%float]> (<["C" := 1e6%float]> ∅) : gmap string float) !! l
                        = None.
Proof.
  apply (norm_pileups_missing_library_size (fun _ d => Ok d)
           (mkDataFrame ["1"]
              [("A", [10]%float); ("B", [4]%float); ("C", [1]%float); ("D", [2]%float)])
           (<["A" := 2e6%float]> (<["C" := 1e6%float]> ∅))
           (Some (mkDataFrame ["A"] [("PC1", [1]%float)])) default_id_map
           (mkWorld ["home"] []) "D").
  - simpl. auto.
  - vm_compute. reflexivity.
Defined.

(** Two columns without a library size are both named. *)
Example norm_pileups_names_every_missing_size :
  norm_pileups (fun _ d => Ok d)
    (mkDataFrame ["1"]
       [("A", [10]%float); ("B", [4]%float); ("C", [1]%float); ("D", [2]%float)])
    (<["A" := 2e6%float]> (<["C" := 1e6%float]> ∅)) None id (mkWorld ["home"] [])
  = (mkWorld ["home"] [], Raise (KeyError ["B"; "D"])).
Proof.
  unfold norm_pileups, bind, lift.
  replace (loc_list _ _) with (@Raise (list float) (KeyError ["B"; "D"]))
    by (vm_compute; reflexivity).
  reflexivity.
Qed.

(** X3. [id_map] only relabels: with covered library sizes and no
    covariates, the result under any [id_map] is the result under the
    identity with every label mapped. Columns are neither merged nor
    dropped, even when two labels are mapped to the same one. *)
Theorem norm_pileups_relabels Res (pileups_df : DataFrame string float)
    (libsize_s : gmap string float) id_map w :
  (forall s, In s (columns pileups_df) -> is_Some (libsize_s !! s)) ->
  exists plain,
    norm_pileups Res pileups_df libsize_s None id w = (w, Ok plain)
    /\ norm_pileups Res pileups_df libsize_s None id_map w
       = (w, Ok (rename_columns id_map plain))
    /\ columns (rename_columns id_map plain) = map id_map (columns pileups_df)
    /\ map snd (df_columns (rename_columns id_map plain)) = map snd (df_columns plain)
    /\ shape1 (rename_columns id_map plain) = shape1 pileups_df.
Proof.
  intros Hcov. destruct (loc_list_covered _ _ Hcov) as [sel Hsel].
  destruct (norm_pileups_identity Res pileups_df libsize_s w Hcov) as (plain & Hrun & _ & Hcols).
  exists plain. split; [exact Hrun|].
  assert (Hplain : plain = mkDataFrame (df_index pileups_df)
                             (div_mul (df_columns pileups_df) sel 1e6%float)).
  { rewrite (norm_pileups_unfold _ _ _ _ _ _ Hsel), rename_id in Hrun. congruence. }
  assert (Hlab : columns plain = columns pileups_df)
    by (unfold columns; eapply Forall2_same_labels; exact Hcols).
  split; [|split; [|split]].
  - rewrite (norm_pileups_unfold _ _ _ _ _ _ Hsel). now rewrite Hplain.
  - unfold columns in *. simpl. rewrite map_map. simpl. now rewrite <- Hlab, map_map.
  - simpl. now rewrite map_map.
  - unfold shape1. simpl. rewrite length_map.
    unfold columns in Hlab. apply (f_equal (@List.length string)) in Hlab.
    now rewrite !length_map in Hlab.
Qed.

Lemma norm_pileups_relabels_witness :
  exists plain,
    norm_pileups (fun _ d => Ok d)
      (mkDataFrame ["1"] [("S-1-a", [10]%float); ("S-1-b", [4]%float)])
      (<["S-1-a" := 2e6%float]> (<["S-1-b" := 1e6%float]> ∅)) None id (mkWorld ["home"] [])
    = (mkWorld ["home"] [], Ok plain)
    /\ norm_pileups (fun _ d => Ok d)
         (mkDataFrame ["1"] [("S-1-a", [10]%float); ("S-1-b", [4]%float)])
         (<["S-1-a" := 2e6%float]> (<["S-1-b" := 1e6%float]> ∅)) None default_id_map
         (mkWorld ["home"] [])
       = (mkWorld ["home"] [], Ok (rename_columns default_id_map plain))
    /\ columns (rename_columns default_id_map plain)
       = map default_id_map ["S-1-a"; "S-1-b"]
    /\ map snd (df_columns (rename_columns default_id_map plain)) = map snd (df_columns plain)
    /\ shape1 (rename_columns default_id_map plain) = 2.
Proof.
  apply (norm_pileups_relabels (fun _ d => Ok d)
           (mkDataFrame ["1"] [("S-1-a", [10]%float); ("S-1-b", [4]%float)])
           (<["S-1-a" := 2e6%float]> (<["S-1-b" := 1e6%float]> ∅)) default_id_map
           (mkWorld ["home"] [])).
  intros s [<-|[<-|[]]]; [exists 2e6%float|exists 1e6%float]; vm_compute; reflexivity.
Defined.

(** X4. With covariates, the residualiser is called exactly once, on the
    very table the call without covariates returns, and what it returns or
    raises is the outcome of [norm_pileups]. *)
Theorem norm_pileups_residualises_rpm Res (pileups_df : DataFrame string float)
    (libsize_s : gmap string float) c id_map w :
  (forall s, In s (columns pileups_df) -> is_Some (libsize_s !! s)) ->
  exists rpm,
    norm_pileups Res pileups_df libsize_s None id_map w = (w, Ok rpm)
    /\ norm_pileups Res pileups_df libsize_s (Some c) id_map w
       = (mkWorld (cwd w) (trace w ++ [EvResidualize]), Res c rpm).
Proof.
  intros Hcov. destruct (loc_list_covered _ _ Hcov) as [sel Hsel].
  eexists. split.
  - apply (norm_pileups_unfold _ _ _ _ _ _ Hsel).
  - unfold norm_pileups, bind, lift, emit. rewrite Hsel. reflexivity.
Qed.

Lemma norm_pileups_residualises_rpm_witness :
  exists rpm,
    norm_pileups (fun _ _ => Raise (CollaboratorError "singular covariates"))
      (mkDataFrame ["1"] [("A", [10]%float)]) (<["A" := 2e6%float]> ∅) None id
      (mkWorld ["home"] [])
    = (mkWorld ["home"] [], Ok rpm)
    /\ norm_pileups (fun _ _ => Raise (CollaboratorError "singular covariates"))
         (mkDataFrame ["1"] [("A", [10]%float)]) (<["A" := 2e6%float]> ∅)
         (Some (mkDataFrame ["A"] [("PC1", [1]%float)])) id (mkWorld ["home"] [])
       = (mkWorld ["home"] [EvResidualize], Raise (CollaboratorError "singular covariates")).
Proof.
  apply (norm_pileups_residualises_rpm
           (fun _ _ => Raise (CollaboratorError "singular covariates"))
           (mkDataFrame ["1"] [("A", [10]%float)]) (<["A" := 2e6%float]> ∅)
           (mkDataFrame ["A"] [("PC1", [1]%float)]) id (mkWorld ["home"] [])).
  intros s [<-|[]]. exists 2e6%float. vm_compute. reflexivity.
Defined.

(** ** Grouping: genotype files, unknown samples, irrelevant entries *)

Lemma dosage_hits (all : Dosages) l :
  List.filter (fun e => String.eqb (fst e) l) all = [] <-> ~ In l (map fst all).
Proof.
  split.
  - intros Hnil Hin. apply in_map_iff in Hin as (e & He & Hein).
    assert (H : In e (List.filter (fun e => String.eqb (fst e) l) all))
      by (apply filter_In; split; [exact Hein|now apply String.eqb_eq]).
    rewrite Hnil in H. exact H.
  - intros Hno. destruct (List.filter _ all) as [|e hit] eqn:Hhit; [reflexivity|].
    exfalso. apply Hno.
    assert (H : In e (List.filter (fun e => String.eqb (fst e) l) all))
      by (rewrite Hhit; now left).
    apply filter_In in H as [Hin Heq]. apply String.eqb_eq in Heq. subst l.
    now apply in_map.
Qed.

Lemma loc_dosages_ok (all : Dosages) labels :
  (forall l, In l labels -> In l (map fst all)) ->
  loc_dosages all labels
  = Ok (flat_map (fun l => List.filter (fun e => String.eqb (fst e) l) all) labels).
Proof.
  intros Hin. apply loc_labels_ok. intros l Hl Hnil.
  apply dosage_hits in Hnil. exact (Hnil (Hin l Hl)).
Qed.

Lemma loc_dosages_missing (all : Dosages) labels :
  (exists l, In l labels /\ ~ In l (map fst all)) ->
  exists named,
    loc_dosages all labels = Raise (KeyError named)
    /\ sublist named labels
    /\ forall l, In l named <-> In l labels /\ ~ In l (map fst all).
Proof.
  intros (l0 & Hin & Hno).
  destruct (loc_labels_raise
              (fun l => List.filter (fun e => String.eqb (fst e) l) all) labels)
    as (named & Hrun & _ & Hsub & Hchar).
  { exists l0. split; [exact Hin|]. now apply dosage_hits. }
  exists named. split; [exact Hrun|]. split; [exact Hsub|].
  intros l. rewrite Hchar, dosage_hits. reflexivity.
Qed.

(** X5. Genotypes from a [.vcf.gz] file: when the collaborator returns a
    dosage for every column of the normalised table, [group_pileups] returns
    what it returns for the Series of those dosages taken in column order;
    samples of the file that are no column of the table play no part. The
    one difference is the recorded lookup. *)
Theorem group_pileups_vcf_as_series Res Gt Sum (pileups_df : DataFrame string float)
    libsize_s variant_id s cov id_map w w' rpm all :
  endswith s ".vcf.gz" = true ->
  norm_pileups Res pileups_df libsize_s cov id_map w = (w', Ok rpm) ->
  Gt variant_id s = Ok all ->
  (forall l, In l (columns rpm) -> In l (map fst all)) ->
  exists g,
    g = flat_map (fun l => List.filter (fun e => String.eqb (fst e) l) all) (columns rpm)
    /\ (forall e, In e g <-> In e all /\ In (fst e) (columns rpm))
    /\ snd (group_pileups Res Gt Sum pileups_df libsize_s variant_id (GStr s) cov id_map w)
       = snd (group_pileups Res Gt Sum pileups_df libsize_s variant_id (GSeries g) cov id_map w)
    /\ trace (fst (group_pileups Res Gt Sum pileups_df libsize_s variant_id (GStr s) cov id_map w))
       = trace (fst (group_pileups Res Gt Sum pileups_df libsize_s variant_id (GSeries g)
                       cov id_map w))
           ++ [EvGetGenotype variant_id s].
Proof.
  intros Hend Hnorm Hgt Hall. eexists. split; [reflexivity|]. split; [|split].
  - intros e. rewrite in_flat_map. split.
    + intros (l & Hl & He). apply filter_In in He as [He Heq].
      apply String.eqb_eq in Heq. subst l. now split.
    + intros [He Hl]. exists (fst e). split; [exact Hl|].
      apply filter_In. split; [exact He|apply String.eqb_refl].
  - rewrite (group_pileups_vcf _ _ _ _ _ _ _ _ _ _ _ _ Hend Hnorm).
    rewrite (group_pileups_series _ _ _ _ _ _ _ _ _ _ _ _ Hnorm).
    simpl. rewrite Hgt. simpl. now rewrite (loc_dosages_ok _ _ Hall).
  - rewrite (group_pileups_vcf _ _ _ _ _ _ _ _ _ _ _ _ Hend Hnorm).
    now rewrite (group_pileups_series _ _ _ _ _ _ _ _ _ _ _ _ Hnorm).
Qed.

Lemma group_pileups_vcf_as_series_witness :
  exists g,
    g = flat_map (fun l => List.filter (fun e => String.eqb (fst e) l)
                             [("Z", Some 2%Z); ("B", Some 1%Z); ("A", Some 0%Z)])
                 (columns (mkDataFrame ["1"] [("A", [5]%float); ("B", [7]%float)]))
    /\ (forall e, In e g <->
                  In e [("Z", Some 2%Z); ("B", Some 1%Z); ("A", Some 0%Z)]
                  /\ In (fst e) (columns (mkDataFrame ["1"] [("A", [5]%float); ("B", [7]%float)])))
    /\ snd (group_pileups (fun _ d => Ok d)
              (fun _ _ => Ok [("Z", Some 2%Z); ("B", Some 1%Z); ("A", Some 0%Z)]) sequential_sum
              (mkDataFrame ["1"] [("A", [10]%float); ("B", [7]%float)])
              (<["A" := 2e6%float]> (<["B" := 1e6%float]> ∅))
              "chr1_100_A_G_b38" (GStr "calls.vcf.gz") None id (mkWorld ["home"] []))
       = snd (group_pileups (fun _ d => Ok d)
                (fun _ _ => Ok [("Z", Some 2%Z); ("B", Some 1%Z); ("A", Some 0%Z)]) sequential_sum
                (mkDataFrame ["1"] [("A", [10]%float); ("B", [7]%float)])
                (<["A" := 2e6%float]> (<["B" := 1e6%float]> ∅))
                "chr1_100_A_G_b38" (GSeries g) None id (mkWorld ["home"] []))
    /\ trace (fst (group_pileups (fun _ d => Ok d)
                     (fun _ _ => Ok [("Z", Some 2%Z); ("B", Some 1%Z); ("A", Some 0%Z)]) sequential_sum
                     (mkDataFrame ["1"] [("A", [10]%float); ("B", [7]%float)])
                     (<["A" := 2e6%float]> (<["B" := 1e6%float]> ∅))
                     "chr1_100_A_G_b38" (GStr "calls.vcf.gz") None id (mkWorld ["home"] [])))
       = trace (fst (group_pileups (fun _ d => Ok d)
                       (fun _ _ => Ok [("Z", Some 2%Z); ("B", Some 1%Z); ("A", Some 0%Z)]) sequential_sum
                       (mkDataFrame ["1"] [("A", [10]%float); ("B", [7]%float)])
                       (<["A" := 2e6%float]> (<["B" := 1e6%float]> ∅))
                       "chr1_100_A_G_b38" (GSeries g) None id (mkWorld ["home"] [])))
           ++ [EvGetGenotype "chr1_100_A_G_b38" "calls.vcf.gz"].
Proof.
  apply (group_pileups_vcf_as_series (fun _ d => Ok d)
           (fun _ _ => Ok [("Z", Some 2%Z); ("B", Some 1%Z); ("A", Some 0%Z)]) sequential_sum
           (mkDataFrame ["1"] [("A", [10]%float); ("B", [7]%float)])
           (<["A" := 2e6%float]> (<["B" := 1e6%float]> ∅))
           "chr1_100_A_G_b38" "calls.vcf.gz" None id (mkWorld ["home"] [])
           (mkWorld ["home"] [])
           (mkDataFrame ["1"] [("A", [5]%float); ("B", [7]%float)])
           [("Z", Some 2%Z); ("B", Some 1%Z); ("A", Some 0%Z)]).
  - reflexivity.
  - rewrite (norm_pileups_unfold _ _ _ _ _ [2e6; 1e6]%float); [|vm_compute; reflexivity].
    rewrite rename_id. vm_compute. reflexivity.
  - reflexivity.
  - intros l [<-|[<-|[]]]; simpl; auto.
Defined.

(** X6. Genotypes from a [.vcf.gz] file that lacks columns of the table:
    [group_pileups] raises one [KeyError], after the lookup and before any
    averaging; the labels it names are exactly the columns of the normalised
    table that the genotypes lack, in column order. *)
Theorem group_pileups_vcf_missing_sample Res Gt Sum (pileups_df : DataFrame string float)
    libsize_s variant_id s cov id_map w w' rpm all l0 :
  endswith s ".vcf.gz" = true ->
  norm_pileups Res pileups_df libsize_s cov id_map w = (w', Ok rpm) ->
  Gt variant_id s = Ok all ->
  In l0 (columns rpm) ->
  ~ In l0 (map fst all) ->
  exists named,
    group_pileups Res Gt Sum pileups_df libsize_s variant_id (GStr s) cov id_map w
    = (mkWorld (cwd w') (trace w' ++ [EvGetGenotype variant_id s]), Raise (KeyError named))
    /\ sublist named (columns rpm)
    /\ forall l, In l named <-> In l (columns rpm) /\ ~ In l (map fst all).
Proof.
  intros Hend Hnorm Hgt Hin Hno.
  destruct (loc_dosages_missing all (columns rpm)) as (named & Hrun & Hsub & Hchar); [eauto|].
  exists named. split; [|split; [exact Hsub|exact Hchar]].
  rewrite (group_pileups_vcf _ _ _ _ _ _ _ _ _ _ _ _ Hend Hnorm), Hgt.
  simpl. now rewrite Hrun.
Qed.

Lemma group_pileups_vcf_missing_sample_witness :
  exists named,
    group_pileups (fun _ d => Ok d) (fun _ _ => Ok [("B", Some 0%Z)]) sequential_sum
      (mkDataFrame ["1"] [("A", [10]%float); ("B", [7]%float); ("C", [3]%float)])
      (<["A" := 2e6%float]> (<["B" := 1e6%float]> (<["C" := 1e6%float]> ∅)))
      "chr1_100_A_G_b38" (GStr "calls.vcf.gz") None id (mkWorld ["home"] [])
    = (mkWorld ["home"] [EvGetGenotype "chr1_100_A_G_b38" "calls.vcf.gz"],
       Raise (KeyError named))
    /\ sublist named ["A"; "B"; "C"]
    /\ forall l, In l named <-> In l ["A"; "B"; "C"] /\ ~ In l ["B"].
Proof.
  apply (group_pileups_vcf_missing_sample (fun _ d => Ok d) (fun _ _ => Ok [("B", Some 0%Z)])
           sequential_sum
           (mkDataFrame ["1"] [("A", [10]%float); ("B", [7]%float); ("C", [3]%float)])
           (<["A" := 2e6%float]> (<["B" := 1e6%float]> (<["C" := 1e6%float]> ∅)))
           "chr1_100_A_G_b38" "calls.vcf.gz" None id (mkWorld ["home"] [])
           (mkWorld ["home"] [])
           (mkDataFrame ["1"] [("A", [5]%float); ("B", [7]%float); ("C", [3]%float)])
           [("B", Some 0%Z)] "C").
  - reflexivity.
  - rewrite (norm_pileups_unfold _ _ _ _ _ [2e6; 1e6; 1e6]%float); [|vm_compute; reflexivity].
    rewrite rename_id. vm_compute. reflexivity.
  - reflexivity.
  - simpl. auto.
  - intros [H|[]]. discriminate H.
Defined.

(** Two columns that the genotypes lack are both named. *)
Example group_pileups_names_every_missing_genotype :
  snd (group_pileups (fun _ d => Ok d) (fun _ _ => Ok [("B", Some 0%Z)]) sequential_sum
         (mkDataFrame ["1"] [("A", [10]%float); ("B", [7]%float); ("C", [3]%float)])
         (<["A" := 2e6%float]> (<["B" := 1e6%float]> (<["C" := 1e6%float]> ∅)))
         "chr1_100_A_G_b38" (GStr "calls.vcf.gz") None id (mkWorld ["home"] []))
  = Raise (KeyError ["A"; "C"]).
Proof.
  rewrite (group_pileups_vcf _ _ _ _ _ _ _ _ _ _ (mkWorld ["home"] [])
             (mkDataFrame ["1"] [("A", [5]%float); ("B", [7]%float); ("C", [3]%float)]));
    [vm_compute; reflexivity|reflexivity|].
  rewrite (norm_pileups_unfold _ _ _ _ _ [2e6; 1e6; 1e6]%float); [|vm_compute; reflexivity].
  rewrite rename_id. vm_compute. reflexivity.
Qed.

Lemma columns_labelled_nonempty {V} (cols : list (string * list V)) l :
  In l (map fst cols) -> columns_labelled cols l <> [].
Proof.
  intros Hin Hnil. apply in_map_iff in Hin as (c & Hc & Hcin).
  assert (H : In c (columns_labelled cols l)) by now apply columns_labelled_In.
  rewrite Hnil in H. exact H.
Qed.

Lemma columns_labelled_empty {V} (cols : list (string * list V)) l :
  columns_labelled cols l = [] -> ~ In l (map fst cols).
Proof.
  intros Hnil Hin. now apply (columns_labelled_nonempty cols l Hin).
Qed.

Lemma loc_labels_result {A} (hits : string -> list A) (labels : list string) :
  (loc_labels hits labels = Ok (flat_map hits labels)
   /\ forall l, In l labels -> hits l <> [])
  \/ exists named,
       loc_labels hits labels = Raise (KeyError named)
       /\ named <> []
       /\ sublist named labels
       /\ forall l, In l named <-> In l labels /\ hits l = [].
Proof.
  destruct (loc_labels hits labels) as [r|e] eqn:E.
  - left. apply loc_labels_Ok_inv in E as [-> Hall]. now split.
  - right. pose proof (loc_labels_Raise_inv _ _ _ E) as Hex.
    destruct (loc_labels_raise hits labels Hex) as (named & Hrun & Hrest).
    exists named. split; [congruence|exact Hrest].
Qed.

Lemma select_columns_result {V} (cols : list (string * list V)) labels :
  (select_columns cols labels = Ok (flat_map (columns_labelled cols) labels)
   /\ forall l, In l labels -> In l (map fst cols))
  \/ exists named,
       select_columns cols labels = Raise (KeyError named)
       /\ named <> []
       /\ sublist named labels
       /\ forall l, In l named <-> In l labels /\ ~ In l (map fst cols).
Proof.
  assert (Hhit : forall l, columns_labelled cols l = [] <-> ~ In l (map fst cols)).
  { intros l. split; [apply columns_labelled_empty|].
    intros Hno. destruct (columns_labelled cols l) as [|c hit] eqn:Hc; [reflexivity|].
    exfalso. apply Hno.
    assert (H : In c (columns_labelled cols l)) by (rewrite Hc; now left).
    apply columns_labelled_In in H as [H <-]. now apply in_map. }
  destruct (loc_labels_result (columns_labelled cols) labels)
    as [[Hrun Hall]|(named & Hrun & Hne & Hsub & Hchar)].
  - left. split; [exact Hrun|]. intros l Hl.
    destruct (in_dec string_dec l (map fst cols)) as [Hin|Hno]; [exact Hin|].
    exfalso. apply (Hall l Hl). now apply Hhit.
  - right. exists named. split; [exact Hrun|]. split; [exact Hne|]. split; [exact Hsub|].
    intros l. rewrite Hchar, Hhit. reflexivity.
Qed.

(** The groups are averaged in the order of [cols]; the first group with a
    sample that is no column stops the loop. *)
Lemma group_means_result Sum (rpm : DataFrame string float) (g : Dosages) cols :
  (exists series, group_means Sum rpm g cols = Ok series
                  /\ forall i l, In i cols -> In (l, Some i) g -> In l (columns rpm))
  \/ exists pre i post named,
       cols = pre ++ i :: post
       /\ group_means Sum rpm g cols = Raise (KeyError named)
       /\ named <> []
       /\ (forall l, In l named <-> In (l, Some i) g /\ ~ In l (columns rpm))
       /\ forall j l, In j pre -> In (l, Some j) g -> In l (columns rpm).
Proof.
  induction cols as [|i cols IH]; simpl.
  - left. eexists. split; [reflexivity|]. intros i l [].
  - destruct (select_columns_result (df_columns rpm) (index_where_eq g i))
      as [[-> Hin]|(named & -> & Hne & _ & Hchar)].
    + simpl.
      destruct IH as [(series & -> & Hall)|(pre & i' & post & named & -> & -> & Hne & Hch & Hpre)].
      * left. eexists. split; [reflexivity|].
        intros j l [<-|Hj] Hg; [|now apply (Hall j)].
        apply Hin. now apply index_where_eq_In.
      * right. exists (i :: pre), i', post, named. split; [reflexivity|].
        split; [reflexivity|]. split; [exact Hne|]. split; [exact Hch|].
        intros j l [<-|Hj] Hg; [|now apply (Hpre j)].
        apply Hin. now apply index_where_eq_In.
    + right. exists [], i, cols, named. split; [reflexivity|]. split; [reflexivity|].
      split; [exact Hne|]. split.
      * intros l. rewrite Hchar, index_where_eq_In. reflexivity.
      * intros j l [].
Qed.

Lemma sorted_split (pre : list Z) i post :
  StronglySorted Z.lt (pre ++ i :: post) ->
  (forall j, In j pre -> (j < i)%Z) /\ (forall j, In j post -> (i < j)%Z).
Proof.
  induction pre as [|x pre IH]; simpl; intros Hs.
  - apply StronglySorted_inv in Hs as [_ Hall]. split; [intros j []|].
    intros j Hj. exact (proj1 (List.Forall_forall _ _) Hall j Hj).
  - apply StronglySorted_inv in Hs as [Hs Hall].
    destruct (IH Hs) as [H1 H2]. split; [|exact H2].
    intros j [<-|Hj]; [|now apply H1].
    apply (proj1 (List.Forall_forall _ _) Hall). apply in_or_app. right. now left.
Qed.

(** X7. A dosage Series naming, with a non-missing dosage, samples that
    are no column of the normalised table stops [group_pileups] with one
    [KeyError]: no table is returned, not even for the groups whose samples
    are all present. The groups are formed in ascending order of dosage, and
    the error names exactly the samples of the smallest dosage that has a
    sample the table lacks. *)
Theorem group_pileups_unknown_sample Res Gt Sum (pileups_df : DataFrame string float)
    libsize_s variant_id (g : Dosages) cov id_map w w' rpm l0 i0 :
  norm_pileups Res pileups_df libsize_s cov id_map w = (w', Ok rpm) ->
  In (l0, Some i0) g ->
  ~ In l0 (columns rpm) ->
  exists named i,
    group_pileups Res Gt Sum pileups_df libsize_s variant_id (GSeries g) cov id_map w
    = (w', Raise (KeyError named))
    /\ named <> []
    /\ (forall l, In l named <-> In (l, Some i) g /\ ~ In l (columns rpm))
    /\ (forall j l, (j < i)%Z -> In (l, Some j) g -> In l (columns rpm)).
Proof.
  intros Hnorm Hg Hno. rewrite (group_pileups_series _ _ _ _ _ _ _ _ _ _ _ _ Hnorm).
  unfold average_by_genotype.
  destruct (group_means_result Sum rpm g (np_unique (notnull_values g)))
    as [(series & _ & Hall)|(pre & i & post & named & Hcols & -> & Hne & Hchar & Hpre)].
  - exfalso. apply Hno. apply (Hall i0); [|exact Hg].
    apply np_unique_In, notnull_values_In. eauto.
  - exists named, i. split; [reflexivity|]. split; [exact Hne|]. split; [exact Hchar|].
    intros j l Hj Hjl.
    pose proof (np_unique_sorted (notnull_values g)) as Hs. rewrite Hcols in Hs.
    apply sorted_split in Hs as [_ Hpost].
    assert (Hin : In j (np_unique (notnull_values g)))
      by (apply np_unique_In, notnull_values_In; eauto).
    rewrite Hcols in Hin. apply in_app_or in Hin as [Hin|[<-|Hin]].
    + exact (Hpre j l Hin Hjl).
    + lia.
    + specialize (Hpost j Hin). lia.
Qed.

Lemma group_pileups_unknown_sample_witness :
  exists named i,
    group_pileups (fun _ d => Ok d) (fun _ _ => Ok []) sequential_sum
      (mkDataFrame ["1"] [("A", [10]%float); ("B", [7]%float)])
      (<["A" := 2e6%float]> (<["B" := 1e6%float]> ∅))
      "chr1_100_A_G_b38"
      (GSeries [("A", Some 0%Z); ("Q", Some 1%Z); ("B", Some 0%Z); ("R", Some 1%Z)])
      None id (mkWorld ["home"] [])
    = (mkWorld ["home"] [], Raise (KeyError named))
    /\ named <> []
    /\ (forall l, In l named
                  <-> In (l, Some i)
                         [("A", Some 0%Z); ("Q", Some 1%Z); ("B", Some 0%Z); ("R", Some 1%Z)]
                      /\ ~ In l (columns (mkDataFrame ["1"] [("A", [5]%float); ("B", [7]%float)])))
    /\ (forall j l, (j < i)%Z ->
          In (l, Some j) [("A", Some 0%Z); ("Q", Some 1%Z); ("B", Some 0%Z); ("R", Some 1%Z)] ->
          In l (columns (mkDataFrame ["1"] [("A", [5]%float); ("B", [7]%float)]))).
Proof.
  apply (group_pileups_unknown_sample (fun _ d => Ok d) (fun _ _ => Ok []) sequential_sum
           (mkDataFrame ["1"] [("A", [10]%float); ("B", [7]%float)])
           (<["A" := 2e6%float]> (<["B" := 1e6%float]> ∅))
           "chr1_100_A_G_b38"
           [("A", Some 0%Z); ("Q", Some 1%Z); ("B", Some 0%Z); ("R", Some 1%Z)]
           None id (mkWorld ["home"] []) (mkWorld ["home"] [])
           (mkDataFrame ["1"] [("A", [5]%float); ("B", [7]%float)]) "Q" 1%Z).
  - rewrite (norm_pileups_unfold _ _ _ _ _ [2e6; 1e6]%float); [|vm_compute; reflexivity].
    rewrite rename_id. vm_compute. reflexivity.
  - simpl. auto.
  - intros [H|[H|[]]]; discriminate H.
Defined.

(** Both unknown samples of the dosage are named. *)
Example group_pileups_names_every_unknown_sample :
  average_by_genotype sequential_sum
    (mkDataFrame ["1"] [("A", [5]%float); ("B", [7]%float)])
    [("A", Some 0%Z); ("Q", Some 1%Z); ("B", Some 0%Z); ("R", Some 1%Z)]
  = Raise (KeyError ["Q"; "R"]).
Proof. vm_compute. reflexivity. Qed.

Lemma group_means_ext Sum (rpm1 rpm2 : DataFrame string float) (g1 g2 : Dosages) cols :
  List.length (df_index rpm1) = List.length (df_index rpm2) ->
  (forall i, In i cols ->
     select_columns (df_columns rpm1) (index_where_eq g1 i)
     = select_columns (df_columns rpm2) (index_where_eq g2 i)) ->
  group_means Sum rpm1 g1 cols = group_means Sum rpm2 g2 cols.
Proof.
  intros Hlen. induction cols as [|i cols IH]; intros Hsel; simpl; [reflexivity|].
  rewrite (Hsel i (or_introl eq_refl)), Hlen.
  rewrite IH; [reflexivity|]. intros j Hj. apply Hsel. now right.
Qed.

Lemma has_dosage_In (g : Dosages) l : has_dosage g l = true <-> exists i, In (l, Some i) g.
Proof.
  unfold has_dosage. rewrite existsb_exists. split.
  - intros ([l' [i|]] & Hin & Hb); simpl in Hb.
    + rewrite andb_true_r in Hb. apply String.eqb_eq in Hb. subst l'. eauto.
    + now rewrite andb_false_r in Hb.
  - intros (i & Hin). exists (l, Some i). split; [exact Hin|]. simpl.
    now rewrite String.eqb_refl.
Qed.

Lemma select_columns_ext {V} (cols1 cols2 : list (string * list V)) labels :
  (forall l, In l labels -> columns_labelled cols1 l = columns_labelled cols2 l) ->
  select_columns cols1 labels = select_columns cols2 labels.
Proof.
  intros Hsame. unfold select_columns, loc_labels.
  assert (Hf : List.filter (fun l => is_nil (columns_labelled cols1 l)) labels
               = List.filter (fun l => is_nil (columns_labelled cols2 l)) labels).
  { apply List.filter_ext_in. intros l Hl. now rewrite (Hsame l Hl). }
  assert (Hm : flat_map (columns_labelled cols1) labels
               = flat_map (columns_labelled cols2) labels).
  { clear Hf. induction labels as [|l ls IH]; simpl; [reflexivity|].
    rewrite (Hsame l (or_introl eq_refl)), IH; [reflexivity|].
    intros l' Hl'. apply Hsame. now right. }
  now rewrite Hf, Hm.
Qed.

Lemma columns_labelled_filter {V} (keep : string -> bool) (cols : list (string * list V)) l :
  keep l = true ->
  columns_labelled (List.filter (fun c => keep (fst c)) cols) l = columns_labelled cols l.
Proof.
  intros Hkeep. unfold columns_labelled.
  induction cols as [|c cols IH]; simpl; [reflexivity|].
  destruct (String.eqb_spec (fst c) l) as [Heq|Hne].
  - rewrite Heq, Hkeep. simpl. rewrite <- Heq at 1. rewrite String.eqb_refl. now rewrite IH.
  - destruct (keep (fst c)); simpl; [|exact IH].
    destruct (String.eqb_spec (fst c) l); [contradiction|exact IH].
Qed.

Lemma index_where_eq_notnull (g : Dosages) i :
  index_where_eq
    (List.filter (fun e => match snd e with Some _ => true | None => false end) g) i
  = index_where_eq g i.
Proof.
  unfold index_where_eq. f_equal.
  induction g as [|[l [v|]] g IH]; simpl; [reflexivity| |exact IH].
  destruct (v =? i)%Z; now rewrite IH.
Qed.

Lemma notnull_values_notnull (g : Dosages) :
  notnull_values
    (List.filter (fun e => match snd e with Some _ => true | None => false end) g)
  = notnull_values g.
Proof.
  unfold notnull_values.
  induction g as [|[l [v|]] g IH]; simpl; [reflexivity| |exact IH]. now rewrite IH.
Qed.

(** X8. What [group_pileups] averages depends only on the samples with a
    dosage: dropping the entries with a missing dosage from the Series, and
    dropping from the table the columns of samples without a dosage, both
    leave the grouped table (or the exception) unchanged. *)
Theorem average_by_genotype_ignores_undosed Sum (rpm : DataFrame string float)
    (g : Dosages) :
  average_by_genotype Sum rpm g
  = average_by_genotype Sum
      (mkDataFrame (df_index rpm)
         (List.filter (fun c => has_dosage g (fst c)) (df_columns rpm)))
      (List.filter (fun e => match snd e with Some _ => true | None => false end) g).
Proof.
  unfold average_by_genotype. rewrite notnull_values_notnull. simpl.
  rewrite (group_means_ext Sum rpm
             (mkDataFrame (df_index rpm)
                (List.filter (fun c => has_dosage g (fst c)) (df_columns rpm)))
             g (List.filter (fun e => match snd e with Some _ => true | None => false end) g));
    [reflexivity|reflexivity|].
  intros i _. rewrite index_where_eq_notnull. simpl. symmetry. apply select_columns_ext.
  intros l Hl. apply (columns_labelled_filter (has_dosage g)).
  apply has_dosage_In. exists i. now apply index_where_eq_In.
Qed.

(** X9. A dosage Series without any non-missing dosage (an empty one, or
    one whose dosages are all missing) makes [group_pileups] raise
    [ValueError('No objects to concatenate')] once the normalisation has
    returned, instead of returning a table without columns. *)
Theorem group_pileups_no_dosage Res Gt Sum (pileups_df : DataFrame string float)
    libsize_s variant_id (g : Dosages) cov id_map w w' rpm :
  norm_pileups Res pileups_df libsize_s cov id_map w = (w', Ok rpm) ->
  (forall s i, ~ In (s, Some i) g) ->
  group_pileups Res Gt Sum pileups_df libsize_s variant_id (GSeries g) cov id_map w
  = (w', Raise (ValueError "No objects to concatenate")).
Proof.
  intros Hnorm Hmiss. rewrite (group_pileups_series _ _ _ _ _ _ _ _ _ _ _ _ Hnorm).
  now rewrite (average_by_genotype_all_missing _ _ _ Hmiss).
Qed.

Lemma group_pileups_no_dosage_witness :
  group_pileups (fun _ d => Ok d) (fun _ _ => Ok []) sequential_sum
    (mkDataFrame ["1"] [("A", [10]%float); ("B", [7]%float)])
    (<["A" := 2e6%float]> (<["B" := 1e6%float]> ∅))
    "chr1_100_A_G_b38" (GSeries [("A", None); ("B", None)]) None id (mkWorld ["home"] [])
  = (mkWorld ["home"] [], Raise (ValueError "No objects to concatenate")).
Proof.
  apply (group_pileups_no_dosage (fun _ d => Ok d) (fun _ _ => Ok []) sequential_sum
           (mkDataFrame ["1"] [("A", [10]%float); ("B", [7]%float)])
           (<["A" := 2e6%float]> (<["B" := 1e6%float]> ∅))
           "chr1_100_A_G_b38" [("A", None); ("B", None)] None id (mkWorld ["home"] [])
           (mkWorld ["home"] [])
           (mkDataFrame ["1"] [("A", [5]%float); ("B", [7]%float)])).
  - rewrite (norm_pileups_unfold _ _ _ _ _ [2e6; 1e6]%float); [|vm_compute; reflexivity].
    rewrite rename_id. vm_compute. reflexivity.
  - intros s i [H|[H|[]]]; discriminate H.
Defined.

(** ** Extraction: failures, shape, empty input *)

Lemma samtools_depth_outcome_seq isdir shell w region_str bam_s index_dir d n o :
  (1 <= n)%Z ->
  samtools_depth_outcome isdir shell w region_str bam_s index_dir d n o ->
  o = samtools_depth_seq isdir shell w region_str bam_s index_dir d.
Proof.
  intros Hn. unfold samtools_depth_outcome.
  destruct (Z.ltb_spec n 1) as [Hlt|_]; [lia|].
  intros (r & Hr & ->).
  now rewrite (imap_outcome_unique isdir shell w _ _ _ (pool_init_inv isdir shell w _ _) Hr).
Qed.

Lemma samtools_depth_outcome_exists isdir shell w region_str bam_s index_dir d n :
  (1 <= n)%Z ->
  samtools_depth_outcome isdir shell w region_str bam_s index_dir d n
    (samtools_depth_seq isdir shell w region_str bam_s index_dir d).
Proof.
  intros Hn. unfold samtools_depth_outcome.
  destruct (Z.ltb_spec n 1) as [Hlt|_]; [lia|].
  eexists. split; [apply imap_outcome_exists; lia|reflexivity].
Qed.

Lemma all_ok_map {A B} (f : A -> result B) (l : list A) :
  (forall a, In a l -> exists b, f a = Ok b) -> exists out, map f l = map Ok out.
Proof.
  induction l as [|a l IH]; intros Hok.
  - now exists [].
  - destruct (Hok a (or_introl eq_refl)) as (b & Hb).
    destruct IH as (out & Hout); [intros x Hx; apply Hok; now right|].
    exists (b :: out). simpl. now rewrite Hb, Hout.
Qed.

(** X10. One failing sample aborts the whole extraction: if, in input
    order, the samples before sample [j] are extracted without error and the
    task of [j] raises [e], then under every pool size and every interleaving
    [samtools_depth] raises that [e]; no table of the other samples is
    returned. *)
Theorem samtools_depth_first_failure isdir shell (w : World) region_str
    (bam_s : list (string * string)) index_dir d (num_threads : Z) pre j i post e o :
  (1 <= num_threads)%Z ->
  bam_s = pre ++ (j, i) :: post ->
  (forall t, In t (tasks_of region_str pre index_dir d) ->
             exists r, run_from isdir shell w t = Ok r) ->
  run_from isdir shell w (mkTask i region_str j index_dir d) = Raise e ->
  samtools_depth_outcome isdir shell w region_str bam_s index_dir d num_threads o ->
  o = Raise e.
Proof.
  intros Hn -> Hpre Hfail Hout.
  rewrite (samtools_depth_outcome_seq _ _ _ _ _ _ _ _ _ Hn Hout).
  unfold samtools_depth_seq, tasks_of. rewrite map_app. simpl.
  destruct (all_ok_map _ _ Hpre) as (out & Hok).
  unfold tasks_of in Hok.
  now rewrite (collect_first_raise _ _ _ _ _ e Hok Hfail).
Qed.

Lemma samtools_depth_first_failure_witness :
  samtools_depth_seq (fun _ => true) example_shell (mkWorld ["home"; "u"] [])
    "chr1:100-101" [("A", "a.bam"); ("C", "c.bam"); ("B", "b.bam")] None 100000
  = Raise (CalledProcessError 1 "samtools depth: could not open").
Proof.
  apply (samtools_depth_first_failure (fun _ => true) example_shell
           (mkWorld ["home"; "u"] []) "chr1:100-101"
           [("A", "a.bam"); ("C", "c.bam"); ("B", "b.bam")] None 100000 4
           [("A", "a.bam")] "C" "c.bam" [("B", "b.bam")]).
  - lia.
  - reflexivity.
  - intros t [<-|[]]. eexists. vm_compute. reflexivity.
  - vm_compute. reflexivity.
  - apply samtools_depth_outcome_exists. lia.
Defined.

(** X11. Without samples there is nothing to concatenate: for an empty
    [bam_s], under every pool size, [samtools_depth] raises
    [ValueError('No objects to concatenate')]. *)
Theorem samtools_depth_no_samples isdir shell (w : World) region_str index_dir d
    (num_threads : Z) o :
  (1 <= num_threads)%Z ->
  samtools_depth_outcome isdir shell w region_str [] index_dir d num_threads o ->
  o = Raise (ValueError "No objects to concatenate").
Proof.
  intros Hn Hout. now rewrite (samtools_depth_outcome_seq _ _ _ _ _ _ _ _ _ Hn Hout).
Qed.

Lemma samtools_depth_no_samples_witness :
  samtools_depth_seq (fun _ => true) example_shell (mkWorld ["home"; "u"] [])
    "chr1:100-101" [] None 100000
  = Raise (ValueError "No objects to concatenate").
Proof.
  apply (samtools_depth_no_samples (fun _ => true) example_shell
           (mkWorld ["home"; "u"] []) "chr1:100-101" None 100000 12).
  - lia.
  - apply samtools_depth_outcome_exists. lia.
Defined.

Lemma to_int32_range s z :
  to_int32 s = Ok z -> (-2147483648 <= z <= 2147483647)%Z.
Proof.
  unfold to_int32. destruct (py_int s) as [v|]; simpl; [|discriminate].
  destruct ((-2147483648 <=? v) && (v <=? 2147483647))%Z eqn:Hr; [|discriminate].
  intros [= <-]. apply andb_true_iff in Hr as [H1 H2]. lia.
Qed.

Lemma astype_int32_range fields rows :
  astype_int32 fields = Ok rows ->
  Forall (fun v => (-2147483648 <= v <= 2147483647)%Z) (map snd rows).
Proof.
  revert rows. induction fields as [|row fields IH]; intros rows H; simpl in H.
  - injection H as <-. constructor.
  - destruct row as [|chr [|pos [|depth [|x rest]]]]; try discriminate.
    destruct (to_int32 depth) as [v|] eqn:Hv; [|discriminate]. simpl in H.
    destruct (astype_int32 fields) as [rows'|]; [|discriminate]. simpl in H.
    injection H as <-. simpl. constructor; [now apply (to_int32_range depth)|now apply IH].
Qed.

Lemma parse_depth_lines_range sid c rows :
  parse_depth_lines sid c = Ok rows ->
  Forall (fun v => (-2147483648 <= v <= 2147483647)%Z) (map snd rows).
Proof.
  unfold parse_depth_lines. destruct (frame_rows c) as [fields|]; simpl; [|discriminate].
  destruct (index_labels sid); simpl; [|discriminate].
  apply astype_int32_range.
Qed.

(** A Series the wrapper returns carries the sample id, one depth per
    position, every depth an int32. *)
Lemma wrapper_ok_series isdir shell (t : Task) (w : World) (r : Series) :
  snd (_samtools_depth_wrapper isdir shell t w) = Ok r ->
  s_name r = sample_id t
  /\ List.length (s_values r) = List.length (s_index r)
  /\ Forall (fun v => (-2147483648 <= v <= 2147483647)%Z) (s_values r).
Proof.
  rewrite wrapper_unfold.
  set (call := match bam_index_dir t with
               | Some d => with_ (cd isdir d) (check_output shell (samtools_cmd t))
               | None => check_output shell (samtools_cmd t)
               end).
  destruct (call w) as [w' [out|e]]; simpl; [|discriminate].
  destruct (parse_depth_lines _ _) as [rows|] eqn:Hrows; simpl; [|discriminate].
  intros [= <-]. simpl. split; [reflexivity|]. split.
  - now rewrite !length_map.
  - now apply (parse_depth_lines_range _ _ _ Hrows).
Qed.

Lemma lookup_cell_value index values lab v :
  lookup_cell index values lab = Some v -> In v values.
Proof.
  revert values. induction index as [|l index IH]; intros [|x values] H; simpl in H;
    try discriminate.
  destruct (String.eqb l lab); [injection H as <-; now left|right; now apply IH].
Qed.

Lemma pd_concat_shape (l : list Series) table :
  Forall (fun s => List.length (s_values s) = List.length (s_index s)
                   /\ Forall (fun v => (-2147483648 <= v <= 2147483647)%Z) (s_values s)) l ->
  pd_concat l = Ok table ->
  shape1 table = List.length l
  /\ l <> []
  /\ Forall (fun c => List.length (snd c) = List.length (df_index table)
                      /\ Forall (fun cell => match cell with
                                             | Some v => (-2147483648 <= v <= 2147483647)%Z
                                             | None => True
                                             end) (snd c))
            (df_columns table).
Proof.
  intros Hwf. unfold pd_concat. destruct l as [|s0 rest]; [discriminate|].
  destruct (forallb _ rest) eqn:Hsame; intros Htab;
    apply (f_equal (fun r => match r with Ok t => t | Raise _ => table end)) in Htab;
    subst table; unfold shape1; cbn [df_columns df_index].
  - split; [now rewrite length_map|]. split; [discriminate|].
    assert (Hix : forall s, In s (s0 :: rest) -> s_index s = s_index s0).
    { intros s [<-|Hs]; [reflexivity|].
      rewrite forallb_forall in Hsame. apply Hsame in Hs. now apply bool_decide_eq_true in Hs. }
    apply List.Forall_forall. intros c Hc. apply in_map_iff in Hc as (s & <- & Hs).
    rewrite List.Forall_forall in Hwf. destruct (Hwf s Hs) as [Hlen Hrange]. simpl.
    split; [rewrite length_map, Hlen; now rewrite (Hix s Hs)|].
    apply List.Forall_forall. intros cell Hcell. apply in_map_iff in Hcell as (v & <- & Hv).
    rewrite List.Forall_forall in Hrange. now apply Hrange.
  - split; [now rewrite length_map|]. split; [discriminate|].
    apply List.Forall_forall. intros c Hc. apply in_map_iff in Hc as (s & <- & Hs).
    rewrite List.Forall_forall in Hwf. destruct (Hwf s Hs) as [Hlen Hrange]. simpl.
    split; [now rewrite length_map|].
    apply List.Forall_forall. intros cell Hcell. apply in_map_iff in Hcell as (lab & <- & _).
    destruct (lookup_cell (s_index s) (s_values s) lab) as [v|] eqn:Hv; [|exact I].
    rewrite List.Forall_forall in Hrange. apply Hrange. now apply (lookup_cell_value _ _ _ _ Hv).
Qed.

(** X12. A table [samtools_depth] returns has exactly one column per
    sample of [bam_s] (so at least one), every column has one cell per row
    of the index, and every depth in it lies in the int32 range. *)
Theorem samtools_depth_table_shape isdir shell (w : World) region_str
    (bam_s : list (string * string)) index_dir d (num_threads : Z) table :
  (1 <= num_threads)%Z ->
  samtools_depth_outcome isdir shell w region_str bam_s index_dir d num_threads (Ok table) ->
  shape1 table = List.length bam_s
  /\ bam_s <> []
  /\ Forall (fun c => List.length (snd c) = List.length (df_index table)
                      /\ Forall (fun cell => match cell with
                                             | Some v => (-2147483648 <= v <= 2147483647)%Z
                                             | None => True
                                             end) (snd c))
            (df_columns table).
Proof.
  intros Hn Hout. apply (samtools_depth_outcome_seq _ _ _ _ _ _ _ _ _ Hn) in Hout.
  symmetry in Hout. unfold samtools_depth_seq in Hout.
  destruct (collect _) as [l|] eqn:Hl; simpl in Hout; [|discriminate].
  apply collect_ok_Forall2 in Hl.
  assert (Hwf : Forall (fun s => List.length (s_values s) = List.length (s_index s)
                   /\ Forall (fun v => (-2147483648 <= v <= 2147483647)%Z) (s_values s)) l).
  { clear Hout. induction Hl as [|t r ts l Hr _ IH]; constructor; [|exact IH].
    now destruct (wrapper_ok_series _ _ _ _ _ Hr) as (_ & H1 & H2). }
  destruct (pd_concat_shape _ _ Hwf Hout) as (Hshape & Hne & Hcells).
  assert (Hlen : List.length l = List.length bam_s).
  { apply Forall2_length in Hl. unfold tasks_of in Hl. now rewrite length_map in Hl. }
  split; [congruence|]. split; [|exact Hcells].
  intros ->. destruct l; [now apply Hne|discriminate].
Qed.

Lemma samtools_depth_table_shape_witness :
  shape1 (mkDataFrame ["chr1_100"; "chr1_101"]
            [("B", [Some 0%Z; Some 12%Z]); ("A", [Some 5%Z; Some 7%Z])])
  = List.length [("B", "b.bam"); ("A", "a.bam")]
  /\ [("B", "b.bam"); ("A", "a.bam")] <> []
  /\ Forall (fun c => List.length (snd c) = 2
                      /\ Forall (fun cell => match cell with
                                             | Some v => (-2147483648 <= v <= 2147483647)%Z
                                             | None => True
                                             end) (snd c))
            [("B", [Some 0%Z; Some 12%Z]); ("A", [Some 5%Z; Some 7%Z])].
Proof.
  apply (samtools_depth_table_shape (fun _ => true) example_shell
           (mkWorld ["home"; "u"] []) "chr1:100-101" [("B", "b.bam"); ("A", "a.bam")]
           (Some (Abs ["data"; "idx"])) 100000 3
           (mkDataFrame ["chr1_100"; "chr1_101"]
              [("B", [Some 0%Z; Some 12%Z]); ("A", [Some 5%Z; Some 7%Z])])).
  - lia.
  - rewrite <- samtools_depth_two_samples. apply samtools_depth_outcome_exists. lia.
Defined.

(** ** The wrapper: missing directory, where the process ends up *)

(** X13. If the index directory does not exist, [os.chdir] raises
    [FileNotFoundError] on entering [cd]: the wrapper raises it as is,
    [samtools] is never started and the process state is untouched. *)
Theorem wrapper_missing_index_dir isdir shell (t : Task) (w : World) d :
  bam_index_dir t = Some d ->
  isdir (resolve (cwd w) d) = false ->
  _samtools_depth_wrapper isdir shell t w = (w, Raise (FileNotFoundError (path_str d))).
Proof.
  intros Hd Hdir. rewrite wrapper_unfold, Hd.
  unfold with_, cd, before_yield, bind, ret, os_getcwd, os_chdir. simpl.
  now rewrite Hdir.
Qed.

Lemma wrapper_missing_index_dir_witness :
  _samtools_depth_wrapper (fun p => bool_decide (p = ["home"; "u"])) example_shell
    (mkTask "a.bam" "chr1:100-101" "A" (Some (Rel ["idx"])) 100000)
    (mkWorld ["home"; "u"] [])
  = (mkWorld ["home"; "u"] [], Raise (FileNotFoundError "idx")).
Proof.
  apply (wrapper_missing_index_dir (fun p => bool_decide (p = ["home"; "u"])) example_shell
           (mkTask "a.bam" "chr1:100-101" "A" (Some (Rel ["idx"])) 100000)
           (mkWorld ["home"; "u"] []) (Rel ["idx"])); reflexivity.
Defined.

(** X14. Where the wrapper leaves the process. The working directory
    afterwards is the one before, unless an index directory was given and
    entered and then either [samtools] failed or the original directory no
    longer exists; in that case it is the index directory. A failure to
    parse the output never leaves the process in the index directory. In
    every case the only command run, if any, is the one [samtools depth]
    command of the task. *)
Theorem wrapper_working_directory isdir shell (t : Task) (w : World) :
  (cwd (fst (_samtools_depth_wrapper isdir shell t w)) = cwd w
   \/ exists d,
        bam_index_dir t = Some d
        /\ isdir (resolve (cwd w) d) = true
        /\ cwd (fst (_samtools_depth_wrapper isdir shell t w)) = resolve (cwd w) d
        /\ ((exists e, shell (samtools_cmd t) (resolve (cwd w) d) = Raise e)
            \/ isdir (cwd w) = false))
  /\ exists evs,
       trace (fst (_samtools_depth_wrapper isdir shell t w)) = trace w ++ evs
       /\ forall cmd dir, In (EvShell cmd dir) evs ->
            cmd = samtools_cmd t
            /\ dir = match bam_index_dir t with
                     | Some d => resolve (cwd w) d
                     | None => cwd w
                     end.
Proof.
  rewrite wrapper_unfold. destruct (bam_index_dir t) as [d|].
  - unfold with_, cd, before_yield, after_yield, bind, ret, os_getcwd, os_chdir, check_output.
    simpl. destruct (isdir (resolve (cwd w) d)) eqn:Hdir; simpl.
    + destruct (shell (samtools_cmd t) (resolve (cwd w) d)) as [out|e] eqn:Hout; simpl.
      * destruct (isdir (cwd w)) eqn:Hback; simpl.
        -- split; [now left|].
           exists ([EvChdir (resolve (cwd w) d)]
                     ++ [EvShell (samtools_cmd t) (resolve (cwd w) d)] ++ [EvChdir (cwd w)]).
           split; [now rewrite <- !app_assoc|].
           intros cmd dir [H|[H|[H|[]]]]; try discriminate H. now injection H as <- <-.
        -- split; [right; exists d; eauto 10|].
           exists ([EvChdir (resolve (cwd w) d)]
                     ++ [EvShell (samtools_cmd t) (resolve (cwd w) d)]).
           split; [now rewrite <- !app_assoc|].
           intros cmd dir [H|[H|[]]]; try discriminate H. now injection H as <- <-.
      * split; [right; exists d; eauto 10|].
        exists ([EvChdir (resolve (cwd w) d)]
                  ++ [EvShell (samtools_cmd t) (resolve (cwd w) d)]).
        split; [now rewrite <- !app_assoc|].
        intros cmd dir [H|[H|[]]]; try discriminate H. now injection H as <- <-.
    + split; [now left|]. exists []. split; [now rewrite app_nil_r|intros ? ? []].
  - unfold check_output.
    destruct (shell (samtools_cmd t) (cwd w)) as [out|e]; simpl;
      (split; [now left|]); exists [EvShell (samtools_cmd t) (cwd w)];
      (split; [reflexivity|]); intros cmd dir [H|[]]; now injection H as <- <-.
Qed.

(** ** The wrapper reads back what [samtools depth] prints *)

Lemma string_cons_app x (a b : string) : (String x a ++ b = String x (a ++ b))%string.
Proof. reflexivity. Qed.

Lemma string_app_assoc (a b c : string) : ((a ++ b) ++ c = a ++ (b ++ c))%string.
Proof.
  induction a as [|x a IH]; [reflexivity|]. rewrite !string_cons_app. now rewrite IH.
Qed.

Lemma chars_app (a b : string) :
  list_ascii_of_string (a ++ b)%string = list_ascii_of_string a ++ list_ascii_of_string b.
Proof.
  induction a as [|x a IH]; [reflexivity|]. rewrite string_cons_app. simpl. now rewrite IH.
Qed.

(** Text that starts and ends with something else than white space is
    what [strip] leaves of it followed by a newline. *)
Lemma strip_trailing_newline (c z : ascii) (rest init : string) :
  is_space c = false -> is_space z = false ->
  String c rest = (init ++ String z EmptyString)%string ->
  strip (String c rest ++ nl)%string = String c rest.
Proof.
  intros Hc Hz Hbody. unfold strip.
  assert (H1 : lstrip (list_ascii_of_string (String c rest ++ nl))
               = list_ascii_of_string (String c rest) ++ ["010"%char]).
  { rewrite chars_app. simpl. now rewrite Hc. }
  rewrite H1, rev_unit.
  assert (H2 : lstrip ("010"%char :: rev (list_ascii_of_string (String c rest)))
               = rev (list_ascii_of_string (String c rest))).
  { rewrite Hbody, chars_app. simpl list_ascii_of_string. rewrite rev_unit.
    change (lstrip ("010"%char :: z :: rev (list_ascii_of_string init)))
      with (if is_space z then lstrip (rev (list_ascii_of_string init))
            else z :: rev (list_ascii_of_string init)).
    now rewrite Hz. }
  rewrite H2, rev_involutive. apply string_of_list_ascii_of_string.
Qed.

Lemma no_space_ends (s : string) :
  s <> EmptyString -> no_space s ->
  exists init z, s = (init ++ String z EmptyString)%string /\ is_space z = false.
Proof.
  unfold no_space. induction s as [|x s IH]; intros Hne Hns; [contradiction|].
  simpl in Hns. apply Forall_cons in Hns as [Hx Hs].
  destruct s as [|y s].
  - exists EmptyString, x. now split.
  - destruct IH as (init & z & Heq & Hz); [discriminate|exact Hs|].
    exists (String x init), z. rewrite string_cons_app. now rewrite <- Heq.
Qed.

Lemma no_space_clean (sep : ascii) (s : string) :
  is_space sep = true -> no_space s -> ~ In sep (list_ascii_of_string s).
Proof.
  intros Hsep Hns Hin. unfold no_space in Hns. rewrite List.Forall_forall in Hns.
  specialize (Hns _ Hin). congruence.
Qed.

Lemma depth_line_fields (row : string * string * string) :
  no_space (fst (fst row)) -> no_space (snd (fst row)) -> no_space (snd row) ->
  split_on "009"%char (depth_line row) = [fst (fst row); snd (fst row); snd row].
Proof.
  intros H1 H2 H3. unfold depth_line, tab.
  change (fst (fst row) ++ String "009"%char EmptyString
            ++ snd (fst row) ++ String "009"%char EmptyString ++ snd row)%string
    with (fst (fst row) ++ String "009"%char
            (snd (fst row) ++ String "009"%char (snd row)))%string.
  rewrite split_on_app by (apply no_space_clean; [reflexivity|exact H1]).
  rewrite split_on_app by (apply no_space_clean; [reflexivity|exact H2]).
  rewrite split_on_clean by (apply no_space_clean; [reflexivity|exact H3]).
  reflexivity.
Qed.

Lemma depth_line_no_newline (row : string * string * string) :
  no_space (fst (fst row)) -> no_space (snd (fst row)) -> no_space (snd row) ->
  ~ In "010"%char (list_ascii_of_string (depth_line row)).
Proof.
  intros H1 H2 H3. unfold depth_line, tab. rewrite !chars_app. simpl.
  intros Hin. apply in_app_or in Hin as [Hin|[Hin|Hin]].
  - now apply (no_space_clean "010"%char _ eq_refl H1).
  - discriminate Hin.
  - apply in_app_or in Hin as [Hin|[Hin|Hin]].
    + now apply (no_space_clean "010"%char _ eq_refl H2).
    + discriminate Hin.
    + now apply (no_space_clean "010"%char _ eq_refl H3).
Qed.

Lemma depth_output_lines (row : string * string * string) rows :
  depth_output (row :: rows)
  = (join nl (map depth_line (row :: rows)) ++ nl)%string.
Proof.
  unfold depth_output, join. revert row. induction rows as [|r rows IH]; intros row.
  - simpl. reflexivity.
  - change (String.concat "" (map (fun row0 => (depth_line row0 ++ nl)%string) (row :: r :: rows)))
      with ((depth_line row ++ nl) ++ "" ++
            String.concat "" (map (fun row0 => (depth_line row0 ++ nl)%string) (r :: rows)))%string.
    rewrite IH.
    change (String.concat nl (map depth_line (row :: r :: rows)))
      with (depth_line row ++ nl ++ String.concat nl (map depth_line (r :: rows)))%string.
    simpl. now rewrite !string_app_assoc.
Qed.

Lemma depth_line_ends (row : string * string * string) :
  snd row <> EmptyString -> no_space (snd row) ->
  exists init z, depth_line row = (init ++ String z EmptyString)%string /\ is_space z = false.
Proof.
  intros Hne Hns. destruct (no_space_ends _ Hne Hns) as (init & z & Heq & Hz).
  exists (fst (fst row) ++ tab ++ snd (fst row) ++ tab ++ init)%string, z.
  split; [|exact Hz]. unfold depth_line. rewrite Heq.
  now rewrite !string_app_assoc.
Qed.

Lemma join_ends (lines : list string) :
  lines <> [] ->
  Forall (fun l => exists init z, l = (init ++ String z EmptyString)%string
                                  /\ is_space z = false) lines ->
  exists init z, join nl lines = (init ++ String z EmptyString)%string /\ is_space z = false.
Proof.
  unfold join. induction lines as [|l lines IH]; intros Hne Hall; [contradiction|].
  apply Forall_cons in Hall as [Hl Hrest]. destruct lines as [|l2 lines].
  - exact Hl.
  - destruct IH as (init & z & Heq & Hz); [discriminate|exact Hrest|].
    exists (l ++ nl ++ init)%string, z. split; [|exact Hz].
    change (String.concat nl (l :: l2 :: lines))
      with (l ++ nl ++ String.concat nl (l2 :: lines))%string.
    rewrite Heq. now rewrite !string_app_assoc.
Qed.

Lemma to_int32_nonempty s v : to_int32 s = Ok v -> s <> EmptyString.
Proof. intros H ->. vm_compute in H. discriminate H. Qed.

(** The text printed for well-formed rows is, once stripped and split into
    lines, the lines of the rows. *)
Lemma depth_output_stripped (rows : list (string * string * string)) :
  rows <> [] ->
  Forall (fun row => fst (fst row) <> EmptyString /\ no_space (fst (fst row))
                     /\ no_space (snd (fst row))
                     /\ snd row <> EmptyString /\ no_space (snd row)) rows ->
  split_on "010"%char (strip (depth_output rows)) = map depth_line rows.
Proof.
  intros Hne Hwf. destruct rows as [|row rows]; [contradiction|].
  rewrite depth_output_lines.
  assert (Hends : exists init z,
             join nl (map depth_line (row :: rows)) = (init ++ String z EmptyString)%string
             /\ is_space z = false).
  { apply join_ends; [discriminate|].
    apply List.Forall_forall. intros l Hl. apply in_map_iff in Hl as (r & <- & Hr).
    rewrite List.Forall_forall in Hwf. destruct (Hwf r Hr) as (_ & _ & _ & Hd & Hns).
    now apply depth_line_ends. }
  destruct Hends as (init & z & Hbody & Hz).
  assert (Hhead : exists c rest,
             join nl (map depth_line (row :: rows)) = String c rest /\ is_space c = false).
  { apply Forall_cons in Hwf as [(Hchr & Hns & _) _].
    destruct row as [[chr pos] depth]. simpl in Hchr, Hns.
    destruct chr as [|c chr]; [contradiction|].
    unfold no_space in Hns. simpl in Hns. apply Forall_cons in Hns as [Hc _].
    exists c. destruct rows as [|r rows]; eexists; (split; [reflexivity|exact Hc]). }
  destruct Hhead as (c & rest & Hhead & Hc).
  rewrite Hhead in Hbody. rewrite Hhead.
  rewrite (strip_trailing_newline c z rest init Hc Hz Hbody). rewrite <- Hhead.
  apply (split_join "010"%char); [discriminate|].
  apply List.Forall_forall. intros l Hl. apply in_map_iff in Hl as (r & <- & Hr).
  rewrite List.Forall_forall in Hwf. destruct (Hwf r Hr) as (_ & H1 & H2 & _ & H3).
  now apply depth_line_no_newline.
Qed.

Lemma frame_rows_depth_lines (rows : list (string * string * string)) :
  rows <> [] ->
  Forall (fun row => no_space (fst (fst row)) /\ no_space (snd (fst row))
                     /\ no_space (snd row)) rows ->
  frame_rows (map depth_line rows)
  = Ok (map (fun row => [fst (fst row); snd (fst row); snd row]) rows).
Proof.
  intros Hne Hwf. unfold frame_rows.
  assert (Hsplit : map (split_on "009"%char) (map depth_line rows)
                   = map (fun row => [fst (fst row); snd (fst row); snd row]) rows).
  { clear Hne. induction Hwf as [|row rows (H1 & H2 & H3) _ IH]; [reflexivity|].
    simpl. now rewrite (depth_line_fields row H1 H2 H3), IH. }
  rewrite Hsplit.
  assert (Hw : list_max (map (@List.length string)
                             (map (fun row : string * string * string =>
                                     [fst (fst row); snd (fst row); snd row]) rows)) = 3).
  { destruct rows as [|row rows]; [contradiction|]. simpl.
    assert (Hle : list_max (map (@List.length string)
                                (map (fun row : string * string * string =>
                                        [fst (fst row); snd (fst row); snd row]) rows)) <= 3).
    { apply list_max_le. apply List.Forall_forall. intros k Hk.
      apply in_map_iff in Hk as (fs & <- & Hfs). apply in_map_iff in Hfs as (r & <- & _).
      simpl. lia. }
    lia. }
  now rewrite Hw.
Qed.

Lemma astype_int32_rows (rows : list (string * string * string)) values :
  Forall2 (fun row v => to_int32 (snd row) = Ok v) rows values ->
  astype_int32 (map (fun row => [fst (fst row); snd (fst row); snd row]) rows)
  = Ok (combine (map (fun row => (fst (fst row) ++ "_" ++ snd (fst row))%string) rows) values).
Proof.
  induction 1 as [|row v rows values Hv _ IH]; [reflexivity|].
  simpl. rewrite Hv. simpl. now rewrite IH.
Qed.

Lemma index_labels_ok (sid : string) :
  sid <> "chr" -> sid <> "pos" -> index_labels sid = Ok tt.
Proof.
  intros H1 H2. unfold index_labels.
  destruct (String.eqb_spec sid "chr"); [contradiction|].
  destruct (String.eqb_spec sid "pos"); [contradiction|]. reflexivity.
Qed.

Lemma parse_depth_lines_rows sid (rows : list (string * string * string)) values :
  sid <> "chr" -> sid <> "pos" ->
  rows <> [] ->
  Forall (fun row => no_space (fst (fst row)) /\ no_space (snd (fst row))
                     /\ no_space (snd row)) rows ->
  Forall2 (fun row v => to_int32 (snd row) = Ok v) rows values ->
  parse_depth_lines sid (map depth_line rows)
  = Ok (combine (map (fun row => (fst (fst row) ++ "_" ++ snd (fst row))%string) rows) values).
Proof.
  intros H1 H2 Hne Hwf Hval. unfold parse_depth_lines.
  rewrite (frame_rows_depth_lines rows Hne Hwf). simpl.
  rewrite (index_labels_ok sid H1 H2). simpl.
  now apply astype_int32_rows.
Qed.

Lemma combine_fst_snd {A B} (l : list A) (k : list B) :
  List.length l = List.length k ->
  map fst (combine l k) = l /\ map snd (combine l k) = k.
Proof.
  revert k. induction l as [|a l IH]; intros [|b k] Hlen; simpl in *; try discriminate.
  - now split.
  - destruct (IH k) as [H1 H2]; [lia|]. now rewrite H1, H2.
Qed.

(** X15. The wrapper reads back what [samtools depth] prints. If the tool
    prints one line [chr TAB pos TAB depth] per position, the fields free of
    white space, the chromosome not empty and every depth a decimal int32,
    then for a sample whose id is not one of the column names [chr] and
    [pos] the wrapper returns the Series named after the sample whose index
    is [chr_pos] and whose values are those depths, in the order printed. *)
Theorem wrapper_reads_depth_output isdir shell (t : Task) (w : World)
    (rows : list (string * string * string)) (values : list Z) :
  sample_id t <> "chr" ->
  sample_id t <> "pos" ->
  rows <> [] ->
  Forall (fun row => fst (fst row) <> EmptyString /\ no_space (fst (fst row))
                     /\ no_space (snd (fst row)) /\ no_space (snd row)) rows ->
  Forall2 (fun row v => to_int32 (snd row) = Ok v) rows values ->
  match bam_index_dir t with
  | None => shell (samtools_cmd t) (cwd w) = Ok (depth_output rows)
  | Some d =>
      isdir (resolve (cwd w) d) = true /\ isdir (cwd w) = true
      /\ shell (samtools_cmd t) (resolve (cwd w) d) = Ok (depth_output rows)
  end ->
  snd (_samtools_depth_wrapper isdir shell t w)
  = Ok (mkSeries (sample_id t)
          (map (fun row => (fst (fst row) ++ "_" ++ snd (fst row))%string) rows)
          values).
Proof.
  intros Hchr Hpos Hne Hwf Hval Hout.
  assert (Hwf' : Forall (fun row => fst (fst row) <> EmptyString /\ no_space (fst (fst row))
                     /\ no_space (snd (fst row))
                     /\ snd row <> EmptyString /\ no_space (snd row)) rows).
  { clear Hne Hout. induction Hval as [|row v rows values Hv _ IH]; [constructor|].
    apply Forall_cons in Hwf as [(H0 & H1 & H2 & H3) Hwf].
    constructor; [|now apply IH].
    repeat split; try assumption. now apply (to_int32_nonempty _ v). }
  assert (Hparse : (let? parsed := parse_depth_lines (sample_id t)
                                     (split_on "010"%char (strip (depth_output rows))) in
                    Ok (mkSeries (sample_id t) (map fst parsed) (map snd parsed)))
                   = Ok (mkSeries (sample_id t)
                           (map (fun row => (fst (fst row) ++ "_" ++ snd (fst row))%string) rows)
                           values)).
  { rewrite (depth_output_stripped rows Hne Hwf').
    rewrite (parse_depth_lines_rows (sample_id t) rows values Hchr Hpos Hne); [|
      eapply Forall_impl; [exact Hwf|]; intros row (_ & H1 & H2 & H3); auto|exact Hval].
    simpl.
    destruct (combine_fst_snd
                (map (fun row => (fst (fst row) ++ "_" ++ snd (fst row))%string) rows) values)
      as [-> ->]; [|reflexivity].
    apply Forall2_length in Hval. now rewrite length_map. }
  rewrite wrapper_unfold. destruct (bam_index_dir t) as [d|].
  - destruct Hout as (Hdir & Hback & Hout).
    unfold with_, cd, before_yield, after_yield, bind, ret, os_getcwd, os_chdir, check_output.
    simpl. rewrite Hdir. simpl. rewrite Hout, Hback. simpl. exact Hparse.
  - unfold check_output. rewrite Hout. simpl. exact Hparse.
Qed.

Lemma wrapper_reads_depth_output_witness :
  snd (_samtools_depth_wrapper (fun _ => true)
         (fun _ _ => Ok (depth_output [("chr1", "100", "5"); ("chr1", "101", "17")]))
         (mkTask "a.bam" "chr1:100-101" "A" (Some (Abs ["data"; "idx"])) 100000)
         (mkWorld ["home"] []))
  = Ok (mkSeries "A" ["chr1_100"; "chr1_101"] [5; 17]%Z).
Proof.
  apply (wrapper_reads_depth_output (fun _ => true)
           (fun _ _ => Ok (depth_output [("chr1", "100", "5"); ("chr1", "101", "17")]))
           (mkTask "a.bam" "chr1:100-101" "A" (Some (Abs ["data"; "idx"])) 100000)
           (mkWorld ["home"] [])
           [("chr1", "100", "5"); ("chr1", "101", "17")] [5; 17]%Z).
  - discriminate.
  - discriminate.
  - discriminate.
  - repeat constructor; try discriminate.
  - repeat constructor.
  - simpl. repeat split.
Defined.

(** A sample named like one of the two fixed columns cannot be read back:
    whatever [samtools depth] prints, the wrapper raises. *)
Lemma wrapper_sample_named_like_a_column isdir shell (t : Task) (w : World) :
  sample_id t = "chr" \/ sample_id t = "pos" ->
  exists e, snd (_samtools_depth_wrapper isdir shell t w) = Raise e.
Proof.
  intros Hid. rewrite wrapper_unfold.
  set (call := match bam_index_dir t with
               | Some d => with_ (cd isdir d) (check_output shell (samtools_cmd t))
               | None => check_output shell (samtools_cmd t)
               end).
  destruct (call w) as [w' [out|e]]; simpl; [|eauto].
  unfold parse_depth_lines. destruct (frame_rows _) as [fields|e]; simpl; [|eauto].
  unfold index_labels. destruct Hid as [-> | ->]; simpl; eauto.
Qed.

(** ** Drawing: which traces, in which order *)

Lemma label_eqb_eq (a b : Label) : label_eqb a b = true <-> a = b.
Proof.
  destruct a as [x|x], b as [y|y]; simpl.
  - rewrite Z.eqb_eq. split; congruence.
  - split; discriminate.
  - split; discriminate.
  - rewrite String.eqb_eq. split; congruence.
Qed.

Lemma label_eqb_sym (a b : Label) : label_eqb a b = label_eqb b a.
Proof.
  destruct a as [x|x], b as [y|y]; simpl; try reflexivity.
  - apply Z.eqb_sym.
  - apply String.eqb_sym.
Qed.

Lemma collect_map_ok {A B} (f : A -> result B) (g : A -> B) (l : list A) :
  (forall a, In a l -> f a = Ok (g a)) -> collect (map f l) = Ok (map g l).
Proof.
  induction l as [|a l IH]; intros Hall; simpl; [reflexivity|].
  rewrite (Hall a (or_introl eq_refl)). simpl.
  rewrite IH; [reflexivity|]. intros x Hx. apply Hall. now right.
Qed.

Lemma Forall2_In_l {A B} (P : A -> B -> Prop) (l : list A) (out : list B) a :
  Forall2 P l out -> In a l -> exists b, P a b.
Proof.
  induction 1 as [|x y l out Hxy _ IH]; intros Hin; [contradiction|].
  destruct Hin as [<-|Hin]; [eauto|now apply IH].
Qed.

Lemma collect_raise_inv {A B} (f : A -> result B) (l : list A) e :
  collect (map f l) = Raise e -> exists a, In a l /\ f a = Raise e.
Proof.
  induction l as [|a l IH]; simpl; [discriminate|].
  destruct (f a) as [b|e'] eqn:Ha; simpl.
  - destruct (collect (map f l)) as [rest|e'']; simpl; [discriminate|].
    intros [= <-]. destruct IH as (x & Hx & Hfx); [reflexivity|]. exists x. auto.
  - intros [= <-]. exists a. auto.
Qed.

(** The columns that carry a label, counted on the labels alone. *)
Lemma columns_of_labels (cols : list (Label * list float)) (i : Label) :
  map (fun _ => i) (columns_of cols i) = List.filter (label_eqb i) (map fst cols).
Proof.
  unfold columns_of. induction cols as [|[l vs] cols IH]; simpl; [reflexivity|].
  rewrite (label_eqb_sym i l). destruct (label_eqb l i) eqn:Heq; simpl; [|exact IH].
  apply label_eqb_eq in Heq. subst l. now rewrite IH.
Qed.

Lemma columns_of_length (d : Table) (i : Label) :
  List.length (columns_of (df_columns d) i)
  = List.length (List.filter (label_eqb i) (columns d)).
Proof.
  unfold columns. rewrite <- columns_of_labels. now rewrite length_map.
Qed.

Lemma columns_of_In (cols : list (Label * list float)) (i : Label) y :
  In y (columns_of cols i) <-> exists c, In c cols /\ fst c = i /\ snd c = y.
Proof.
  unfold columns_of. rewrite in_map_iff. split.
  - intros (c & <- & Hc). apply filter_In in Hc as [Hc Heq].
    apply label_eqb_eq in Heq. eauto.
  - intros (c & Hc & Hi & <-). exists c. split; [reflexivity|].
    apply filter_In. split; [exact Hc|]. now apply label_eqb_eq.
Qed.

Lemma has_column_false (d : Table) (i : Label) :
  has_column d i = false -> columns_of (df_columns d) i = [].
Proof.
  intros Hno. destruct (columns_of (df_columns d) i) as [|y ys] eqn:Hcols; [reflexivity|].
  exfalso. assert (Hy : In y (columns_of (df_columns d) i)) by (rewrite Hcols; now left).
  apply columns_of_In in Hy as (c & Hc & Hci & _).
  apply not_true_iff_false in Hno. apply Hno. unfold has_column, columns.
  apply existsb_exists. exists (fst c). split; [now apply in_map|].
  apply label_eqb_eq. now symmetry.
Qed.

Lemma has_column_true (d : Table) (i : Label) :
  has_column d i = true -> columns_of (df_columns d) i <> [].
Proof.
  unfold has_column, columns. intros Hcol Hnil.
  apply existsb_exists in Hcol as (l & Hl & Heq). apply label_eqb_eq in Heq. subst l.
  apply in_map_iff in Hl as (c & Hci & Hc).
  assert (H : In (snd c) (columns_of (df_columns d) i))
    by (apply columns_of_In; eauto).
  rewrite Hnil in H. exact H.
Qed.

(** One label: what is drawn when the call goes through, and when it does. *)
Lemma draw_label_ok outline k (d : Table) (i : Label) drawn :
  draw_label outline k d i = Ok drawn ->
  drawn = map (mkTrace k i outline) (columns_of (df_columns d) i).
Proof.
  unfold draw_label. destruct (has_column d i) eqn:Hcol.
  - destruct (columns_of (df_columns d) i) as [|y [|y' ys]]; destruct outline;
      intros [= <-]; reflexivity.
  - intros [= <-]. now rewrite (has_column_false d i Hcol).
Qed.

Lemma draw_label_runs outline k (d : Table) (i : Label) :
  outline = true \/ List.length (columns_of (df_columns d) i) <= 1 ->
  draw_label outline k d i = Ok (map (mkTrace k i outline) (columns_of (df_columns d) i)).
Proof.
  intros Hok. unfold draw_label. destruct (has_column d i) eqn:Hcol.
  - pose proof (has_column_true d i Hcol) as Hne.
    destruct (columns_of (df_columns d) i) as [|y [|y' ys]];
      [contradiction|reflexivity|].
    destruct Hok as [->|Hok]; [reflexivity|]. simpl in Hok. lia.
  - now rewrite (has_column_false d i Hcol).
Qed.

Lemma draw_label_raise_inv outline k (d : Table) (i : Label) e :
  draw_label outline k d i = Raise e ->
  outline = false /\ List.length (columns_of (df_columns d) i) <> 1
  /\ exists msg, e = ValueError msg.
Proof.
  unfold draw_label. destruct (has_column d i); [|discriminate].
  destruct (columns_of (df_columns d) i) as [|y [|y' ys]]; destruct outline;
    try discriminate; intros [= <-]; (split; [reflexivity|]); (split; [simpl; lia|]); eauto.
Qed.

Lemma draw_label_refuses k (d : Table) (i : Label) :
  2 <= List.length (columns_of (df_columns d) i) ->
  exists msg, draw_label false k d i = Raise (ValueError msg).
Proof.
  intros Hlen. unfold draw_label.
  assert (Hcol : has_column d i = true).
  { destruct (has_column d i) eqn:Hcol; [reflexivity|].
    rewrite (has_column_false d i Hcol) in Hlen. simpl in Hlen. lia. }
  rewrite Hcol. destruct (columns_of (df_columns d) i) as [|y [|y' ys]];
    simpl in Hlen; try lia. eauto.
Qed.

(** One panel. *)
Lemma draw_panel_ok outline k (d : Table) sorder drawn :
  draw_panel outline k d sorder = Ok drawn ->
  drawn = flat_map (fun i => map (mkTrace k i outline) (columns_of (df_columns d) i)) sorder.
Proof.
  unfold draw_panel. destruct (collect _) as [parts|] eqn:Hparts; simpl; [|discriminate].
  intros [= <-]. apply collect_ok_Forall2 in Hparts.
  induction Hparts as [|i part sorder parts Hi _ IH]; simpl; [reflexivity|].
  now rewrite (draw_label_ok _ _ _ _ _ Hi), IH.
Qed.

Lemma draw_panel_runs outline k (d : Table) sorder :
  (outline = true
   \/ forall i, In i sorder -> List.length (columns_of (df_columns d) i) <= 1) ->
  draw_panel outline k d sorder
  = Ok (flat_map (fun i => map (mkTrace k i outline) (columns_of (df_columns d) i)) sorder).
Proof.
  intros Hok. unfold draw_panel.
  rewrite (collect_map_ok _ (fun i => map (mkTrace k i outline)
                                          (columns_of (df_columns d) i))).
  - simpl. now rewrite flat_map_concat_map.
  - intros i Hi. apply draw_label_runs. destruct Hok as [Hok|Hok]; [now left|].
    right. now apply Hok.
Qed.

Lemma draw_panel_raise_inv outline k (d : Table) sorder e :
  draw_panel outline k d sorder = Raise e ->
  outline = false
  /\ (exists i, In i sorder /\ List.length (columns_of (df_columns d) i) <> 1)
  /\ exists msg, e = ValueError msg.
Proof.
  unfold draw_panel. destruct (collect _) as [parts|e'] eqn:Hparts; simpl; [discriminate|].
  intros [= <-]. apply collect_raise_inv in Hparts as (i & Hi & Hraise).
  apply draw_label_raise_inv in Hraise as (Hout & Hlen & Hmsg).
  split; [exact Hout|]. split; [eauto|exact Hmsg].
Qed.

Lemma indexed_In {A} (l : list A) k (x : A) :
  In (k, x) (combine (seq 0 (List.length l)) l) <-> l !! k = Some x.
Proof.
  assert (H : forall n, In (k, x) (combine (seq n (List.length l)) l)
                        <-> n <= k /\ l !! (k - n) = Some x).
  { induction l as [|a l IH]; intros n; simpl.
    - split; [intros []|intros [_ H]; discriminate H].
    - rewrite IH. split.
      + intros [[= <- <-]|[Hle Hl]].
        * split; [lia|]. now rewrite Nat.sub_diag.
        * split; [lia|]. replace (k - n) with (S (k - S n)) by lia. exact Hl.
      + intros [Hle Hl]. destruct (decide (k = n)) as [->|Hne].
        * rewrite Nat.sub_diag in Hl. left. simpl in Hl. congruence.
        * right. split; [lia|]. replace (k - n) with (S (k - S n)) in Hl by lia. exact Hl. }
  rewrite H, Nat.sub_0_r. intuition lia.
Qed.

(** All the panels. *)
Lemma draw_traces_ok outline (pileup_dfs : list Table) sorder traces :
  draw_traces outline pileup_dfs sorder = Ok traces ->
  traces
  = flat_map (fun kd => flat_map (fun i => map (mkTrace (fst kd) i outline)
                                               (columns_of (df_columns (snd kd)) i)) sorder)
             (combine (seq 0 (List.length pileup_dfs)) pileup_dfs).
Proof.
  unfold draw_traces. destruct (collect _) as [parts|] eqn:Hparts; simpl; [|discriminate].
  intros [= <-]. apply collect_ok_Forall2 in Hparts.
  induction Hparts as [|kd part kds parts Hkd _ IH]; simpl; [reflexivity|].
  now rewrite (draw_panel_ok _ _ _ _ _ Hkd), IH.
Qed.

Lemma draw_traces_runs outline (pileup_dfs : list Table) sorder :
  (outline = true
   \/ forall d i, In d pileup_dfs -> In i sorder ->
                  List.length (columns_of (df_columns d) i) <= 1) ->
  draw_traces outline pileup_dfs sorder
  = Ok (flat_map (fun kd => flat_map (fun i => map (mkTrace (fst kd) i outline)
                                                   (columns_of (df_columns (snd kd)) i))
                                     sorder)
                 (combine (seq 0 (List.length pileup_dfs)) pileup_dfs)).
Proof.
  intros Hok. unfold draw_traces.
  rewrite (collect_map_ok _
             (fun kd : nat * Table =>
                flat_map (fun i => map (mkTrace (fst kd) i outline)
                                       (columns_of (df_columns (snd kd)) i)) sorder)).
  - simpl. now rewrite flat_map_concat_map.
  - intros [k d] Hkd. simpl. apply draw_panel_runs.
    destruct Hok as [Hok|Hok]; [now left|]. right. intros i Hi.
    apply (Hok d i); [|exact Hi]. now apply in_combine_r in Hkd.
Qed.

Lemma draw_traces_In outline (pileup_dfs : list Table) sorder traces tr :
  draw_traces outline pileup_dfs sorder = Ok traces ->
  (In tr traces <->
   exists d c,
     pileup_dfs !! tr_panel tr = Some d
     /\ In (tr_label tr) sorder
     /\ In c (df_columns d) /\ fst c = tr_label tr
     /\ tr_outline tr = outline /\ tr_y tr = snd c).
Proof.
  intros Hrun. rewrite (draw_traces_ok _ _ _ _ Hrun). rewrite in_flat_map. split.
  - intros ([k d] & Hkd & Htr). simpl in Htr.
    apply in_flat_map in Htr as (i & Hi & Htr). apply in_map_iff in Htr as (y & <- & Hy).
    apply columns_of_In in Hy as (c & Hc & Hci & Hcy). apply indexed_In in Hkd.
    exists d, c. simpl. auto 10.
  - intros (d & c & Hd & Hi & Hc & Hci & Hout & Hy). exists (tr_panel tr, d).
    split; [now apply indexed_In|]. simpl. apply in_flat_map. exists (tr_label tr).
    split; [exact Hi|]. apply in_map_iff. exists (tr_y tr). split.
    + destruct tr; simpl in *. now subst.
    + apply columns_of_In. exists c. auto.
Qed.

Lemma filter_none {A} (f : A -> bool) (l : list A) :
  (forall x, In x l -> f x = false) -> List.filter f l = [].
Proof.
  induction l as [|x l IH]; intros Hall; simpl; [reflexivity|].
  rewrite (Hall x (or_introl eq_refl)). apply IH. intros y Hy. apply Hall. now right.
Qed.

Lemma filter_every {A} (f : A -> bool) (l : list A) :
  (forall x, In x l -> f x = true) -> List.filter f l = l.
Proof.
  induction l as [|x l IH]; intros Hall; simpl; [reflexivity|].
  rewrite (Hall x (or_introl eq_refl)). f_equal. apply IH. intros y Hy. apply Hall. now right.
Qed.

(** The traces of panel [k] among all the traces. *)
Lemma panel_of_traces outline (pileup_dfs : list Table) sorder k (d : Table) :
  pileup_dfs !! k = Some d ->
  List.filter (fun tr => Nat.eqb (tr_panel tr) k)
    (flat_map (fun kd => flat_map (fun i => map (mkTrace (fst kd) i outline)
                                                (columns_of (df_columns (snd kd)) i)) sorder)
              (combine (seq 0 (List.length pileup_dfs)) pileup_dfs))
  = flat_map (fun i => map (mkTrace k i outline) (columns_of (df_columns d) i)) sorder.
Proof.
  assert (Hpanel : forall k' (d' : Table) tr,
            In tr (flat_map (fun i => map (mkTrace k' i outline)
                                          (columns_of (df_columns d') i)) sorder) ->
            tr_panel tr = k').
  { intros k' d' tr Htr. apply in_flat_map in Htr as (i & _ & Htr).
    now apply in_map_iff in Htr as (y & <- & _). }
  assert (Hgen : forall n, n <= k -> pileup_dfs !! (k - n) = Some d ->
            List.filter (fun tr => Nat.eqb (tr_panel tr) k)
              (flat_map (fun kd => flat_map (fun i => map (mkTrace (fst kd) i outline)
                                                (columns_of (df_columns (snd kd)) i)) sorder)
                        (combine (seq n (List.length pileup_dfs)) pileup_dfs))
            = flat_map (fun i => map (mkTrace k i outline) (columns_of (df_columns d) i))
                       sorder).
  { induction pileup_dfs as [|d0 dfs IH]; intros n Hn Hd; [discriminate|].
    simpl. rewrite List.filter_app. destruct (decide (k = n)) as [->|Hne].
    - rewrite Nat.sub_diag in Hd. simpl in Hd. injection Hd as ->.
      rewrite filter_every.
      + rewrite filter_none; [now rewrite app_nil_r|].
        intros tr Htr. apply in_flat_map in Htr as ([k' d'] & Hkd & Htr).
        apply Hpanel in Htr. simpl in Htr. apply in_combine_l in Hkd. apply in_seq in Hkd.
        apply Nat.eqb_neq. lia.
      + intros tr Htr. apply Hpanel in Htr. simpl in Htr. now apply Nat.eqb_eq.
    - rewrite filter_none.
      + simpl. apply IH; [lia|]. replace (k - n) with (S (k - S n)) in Hd by lia. exact Hd.
      + intros tr Htr. apply Hpanel in Htr. simpl in Htr. apply Nat.eqb_neq. lia. }
  intros Hd. apply (Hgen 0); [lia|]. now rewrite Nat.sub_0_r.
Qed.


(** Two columns under one label, as [norm_pileups] leaves them when
    [id_map] sends two samples to the same name: [ax.plot] draws both,
    [ax.fill_between] raises. *)
Example draw_traces_repeated_label :
  draw_traces true
    [mkDataFrame ["1"] [(LStr "S-1", [1]%float); (LStr "S-1", [2]%float)]] [LStr "S-1"]
  = Ok [mkTrace 0 (LStr "S-1") true [1]%float; mkTrace 0 (LStr "S-1") true [2]%float]
  /\ draw_traces false
       [mkDataFrame ["1"] [(LStr "S-1", [1]%float); (LStr "S-1", [2]%float)]] [LStr "S-1"]
     = Raise (ValueError "'y1' is not 1-dimensional").
Proof. split; reflexivity. Qed.

(** ** The order argument *)

Lemma sum_at_In (s : list (Label * float)) l v :
  In v (sum_at s l) -> In (l, v) s.
Proof.
  unfold sum_at. intros Hin. apply in_map_iff in Hin as ([l' v'] & <- & Hc).
  apply filter_In in Hc as [Hc Heq]. simpl in Heq. apply label_eqb_eq in Heq. now subst.
Qed.

Lemma sum_at_length (s : list (Label * float)) l :
  List.length (sum_at s l) = List.length (List.filter (label_eqb l) (map fst s)).
Proof.
  unfold sum_at. rewrite length_map.
  induction s as [|[l' v] s IH]; simpl; [reflexivity|].
  rewrite (label_eqb_sym l l'). destruct (label_eqb l' l); simpl; now rewrite IH.
Qed.

Lemma column_sums_labels Sum (d : Table) : map fst (column_sums Sum d) = columns d.
Proof. unfold column_sums, columns. rewrite map_map. reflexivity. Qed.

(** The comparison of line 163 goes through exactly when both labels are
    carried once. *)
Lemma first_lt_last_once (s : list (Label * float)) (x y : Label) :
  List.length (List.filter (label_eqb x) (map fst s)) = 1 ->
  List.length (List.filter (label_eqb y) (map fst s)) = 1 ->
  exists a b, sum_at s x = [a] /\ sum_at s y = [b]
              /\ first_lt_last s x y = Ok (a <? b)%float.
Proof.
  rewrite <- !sum_at_length. intros Hx Hy. unfold first_lt_last.
  destruct (sum_at s x) as [|a [|a' xs]]; try discriminate.
  destruct (sum_at s y) as [|b [|b' ys]]; try discriminate.
  exists a, b. auto.
Qed.

Lemma first_lt_last_repeated (s : list (Label * float)) (x y : Label) :
  In x (map fst s) -> In y (map fst s) ->
  2 <= List.length (List.filter (label_eqb x) (map fst s))
  \/ 2 <= List.length (List.filter (label_eqb y) (map fst s)) ->
  exists msg, first_lt_last s x y = Raise (ValueError msg).
Proof.
  intros Hinx Hiny. rewrite <- !sum_at_length. intros Hrep. unfold first_lt_last.
  assert (Hpos : forall l, In l (map fst s) -> sum_at s l <> []).
  { intros l Hl Hnil. apply in_map_iff in Hl as ([l' v] & <- & Hc). simpl in Hnil.
    assert (H : In v (sum_at s l')).
    { unfold sum_at. apply in_map_iff. exists (l', v). split; [reflexivity|].
      apply filter_In. split; [exact Hc|]. now apply label_eqb_eq. }
    rewrite Hnil in H. exact H. }
  pose proof (Hpos x Hinx) as Hx. pose proof (Hpos y Hiny) as Hy.
  destruct (sum_at s x) as [|a [|a' xs]]; [contradiction| |];
    destruct (sum_at s y) as [|b [|b' ys]]; try contradiction; simpl in Hrep;
    try (destruct Hrep; lia); try destruct (label_eqb x y); eauto.
Qed.

(** X17. When the trace order cannot be determined. With no table at all
    [plot] raises [IndexError]; so does ['additive'] on a first table without
    columns; a string other than ['additive'], ['sorted'] and ['none'] leaves
    [sorder] unbound and raises [NameError] (Python's [UnboundLocalError],
    a [NameError]) at the drawing loop instead of falling back to a default.
    ['additive'] compares the totals under the first and the last label of
    the first table: it finds an order when each of the two labels is
    carried by one column, and raises [ValueError] when one of them is
    repeated, for then [s[label]] is a Series and the comparison has no
    truth value. In every other case an order is found: an explicit list is
    taken as it is, and ['none'] gives the columns of the first table in
    their order. *)
Theorem sorder_of_errors Sum :
  (forall order, sorder_of Sum order [] = Raise (IndexError "list index out of range"))
  /\ (forall (first : Table) rest,
        df_columns first = [] ->
        sorder_of Sum (OStr "additive") (first :: rest)
        = Raise (IndexError "index 0 is out of bounds for axis 0 with size 0"))
  /\ (forall o (first : Table) rest,
        o <> "additive" -> o <> "sorted" -> o <> "none" ->
        sorder_of Sum (OStr o) (first :: rest) = Raise (NameError "sorder"))
  /\ (forall (first : Table) rest x y,
        head (columns first) = Some x -> last (columns first) = Some y ->
        (List.length (List.filter (label_eqb x) (columns first)) = 1
         /\ List.length (List.filter (label_eqb y) (columns first)) = 1 ->
         exists l, sorder_of Sum (OStr "additive") (first :: rest) = Ok l)
        /\ (2 <= List.length (List.filter (label_eqb x) (columns first))
            \/ 2 <= List.length (List.filter (label_eqb y) (columns first)) ->
            exists msg,
              sorder_of Sum (OStr "additive") (first :: rest) = Raise (ValueError msg)))
  /\ (forall (first : Table) rest,
        exists l, sorder_of Sum (OStr "sorted") (first :: rest) = Ok l)
  /\ (forall (first : Table) rest,
        sorder_of Sum (OStr "none") (first :: rest) = Ok (columns first))
  /\ (forall l (first : Table) rest, sorder_of Sum (OList l) (first :: rest) = Ok l).
Proof.
  split; [intros order; reflexivity|].
  split.
  { intros first rest Hcols. unfold sorder_of, column_sums. rewrite Hcols. reflexivity. }
  split.
  { intros o first rest H1 H2 H3. unfold sorder_of.
    destruct (String.eqb_spec o "additive"); [contradiction|].
    destruct (String.eqb_spec o "sorted"); [contradiction|].
    destruct (String.eqb_spec o "none"); [contradiction|]. reflexivity. }
  split.
  { intros first rest x y Hhead Hlast. unfold sorder_of.
    change (String.eqb "additive" "additive") with true. cbv iota.
    rewrite column_sums_labels.
    destruct (columns first) as [|l0 ls] eqn:Hlab; [discriminate|].
    simpl in Hhead. injection Hhead as ->.
    destruct (rev (x :: ls)) as [|l1 rs] eqn:Hrev.
    { apply (f_equal (@List.length Label)) in Hrev. rewrite length_rev in Hrev. discriminate. }
    assert (Hy : l1 = y).
    { apply (f_equal (@rev Label)) in Hrev. rewrite rev_involutive in Hrev.
      rewrite Hrev in Hlast. simpl in Hlast. rewrite last_snoc in Hlast. congruence. }
    subst l1. split.
    - intros [Hx Hy].
      destruct (first_lt_last_once (column_sums Sum first) x y) as (a & b & _ & _ & ->);
        [now rewrite column_sums_labels, Hlab|now rewrite column_sums_labels, Hlab|].
      simpl. eauto.
    - intros Hrep.
      destruct (first_lt_last_repeated (column_sums Sum first) x y) as (msg & ->).
      + rewrite column_sums_labels, Hlab. now left.
      + rewrite column_sums_labels, Hlab. apply in_rev. rewrite Hrev. now left.
      + now rewrite column_sums_labels, Hlab.
      + simpl. eauto. }
  split; [intros first rest; eexists; reflexivity|].
  split.
  { intros first rest. unfold sorder_of. simpl. now rewrite column_sums_labels. }
  intros l first rest. reflexivity.
Qed.

(** Two samples that the default [id_map] sends to one name: ['additive']
    raises, whatever the sums. *)
Example additive_order_repeated_label Sum :
  exists msg,
    sorder_of Sum (OStr "additive")
      [ mkDataFrame ["1"] [(LStr "S-1", [50]%float); (LStr "S-1", [100]%float)] ]
    = Raise (ValueError msg).
Proof. eexists. reflexivity. Qed.

(** ** The variant identifier and the panel labels *)

Lemma strip_no_space (s : string) : s <> EmptyString -> no_space s -> strip s = s.
Proof.
  intros Hne Hns. destruct (no_space_ends s Hne Hns) as (init & z & Heq & Hz).
  destruct s as [|c rest]; [contradiction|].
  assert (Hc : is_space c = false).
  { unfold no_space in Hns. simpl in Hns. now apply Forall_cons in Hns as [Hc _]. }
  unfold strip.
  assert (H1 : lstrip (list_ascii_of_string (String c rest))
               = list_ascii_of_string (String c rest)) by (simpl; now rewrite Hc).
  rewrite H1.
  assert (H2 : lstrip (rev (list_ascii_of_string (String c rest)))
               = rev (list_ascii_of_string (String c rest))).
  { rewrite Heq, chars_app. simpl list_ascii_of_string. rewrite rev_unit.
    change (lstrip (z :: rev (list_ascii_of_string init)))
      with (if is_space z then lstrip (rev (list_ascii_of_string init))
            else z :: rev (list_ascii_of_string init)).
    now rewrite Hz. }
  rewrite H2, rev_involutive. apply string_of_list_ascii_of_string.
Qed.

(** X18. Variant identifiers. An identifier made of a chromosome, a
    position, a reference and an alternate allele joined by underscores,
    followed or not by further fields such as a genome build, is taken apart
    into exactly these four (the position read as an integer); an identifier
    with fewer than four fields raises [ValueError]. *)
Theorem parse_variant_id_fields :
  (forall chrom pos ref alt more p,
      ~ In "_"%char (list_ascii_of_string chrom) ->
      ~ In "_"%char (list_ascii_of_string pos) ->
      ~ In "_"%char (list_ascii_of_string ref) ->
      ~ In "_"%char (list_ascii_of_string alt) ->
      Forall (fun f => ~ In "_"%char (list_ascii_of_string f)) more ->
      no_space pos -> parse_int pos = Some p ->
      parse_variant_id (join "_" (chrom :: pos :: ref :: alt :: more))
      = Ok (chrom, p, ref, alt))
  /\ (forall variant_id,
        List.length (split_on "_"%char variant_id) < 4 ->
        parse_variant_id variant_id
        = Raise (ValueError "not enough values to unpack (expected 4)")).
Proof.
  split.
  - intros chrom pos ref alt more p H1 H2 H3 H4 Hmore Hns Hp.
    unfold parse_variant_id.
    rewrite (split_join "_"%char); [|discriminate|repeat constructor; assumption].
    simpl. unfold py_int. rewrite strip_no_space; [now rewrite Hp|
      intros ->; discriminate Hp|exact Hns].
  - intros variant_id Hlen. unfold parse_variant_id.
    destruct (split_on "_"%char variant_id) as [|a [|b [|c [|e rest]]]]; simpl in *;
      try reflexivity. lia.
Qed.

Lemma parse_variant_id_fields_witness :
  parse_variant_id (join "_" ["chr1"; "12345"; "A"; "G"; "b38"]) = Ok ("chr1", 12345%Z, "A", "G")
  /\ parse_variant_id "rs12345" = Raise (ValueError "not enough values to unpack (expected 4)").
Proof.
  split.
  - apply (proj1 parse_variant_id_fields "chr1" "12345" "A" "G" ["b38"] 12345%Z);
      try (intros H; simpl in H; intuition discriminate).
    + repeat constructor. intros H; simpl in H; intuition discriminate.
    + repeat constructor.
    + reflexivity.
  - apply (proj2 parse_variant_id_fields). simpl. lia.
Defined.

Lemma list_items_middle {A} (l pre mid suf : list A) :
  l = pre ++ mid ++ suf ->
  map (list_item l) (seq (List.length pre) (List.length mid)) = map Ok mid.
Proof.
  revert pre. induction mid as [|x mid IH]; intros pre Heq; [reflexivity|].
  simpl. f_equal.
  - unfold list_item. rewrite Heq, nth_error_app2 by lia. now rewrite Nat.sub_diag.
  - specialize (IH (pre ++ [x])). rewrite length_app in IH. simpl in IH.
    rewrite Nat.add_1_r in IH. apply IH. now rewrite <- app_assoc.
Qed.

Lemma collect_list_items {A} (l : list A) n :
  n <= List.length l -> collect (map (list_item l) (seq 0 n)) = Ok (firstn n l).
Proof.
  intros Hn. apply collect_all_ok.
  rewrite <- (list_items_middle l [] (firstn n l) (skipn n l)).
  - simpl. now rewrite firstn_length_le.
  - simpl. now rewrite firstn_skipn.
Qed.

(** X19. Panel labels. Without [labels] every panel is labelled
    [Mean RPM]. With a list at least as long as the number of panels, panel
    [k] gets [labels[k]] and surplus labels are ignored. With a shorter
    list, labelling raises [IndexError]. *)
Theorem panel_labels_spec (num_pileups : nat) :
  panel_labels None num_pileups = Ok (repeat "Mean RPM" num_pileups)
  /\ (forall l, num_pileups <= List.length l ->
                panel_labels (Some l) num_pileups = Ok (firstn num_pileups l))
  /\ (forall l, List.length l < num_pileups ->
                panel_labels (Some l) num_pileups
                = Raise (IndexError "list index out of range")).
Proof.
  unfold panel_labels. split; [|split].
  - rewrite collect_list_items by now rewrite repeat_length.
    rewrite firstn_all2; [reflexivity|now rewrite repeat_length].
  - intros l Hl. now apply collect_list_items.
  - intros l Hl.
    replace num_pileups with (List.length l + S (num_pileups - S (List.length l))) by lia.
    rewrite seq_app. cbn [seq Nat.add].
    assert (Hpre : map (list_item l) (seq 0 (List.length l)) = map Ok l)
      by (apply (list_items_middle l [] l []); now rewrite app_nil_r).
    eapply collect_first_raise; [exact Hpre|].
    unfold list_item.
    now rewrite (proj2 (nth_error_None l (List.length l)) (Nat.le_refl _)).
Qed.

(** ** Comparing sums *)

Lemma SFcompare_antisym (x y : spec_float) :
  SFcompare y x = option_map CompOpp (SFcompare x y).
Proof.
  destruct x as [sx|sx| |sx mx ex], y as [sy|sy| |sy my ey]; simpl;
    try destruct sx; try destruct sy; try reflexivity.
  - assert (H : Pos.compare_cont Eq my mx = CompOpp (Pos.compare_cont Eq mx my))
      by (symmetry; apply (Pos.compare_cont_antisym mx my Eq)).
    rewrite (Z.compare_antisym ex ey), H.
    destruct (ex ?= ey)%Z; simpl; try reflexivity.
  - assert (H : Pos.compare_cont Eq my mx = CompOpp (Pos.compare_cont Eq mx my))
      by (symmetry; apply (Pos.compare_cont_antisym mx my Eq)).
    rewrite (Z.compare_antisym ex ey), H.
    destruct (ex ?= ey)%Z; simpl; try reflexivity.
Qed.

(** [<] on floats is asymmetric. *)
Lemma float_ltb_asym (a b : float) : (a <? b)%float = true -> (b <? a)%float = false.
Proof.
  rewrite !FloatAxioms.ltb_spec. unfold SFltb.
  rewrite (SFcompare_antisym (Prim2SF a) (Prim2SF b)).
  destruct (SFcompare (Prim2SF a) (Prim2SF b)) as [[| |]|]; simpl; congruence.
Qed.

Lemma SFcompare_None x y : SFcompare x y = None -> x = S754_nan \/ y = S754_nan.
Proof.
  destruct x as [sx|sx| |sx mx ex], y as [sy|sy| |sy my ey]; simpl; auto;
    try destruct sx; try destruct sy; discriminate.
Qed.

Lemma is_nan_false (a : float) : PrimFloat.is_nan a = false -> Prim2SF a <> S754_nan.
Proof.
  unfold PrimFloat.is_nan. rewrite FloatAxioms.eqb_spec. unfold SFeqb. intros H Hn.
  rewrite Hn in H. discriminate H.
Qed.

(** [<=] on floats is total away from NaN. *)
Lemma float_leb_total (a b : float) :
  PrimFloat.is_nan a = false -> PrimFloat.is_nan b = false ->
  (a <=? b)%float = false -> (b <=? a)%float = true.
Proof.
  intros Ha Hb. rewrite !FloatAxioms.leb_spec. unfold SFleb.
  rewrite (SFcompare_antisym (Prim2SF a) (Prim2SF b)).
  destruct (SFcompare (Prim2SF a) (Prim2SF b)) as [[| |]|] eqn:Hc; simpl; try congruence.
  apply SFcompare_None in Hc as [Hc|Hc];
    [now apply is_nan_false in Ha|now apply is_nan_false in Hb].
Qed.

Lemma last_of_rev {A} (l : list A) x rs : rev l = x :: rs -> last l = Some x.
Proof.
  intros Hrev. apply (f_equal (@rev A)) in Hrev. rewrite rev_involutive in Hrev.
  simpl in Hrev. rewrite Hrev. apply last_snoc.
Qed.

Lemma count_NoDup (ls : list Label) (l : Label) :
  NoDup ls -> In l ls -> List.length (List.filter (label_eqb l) ls) = 1.
Proof.
  induction 1 as [|x ls Hx Hnd IH]; intros Hin; [contradiction|]. simpl.
  destruct (label_eqb l x) eqn:Heq.
  - apply label_eqb_eq in Heq. subst x. simpl. f_equal.
    rewrite filter_none; [reflexivity|]. intros y Hy.
    apply not_true_iff_false. intros Hly. apply label_eqb_eq in Hly. subst y.
    apply Hx. now apply list_elem_of_In.
  - destruct Hin as [->|Hin]; [|now apply IH].
    assert (H : label_eqb l l = true) by now apply label_eqb_eq. congruence.
Qed.

Lemma count_NoDup_le (ls : list Label) (l : Label) :
  NoDup ls -> List.length (List.filter (label_eqb l) ls) <= 1.
Proof.
  induction 1 as [|x ls Hx Hnd IH]; simpl; [lia|].
  destruct (label_eqb l x) eqn:Heq; [|exact IH].
  apply label_eqb_eq in Heq. subst x. simpl.
  rewrite filter_none; [simpl; lia|]. intros y Hy.
  apply not_true_iff_false. intros Hly. apply label_eqb_eq in Hly. subst y.
  apply Hx. now apply list_elem_of_In.
Qed.

(** X20. The ['additive'] order is the columns of the first table, as they
    are or reversed, whichever puts the larger total first: the total of the
    first label of the order is never less than the total of its last label.
    (Labels are taken to be distinct, as [s[label]] must be a number.) *)
Theorem additive_order_canonical Sum (first : Table) (rest : list Table) :
  NoDup (columns first) ->
  df_columns first <> [] ->
  exists l x y a b,
    sorder_of Sum (OStr "additive") (first :: rest) = Ok l
    /\ (l = columns first \/ l = rev (columns first))
    /\ head l = Some x /\ last l = Some y
    /\ In (x, a) (column_sums Sum first) /\ In (y, b) (column_sums Sum first)
    /\ (a <? b)%float = false.
Proof.
  intros Hnd Hcols. unfold sorder_of.
  change (String.eqb "additive" "additive") with true. cbv iota.
  rewrite column_sums_labels.
  destruct (columns first) as [|l0 ls] eqn:Hlab.
  { unfold columns in Hlab. destruct (df_columns first); [contradiction|discriminate]. }
  destruct (rev (l0 :: ls)) as [|l1 rs] eqn:Hrev.
  { apply (f_equal (@List.length Label)) in Hrev. rewrite length_rev in Hrev. discriminate. }
  assert (Hin1 : In l1 (l0 :: ls)) by (apply in_rev; rewrite Hrev; now left).
  destruct (first_lt_last_once (column_sums Sum first) l0 l1) as (a & b & Ha & Hb & ->).
  { rewrite column_sums_labels, Hlab. apply count_NoDup; [exact Hnd|now left]. }
  { rewrite column_sums_labels, Hlab. now apply count_NoDup. }
  assert (Ha' : In (l0, a) (column_sums Sum first))
    by (apply sum_at_In; rewrite Ha; now left).
  assert (Hb' : In (l1, b) (column_sums Sum first))
    by (apply sum_at_In; rewrite Hb; now left).
  simpl. destruct (a <? b)%float eqn:Hlt.
  - exists (l1 :: rs), l1, l0, b, a. repeat split; auto.
    + apply (last_of_rev (l1 :: rs) l0 ls). rewrite <- Hrev.
      now rewrite rev_involutive.
    + now apply float_ltb_asym.
  - exists (l0 :: ls), l0, l1, a, b. repeat split; auto.
    now apply (last_of_rev (l0 :: ls) l1 rs).
Qed.

Lemma additive_order_canonical_witness :
  exists l x y a b,
    sorder_of sequential_sum (OStr "additive")
      [ mkDataFrame ["1"] [(LStr "Y", [50]%float); (LStr "X", [100]%float)] ] = Ok l
    /\ (l = columns (mkDataFrame ["1"] [(LStr "Y", [50]%float); (LStr "X", [100]%float)])
        \/ l = rev (columns (mkDataFrame ["1"] [(LStr "Y", [50]%float); (LStr "X", [100]%float)])))
    /\ head l = Some x /\ last l = Some y
    /\ In (x, a) (column_sums sequential_sum
                    (mkDataFrame ["1"] [(LStr "Y", [50]%float); (LStr "X", [100]%float)]))
    /\ In (y, b) (column_sums sequential_sum
                    (mkDataFrame ["1"] [(LStr "Y", [50]%float); (LStr "X", [100]%float)]))
    /\ (a <? b)%float = false.
Proof.
  apply (additive_order_canonical sequential_sum
           (mkDataFrame ["1"] [(LStr "Y", [50]%float); (LStr "X", [100]%float)]) []).
  - apply NoDup_cons. split; [|apply NoDup_singleton].
    intros H. apply list_elem_of_In in H. destruct H as [H|[]]. discriminate H.
  - discriminate.
Defined.

(** ** Positions under ['sorted'] *)

Lemma insert_by_value_perm x l : Permutation (insert_by_value x l) (x :: l).
Proof.
  induction l as [|y l IH]; simpl; [reflexivity|].
  destruct (snd x <=? snd y)%float; [reflexivity|].
  rewrite IH. apply perm_swap.
Qed.

Lemma sorted_pairs_perm (l : list (nat * float)) :
  Permutation (fold_right insert_by_value [] l) l.
Proof.
  induction l as [|x l IH]; simpl; [reflexivity|].
  rewrite insert_by_value_perm. now rewrite IH.
Qed.

(** [np.argsort] returns every position once. *)
Lemma np_argsort_perm (vals : list float) :
  Permutation (np_argsort vals) (seq 0 (List.length vals)).
Proof.
  unfold np_argsort. rewrite sorted_pairs_perm.
  destruct (combine_fst_snd (seq 0 (List.length vals)) vals) as [-> _];
    [now rewrite length_seq|reflexivity].
Qed.

Lemma no_nan_existsb (vals : list float) :
  Forall (fun v => PrimFloat.is_nan v = false) vals ->
  existsb PrimFloat.is_nan vals = false.
Proof.
  induction 1 as [|v vals Hv _ IH]; simpl; [reflexivity|]. now rewrite Hv.
Qed.

(** On values without NaN [Series.argsort] is [np.argsort]. *)
Lemma argsort_no_nan (vals : list float) :
  Forall (fun v => PrimFloat.is_nan v = false) vals ->
  argsort vals = map Z.of_nat (np_argsort vals).
Proof. intros Hnan. unfold argsort. now rewrite no_nan_existsb. Qed.

Lemma column_sums_no_nan Sum (d : Table) :
  Forall (fun c => PrimFloat.is_nan (Sum (shape1 d) (snd c)) = false) (df_columns d) ->
  Forall (fun v => PrimFloat.is_nan v = false) (map snd (column_sums Sum d)).
Proof.
  intros Hnan. unfold column_sums. rewrite map_map. simpl.
  apply List.Forall_forall. intros v Hv. apply in_map_iff in Hv as (c & <- & Hc).
  rewrite List.Forall_forall in Hnan. now apply Hnan.
Qed.

Lemma draw_traces_labels_helper outline (pileup_dfs : list Table) sorder traces tr :
  draw_traces outline pileup_dfs sorder = Ok traces ->
  In tr traces -> In (tr_label tr) sorder.
Proof.
  intros Hrun Hin. apply (draw_traces_In _ _ _ _ tr Hrun) in Hin.
  now destruct Hin as (d & c & _ & Hi & _).
Qed.

(** X21. Which labels can be drawn under a string [order]. Under
    ['additive'] and ['none'] every trace drawn, in any panel, carries a
    column label of the first table: a column that only a later table has is
    never drawn. Under ['sorted'], when no column total of the first table is
    NaN, every trace drawn carries an integer label that is a position in
    the first table. *)
Theorem plot_traces_labels Sum o outline (first : Table) (rest : list Table) traces tr :
  plot_traces Sum (OStr o) outline (first :: rest) = Ok traces ->
  In tr traces ->
  (o = "sorted" ->
   Forall (fun c => PrimFloat.is_nan (Sum (shape1 first) (snd c)) = false)
          (df_columns first) ->
   exists p, tr_label tr = LInt (Z.of_nat p) /\ p < shape1 first)
  /\ (o <> "sorted" -> In (tr_label tr) (columns first)).
Proof.
  unfold plot_traces. intros Hplot Hin.
  destruct (sorder_of Sum (OStr o) (first :: rest)) as [sorder|] eqn:Hso; [|discriminate].
  simpl in Hplot.
  apply (draw_traces_labels_helper _ _ _ _ _ Hplot) in Hin.
  unfold sorder_of in Hso. split.
  - intros -> Hnan. simpl in Hso. injection Hso as <-.
    rewrite (argsort_no_nan _ (column_sums_no_nan _ _ Hnan)) in Hin.
    apply in_map_iff in Hin as (z & <- & Hz). apply in_rev in Hz.
    apply in_map_iff in Hz as (p & <- & Hp). exists p. split; [reflexivity|].
    apply (Permutation_in _ (np_argsort_perm _)) in Hp.
    apply in_seq in Hp. unfold shape1. unfold column_sums in Hp.
    rewrite !length_map in Hp. lia.
  - intros Hne. destruct (String.eqb_spec o "additive") as [->|Hna].
    + rewrite column_sums_labels in Hso.
      destruct (columns first) as [|l0 ls] eqn:Hlab; [discriminate|].
      destruct (rev (l0 :: ls)) as [|l1 rs] eqn:Hrev; [discriminate|].
      destruct (first_lt_last (column_sums Sum first) l0 l1) as [lt|]; [|discriminate].
      simpl in Hso. injection Hso as <-.
      destruct lt; [|exact Hin].
      apply in_rev. now rewrite Hrev.
    + destruct (String.eqb_spec o "sorted") as [->|_]; [contradiction|].
      destruct (String.eqb_spec o "none") as [->|_]; [|discriminate].
      injection Hso as <-. now rewrite column_sums_labels in Hin.
Qed.

(** Without that condition a label need not be a position. The one column
    of this table, labelled -1, holds both infinities: its total is NaN,
    [Series.argsort] marks it by -1, and the column is drawn under -1. *)
Example sorted_order_nan_total Sum :
  sums_cells Sum ->
  plot_traces Sum (OStr "sorted") true
    [ mkDataFrame ["1"; "2"] [(LInt (-1), [infinity; neg_infinity]%float)] ]
  = Ok [ mkTrace 0 (LInt (-1)) true [infinity; neg_infinity]%float ].
Proof.
  intros HSum.
  assert (H1 : Sum 1 [infinity; neg_infinity]%float = nan) by known_sum HSum.
  unfold plot_traces, sorder_of, column_sums, shape1.
  cbn [df_columns map List.length fst snd]. rewrite H1. vm_compute. reflexivity.
Qed.

Lemma plot_traces_labels_witness :
  ("none" = "sorted" ->
     Forall (fun c => PrimFloat.is_nan (sequential_sum
                                          (shape1 (mkDataFrame ["1"] [(LStr "A", [1]%float)]))
                                          (snd c)) = false)
            (df_columns (mkDataFrame ["1"] [(LStr "A", [1]%float)])) ->
     exists p, tr_label (mkTrace 1 (LStr "A") false [2]%float) = LInt (Z.of_nat p)
               /\ p < shape1 (mkDataFrame ["1"] [(LStr "A", [1]%float)]))
  /\ ("none" <> "sorted" ->
        In (tr_label (mkTrace 1 (LStr "A") false [2]%float))
           (columns (mkDataFrame ["1"] [(LStr "A", [1]%float)]))).
Proof.
  apply (plot_traces_labels sequential_sum "none" false
           (mkDataFrame ["1"] [(LStr "A", [1]%float)])
           [mkDataFrame ["1"] [(LStr "A", [2]%float); (LStr "B", [3]%float)]]
           [mkTrace 0 (LStr "A") false [1]%float; mkTrace 1 (LStr "A") false [2]%float]
           (mkTrace 1 (LStr "A") false [2]%float)).
  - reflexivity.
  - right. now left.
Defined.

(** ** ['sorted'] on tables labelled 0, 1, 2, ... *)

Lemma insert_by_value_HdRel (R := fun a b : nat * float => (snd a <=? snd b)%float = true)
    y x l :
  HdRel R y l -> R y x -> HdRel R y (insert_by_value x l).
Proof.
  intros Hhd Hyx. destruct l as [|z l]; simpl.
  - now constructor.
  - destruct (snd x <=? snd z)%float; constructor; [exact Hyx|].
    now inversion Hhd.
Qed.

Lemma insert_by_value_sorted (R := fun a b : nat * float => (snd a <=? snd b)%float = true)
    x l :
  PrimFloat.is_nan (snd x) = false ->
  Forall (fun a => PrimFloat.is_nan (snd a) = false) l ->
  Sorted R l -> Sorted R (insert_by_value x l).
Proof.
  intros Hx Hl Hs. induction Hs as [|y l Hs IH Hhd]; simpl.
  - repeat constructor.
  - apply Forall_cons in Hl as [Hy Hl].
    destruct (snd x <=? snd y)%float eqn:Hle.
    + constructor; [now constructor|]. now constructor.
    + constructor; [now apply IH|].
      apply insert_by_value_HdRel; [exact Hhd|].
      now apply float_leb_total.
Qed.

Lemma sorted_pairs_sorted (R := fun a b : nat * float => (snd a <=? snd b)%float = true)
    (l : list (nat * float)) :
  Forall (fun a => PrimFloat.is_nan (snd a) = false) l ->
  Sorted R (fold_right insert_by_value [] l).
Proof.
  induction 1 as [|x l Hx Hl IH]; simpl; [constructor|].
  apply insert_by_value_sorted; [exact Hx| |exact IH].
  apply List.Forall_forall. intros a Ha.
  apply (Permutation_in _ (sorted_pairs_perm l)) in Ha.
  rewrite List.Forall_forall in Hl. now apply Hl.
Qed.

Lemma Sorted_snoc {A} (R : A -> A -> Prop) (l : list A) (x : A) :
  Sorted R l -> (forall y, last l = Some y -> R y x) -> Sorted R (l ++ [x]).
Proof.
  induction 1 as [|a l Hs IH Hhd]; intros Hlast; simpl.
  - repeat constructor.
  - constructor.
    + apply IH. intros y Hy. apply Hlast. destruct l; [discriminate|exact Hy].
    + destruct l as [|b l]; simpl.
      * constructor. now apply Hlast.
      * constructor. now inversion Hhd.
Qed.

Lemma Sorted_rev {A} (R : A -> A -> Prop) (l : list A) :
  Sorted R l -> Sorted (fun a b => R b a) (rev l).
Proof.
  induction 1 as [|a l Hs IH Hhd]; simpl; [constructor|].
  apply Sorted_snoc; [exact IH|].
  intros y Hy. destruct l as [|b l]; [discriminate|].
  inversion Hhd as [|? ? Hab]; subst.
  assert (Hyb : y = b).
  { simpl in Hy. rewrite last_snoc in Hy. congruence. }
  now subst.
Qed.

Lemma Sorted_map_In {A B} (R : A -> A -> Prop) (R' : B -> B -> Prop) (f : A -> B)
    (l : list A) :
  (forall a b, In a l -> In b l -> R a b -> R' (f a) (f b)) ->
  Sorted R l -> Sorted R' (map f l).
Proof.
  intros Hmap Hs. induction Hs as [|a l Hs IH Hhd]; simpl; [constructor|].
  constructor.
  - apply IH. intros x y Hx Hy. apply Hmap; now right.
  - destruct l as [|b l]; simpl; constructor.
    inversion Hhd; subst. apply Hmap; [now left|right; now left|assumption].
Qed.

Lemma indexed_pairs_lookup (vals : list float) p v :
  In (p, v) (combine (seq 0 (List.length vals)) vals) -> vals !! p = Some v.
Proof. apply indexed_In. Qed.

Lemma Sorted_weaken {A} (R R' : A -> A -> Prop) (l : list A) :
  (forall a b, R a b -> R' a b) -> Sorted R l -> Sorted R' l.
Proof.
  intros Himp Hs. induction Hs as [|a l Hs IH Hhd]; constructor; [exact IH|].
  destruct Hhd; constructor. now apply Himp.
Qed.

(** The positions by descending value, for values without NaN. *)
Lemma np_argsort_descending (vals : list float) :
  Forall (fun v => PrimFloat.is_nan v = false) vals ->
  Sorted (fun p q => exists a b, vals !! p = Some a /\ vals !! q = Some b
                                 /\ (b <=? a)%float = true)
         (rev (np_argsort vals)).
Proof.
  intros Hnan. unfold np_argsort.
  eapply Sorted_weaken;
    [|apply (Sorted_rev (fun p q => exists a b, vals !! p = Some a /\ vals !! q = Some b
                                               /\ (a <=? b)%float = true))].
  { intros p q (a & b & Ha & Hb & Hle). exists b, a. auto. }
  apply (Sorted_map_In (fun a b : nat * float => (snd a <=? snd b)%float = true)).
  - intros [p a] [q b] Hp Hq Hle. simpl in *.
    apply (Permutation_in _ (sorted_pairs_perm _)) in Hp, Hq.
    exists a, b. split; [now apply indexed_pairs_lookup|].
    split; [now apply indexed_pairs_lookup|exact Hle].
  - apply sorted_pairs_sorted. apply List.Forall_forall. intros [p a] Hin. simpl.
    apply indexed_pairs_lookup in Hin. rewrite List.Forall_forall in Hnan.
    apply Hnan. apply list_elem_of_In. eapply list_elem_of_lookup_2. exact Hin.
Qed.

Lemma columns_of_once (cols : list (Label * list float)) (i : Label) :
  List.length (columns_of cols i) = 1 -> columns_of cols i = [column_of cols i].
Proof.
  unfold columns_of. induction cols as [|[l vs] cols IH]; simpl; [discriminate|].
  destruct (label_eqb l i) eqn:Heq; simpl; [|exact IH].
  intros Hlen. injection Hlen as Hlen. apply length_zero_iff_nil in Hlen.
  now rewrite Hlen.
Qed.

Lemma draw_panel_all outline k (d : Table) sorder :
  NoDup (columns d) ->
  (forall i, In i sorder -> In i (columns d)) ->
  draw_panel outline k d sorder
  = Ok (map (fun i => mkTrace k i outline (column_of (df_columns d) i)) sorder).
Proof.
  intros Hnd Hall.
  assert (Hone : forall i, In i sorder -> List.length (columns_of (df_columns d) i) = 1).
  { intros i Hi. rewrite columns_of_length. apply count_NoDup; [exact Hnd|now apply Hall]. }
  rewrite draw_panel_runs.
  - f_equal. clear Hall. induction sorder as [|i sorder IH]; simpl; [reflexivity|].
    rewrite (columns_of_once _ _ (Hone i (or_introl eq_refl))). simpl. f_equal.
    apply IH. intros j Hj. apply Hone. now right.
  - right. intros i Hi. rewrite (Hone i Hi). lia.
Qed.

Lemma column_of_position (cols : list (Label * list float)) k (p : nat) l col :
  map fst cols = map (fun q => LInt (Z.of_nat q)) (seq k (List.length cols)) ->
  cols !! p = Some (l, col) ->
  column_of cols (LInt (Z.of_nat (k + p))) = col.
Proof.
  revert k p. induction cols as [|[l0 c0] cols IH]; intros k p Hlab Hp; [discriminate|].
  simpl in Hlab. injection Hlab as -> Hlab. simpl.
  destruct p as [|p]; simpl in Hp.
  - injection Hp as <- <-. rewrite Nat.add_0_r, Z.eqb_refl. reflexivity.
  - destruct (Z.eqb_spec (Z.of_nat k) (Z.of_nat (k + S p))) as [Heq|_]; [lia|].
    replace (k + S p) with (S k + p) by lia. now apply IH.
Qed.

Lemma later_panels_not_first outline (rest : list Table) sorder :
  Forall (fun t => tr_panel t <> 0)
    (flat_map (fun kd => flat_map (fun i => map (mkTrace (fst kd) i outline)
                                                (columns_of (df_columns (snd kd)) i)) sorder)
              (combine (seq 1 (List.length rest)) rest)).
Proof.
  apply List.Forall_forall. intros t Ht. apply in_flat_map in Ht as ([k d] & Hkd & Ht).
  simpl in Ht. apply in_flat_map in Ht as (i & _ & Ht).
  apply in_map_iff in Ht as (y & <- & _). simpl.
  apply in_combine_l in Hkd. apply in_seq in Hkd. lia.
Qed.

Lemma positions_NoDup (n : nat) : NoDup (map (fun p => LInt (Z.of_nat p)) (seq 0 n)).
Proof.
  apply NoDup_fmap_2; [|apply NoDup_seq].
  intros p q H. injection H as H. lia.
Qed.


(** Under [ax.fill_between] a label repeated in a later table stops the
    loop, also when the first table is labelled 0, 1, ...: the first panel
    has been drawn by then, the call raises. *)
Example sorted_order_stops_at_repeated_label Sum :
  sums_cells Sum ->
  exists msg,
    plot_traces Sum (OStr "sorted") false
      [ mkDataFrame ["1"] [(LInt 0, [1]%float)];
        mkDataFrame ["1"] [(LInt 0, [2]%float); (LInt 0, [3]%float)] ]
    = Raise (ValueError msg).
Proof.
  intros HSum.
  assert (H1 : Sum 1 [1%float] = 1%float) by known_sum HSum.
  eexists. unfold plot_traces, sorder_of, column_sums, shape1.
  cbn [df_columns map List.length fst snd]. rewrite H1. vm_compute. reflexivity.
Qed.


(** ** The pool cannot get stuck *)

Section PoolProgress.

Variable isdir : list string -> bool.
Variable shell : string -> list string -> result string.
Variable tasks : list Task.

Local Abbreviation step := (pool_step isdir shell).
Local Abbreviation accounted := (pool_accounted tasks).
Local Abbreviation measure := (pool_measure (List.length tasks)).

Lemma queue_head_generic taken i t q :
  combine (seq taken (List.length tasks - taken)) (drop taken tasks) = (i, t) :: q ->
  i = taken /\ taken < List.length tasks
  /\ q = combine (seq (S taken) (List.length tasks - S taken)) (drop (S taken) tasks).
Proof.
  intros H. destruct (tasks !! taken) as [t'|] eqn:Ht.
  - pose proof (lookup_lt_Some _ _ _ Ht) as Hlt.
    rewrite (drop_S _ _ _ Ht) in H.
    replace (List.length tasks - taken) with (S (List.length tasks - S taken)) in H by lia.
    simpl in H. injection H as <- <- <-. auto.
  - apply lookup_ge_None in Ht.
    replace (List.length tasks - taken) with 0 in H by lia. discriminate.
Qed.

Lemma pool_init_accounted w n : accounted (pool_init w n tasks).
Proof.
  exists 0. simpl. rewrite Nat.sub_0_r.
  split; [reflexivity|]. split; [lia|]. split; [lia|].
  split; [intros i r []|]. split; [|intros i Hi; lia].
  intros i t Hin. apply in_map_iff in Hin as (wk & Hjob & Hwk).
  apply repeat_spec in Hwk. subst wk. discriminate Hjob.
Qed.

Lemma pool_step_accounted p p' : accounted p -> step p p' -> accounted p'.
Proof.
  intros (taken & Hq & Hle & Hn & Hc & Hj & Hacc) Hstep.
  destruct Hstep as [i t q ws1 w ws2 c n out
                    |i t q ws1 w ws2 c n out
                    |q ws c1 c2 n r out]; simpl in *.
  - symmetry in Hq. apply queue_head_generic in Hq as (-> & Hlt & ->).
    exists (S taken). simpl.
    split; [reflexivity|]. split; [lia|]. split; [lia|]. split; [|split].
    + intros i r Hin. specialize (Hc i r Hin). lia.
    + intros i t' Hin. rewrite map_app in Hin. apply in_app_or in Hin as [Hin|[Hin|Hin]].
      * assert (i < taken); [|lia]. apply (Hj i t'). rewrite map_app. apply in_or_app. now left.
      * simpl in Hin. injection Hin as <- _. lia.
      * assert (i < taken); [|lia]. apply (Hj i t'). rewrite map_app. apply in_or_app.
        right. now right.
    + intros i Hi. destruct (decide (i = taken)) as [->|Hne].
      * right. exists t. rewrite map_app. apply in_or_app. right. now left.
      * destruct (Hacc i ltac:(lia)) as [Hcache|(t' & Hjob)]; [now left|].
        right. exists t'. rewrite map_app in *. apply in_app_or in Hjob as [Hjob|[Hjob|Hjob]].
        -- apply in_or_app. now left.
        -- discriminate Hjob.
        -- apply in_or_app. right. now right.
  - assert (Hit : i < taken).
    { apply (Hj i t). rewrite map_app. apply in_or_app. right. now left. }
    exists taken. simpl.
    split; [exact Hq|]. split; [exact Hle|]. split; [exact Hn|]. split; [|split].
    + intros j r Hin. apply in_app_or in Hin as [Hin|[[= <- <-]|[]]];
        [now apply (Hc j r)|exact Hit].
    + intros j t' Hin. apply (Hj j t'). rewrite map_app in *.
      apply in_app_or in Hin as [Hin|[Hin|Hin]]; apply in_or_app.
      * now left.
      * discriminate Hin.
      * right. now right.
    + intros j Hjr. destruct (Hacc j Hjr) as [(r & Hr)|(t' & Hjob)].
      * left. exists r. apply in_or_app. now left.
      * rewrite map_app in Hjob. apply in_app_or in Hjob as [Hjob|[Hjob|Hjob]].
        -- right. exists t'. rewrite map_app. apply in_or_app. now left.
        -- simpl in Hjob. injection Hjob as <- <-. left. eexists.
           apply in_or_app. right. now left.
        -- right. exists t'. rewrite map_app. apply in_or_app. right. now right.
  - assert (Hnt : n < taken) by (apply (Hc n (Ok r)); apply in_or_app; right; now left).
    exists taken. simpl.
    split; [exact Hq|]. split; [exact Hle|]. split; [lia|]. split; [|split].
    + intros i r' Hin. apply (Hc i r'). apply in_app_or in Hin as [H|H]; apply in_or_app;
        [now left|right; now right].
    + exact Hj.
    + intros i Hi. destruct (Hacc i ltac:(lia)) as [(r' & Hr')|Hjob]; [|now right].
      left. exists r'. apply in_app_or in Hr' as [H|[H|H]]; apply in_or_app.
      * now left.
      * injection H as -> _. lia.
      * now right.
Qed.

End PoolProgress.

Section PoolLiveness.

Variable isdir : list string -> bool.
Variable shell : string -> list string -> result string.
Variable w0 : World.
Variable tasks : list Task.

Local Abbreviation total := (List.length tasks).

Lemma busy_count_app ws1 wk ws2 :
  List.length (List.filter busy (ws1 ++ wk :: ws2))
  = List.length (List.filter busy ws1) + (if busy wk then 1 else 0)
    + List.length (List.filter busy ws2).
Proof.
  rewrite List.filter_app, length_app. simpl. destruct (busy wk); simpl; lia.
Qed.

(** Every step uses up some of what is left to do. *)
Lemma pool_step_measure p p' :
  pool_accounted tasks p -> pool_step isdir shell p p' ->
  pool_measure total p' < pool_measure total p.
Proof.
  intros (taken & Hq & Hle & Hn & Hc & Hj & Hacc) Hstep. unfold pool_measure.
  destruct Hstep as [i t q ws1 w ws2 c n out
                    |i t q ws1 w ws2 c n out
                    |q ws c1 c2 n r out]; simpl in *.
  - rewrite !busy_count_app. simpl. lia.
  - rewrite !busy_count_app. simpl. lia.
  - assert (Hnt : n < taken) by (apply (Hc n (Ok r)); apply in_or_app; right; now left).
    lia.
Qed.

Lemma find_busy (ws : list Worker) :
  (exists ws1 w i t ws2, ws = ws1 ++ mkWorker w (Some (i, t)) :: ws2)
  \/ Forall (fun wk => w_job wk = None) ws.
Proof.
  induction ws as [|[w [[i t]|]] ws IH].
  - right. constructor.
  - left. now exists [], w, i, t, ws.
  - destruct IH as [(ws1 & w' & i & t & ws2 & ->)|Hidle].
    + left. now exists (mkWorker w None :: ws1), w', i, t, ws2.
    + right. now constructor.
Qed.

Lemma find_cached (c : list (nat * result Series)) n :
  (exists r, In (n, r) c) \/ (forall r, ~ In (n, r) c).
Proof.
  induction c as [|[i r] c IH].
  - right. intros r [].
  - destruct (decide (i = n)) as [->|Hne]; [left; exists r; now left|].
    destruct IH as [(r' & Hr')|Hno]; [left; exists r'; now right|].
    right. intros r' [[= -> _]|Hin]; [contradiction|]. now apply (Hno r').
Qed.

(** From a state that accounts for every task, with a worker in the pool,
    the loop can be brought to its end. *)
Lemma pool_progress m : forall p,
  pool_measure total p < m ->
  pool_accounted tasks p -> workers p <> [] ->
  exists o, imap_outcome isdir shell total p o.
Proof.
  induction m as [|m IH]; intros p Hm Hacc Hws; [lia|].
  destruct (decide (next p = total)) as [Hdone|Hmore].
  { eexists. now apply outcome_done. }
  assert (Hnext : forall p', pool_step isdir shell p p' -> workers p' <> [] ->
                             exists o, imap_outcome isdir shell total p o).
  { intros p' Hstep Hws'.
    destruct (IH p') as (o & Ho).
    - pose proof (pool_step_measure p p' Hacc Hstep). lia.
    - exact (pool_step_accounted isdir shell tasks p p' Hacc Hstep).
    - exact Hws'.
    - exists o. exact (outcome_step isdir shell total p p' o Hstep Ho). }
  destruct p as [q ws c n out]. simpl in *.
  destruct (find_busy ws) as [(ws1 & w & i & t & ws2 & ->)|Hidle].
  { eapply Hnext; [apply step_finish|]. simpl. now destruct ws1. }
  destruct (find_cached c n) as [([r|e] & Hr)|Hno].
  - apply in_split in Hr as (c1 & c2 & ->).
    eapply Hnext; [apply step_yield|exact Hws].
  - exists (Raise e). now apply outcome_raise.
  - destruct Hacc as (taken & Hq & Hle & Hn & Hc & Hj & Hcov). simpl in *.
    assert (Hnt : n = taken).
    { destruct (decide (n = taken)) as [|Hne]; [assumption|exfalso].
      destruct (Hcov n ltac:(lia)) as [(r & Hr)|(t & Hjob)]; [now apply (Hno r)|].
      apply in_map_iff in Hjob as (wk & Hjob & Hwk).
      rewrite List.Forall_forall in Hidle. rewrite (Hidle wk Hwk) in Hjob. discriminate. }
    subst taken.
    assert (Hlt : n < total) by lia.
    destruct (tasks !! n) as [t|] eqn:Ht; [|apply lookup_ge_None in Ht; lia].
    rewrite (drop_S _ _ _ Ht) in Hq.
    replace (total - n) with (S (total - S n)) in Hq by lia. simpl in Hq.
    destruct ws as [|[w job] ws]; [contradiction|].
    apply Forall_cons in Hidle as [Hjob _]. simpl in Hjob. subst job q.
    eapply Hnext; [apply (step_take isdir shell n t _ [] w ws)|]. simpl. discriminate.
Qed.

Lemma pool_step_workers p p' :
  pool_step isdir shell p p' -> workers p <> [] -> workers p' <> [].
Proof.
  intros Hstep Hws. destruct Hstep; simpl in *; try assumption;
    now destruct ws1.
Qed.


End PoolLiveness.

